(** * MCPLink agent turn engine: a shallow embedding in Rocq

    This development models the two turn engines of MCPLink:
    - [Agent.chatStream] (native tool calling, [packages/core/src/Agent.ts],
      the current version of that file),
    - [PromptBasedAgent.chatStream] (tool calls written as tags in the
      model's text, [packages/core/src/PromptBasedAgent.ts]),
    together with the tool-call decoder, the immediate-result matcher and
    the mode selection of [MCPLink].

    Modelling conventions.
    - JS strings are [String.string]: sequences of 8-bit code units.  The
      whitespace of JS ([\s], [trim]) restricted to that range is
      TAB, LF, VT, FF, CR, SPACE and NBSP.
    - Event payloads keep every field except timestamps and durations
      ([Date.now()]); the ids the code builds from [Date.now()] take the
      clock value as an explicit input.
    - Numbers are integers ([Z]), except [maxIterations], a rational ([Q]).
    - The model ([streamText]) and the tool server ([mcpManager.callTool])
      are collaborators, passed as functions; so are the builtins
      [JSON.parse] and [JSON.stringify].  A concrete [JSON.parse] for the
      integer fragment of JSON is given for running examples. *)

From Stdlib Require Import String Ascii List Bool Arith Lia ZArith QArith Qround Permutation.
Import ListNotations.
Open Scope list_scope.
Open Scope string_scope.
Open Scope nat_scope.
Set Warnings "-register-all".

(* ================================================================== *)
(** ** JS string primitives *)

Definition nl : ascii := "010"%char.
Definition dq : ascii := "034"%char.

(** A string literal in which every single quote stands for a double
    quote (Rocq literals would need doubled quotes otherwise). *)
Fixpoint jstr (s : string) : string :=
  match s with
  | EmptyString => EmptyString
  | String c s' => String (if Ascii.eqb c "'"%char then dq else c) (jstr s')
  end.

Definition nl_s : string := String nl EmptyString.

Fixpoint sdrop (n : nat) (s : string) : string :=
  match n, s with
  | 0, _ => s
  | S n', String _ s' => sdrop n' s'
  | S _, EmptyString => EmptyString
  end.

Fixpoint stake (n : nat) (s : string) : string :=
  match n, s with
  | 0, _ => EmptyString
  | S n', String c s' => String c (stake n' s')
  | S _, EmptyString => EmptyString
  end.

(** [s.substring(a, b)] for [a <= b]. *)
Definition js_substring (s : string) (a b : nat) : string := stake (b - a) (sdrop a s).

Fixpoint prefixb (p s : string) : bool :=
  match p, s with
  | EmptyString, _ => true
  | String c p', String d s' => Ascii.eqb c d && prefixb p' s'
  | String _ _, EmptyString => false
  end.

Fixpoint index_aux (p s : string) (pos : nat) : option nat :=
  if prefixb p s then Some pos
  else match s with
       | EmptyString => None
       | String _ s' => index_aux p s' (S pos)
       end.

(** [s.indexOf(p)]; [None] stands for [-1]. *)
Definition indexOf (s p : string) : option nat := index_aux p s 0.

(** [s.indexOf(p, from)]. *)
Definition indexOf_from (s p : string) (from : nat) : option nat :=
  let f := Nat.min from (String.length s) in
  index_aux p (sdrop f s) f.

Definition includes (s p : string) : bool :=
  match indexOf s p with Some _ => true | None => false end.

Definition startsWith (s p : string) : bool := prefixb p s.

Definition js_ws (c : ascii) : bool :=
  let n := nat_of_ascii c in
  (9 <=? n) && (n <=? 13) || (n =? 32) || (n =? 160).

Fixpoint trimStart (s : string) : string :=
  match s with
  | String c s' => if js_ws c then trimStart s' else s
  | EmptyString => EmptyString
  end.

Fixpoint rev_s (s : string) (acc : string) : string :=
  match s with
  | EmptyString => acc
  | String c s' => rev_s s' (String c acc)
  end.

Definition trimEnd (s : string) : string := rev_s (trimStart (rev_s s EmptyString)) EmptyString.

Definition trim (s : string) : string := trimEnd (trimStart s).

(** Truthiness of [s.trim()]. *)
Definition nonblank (s : string) : bool :=
  match trim s with EmptyString => false | _ => true end.

(** [s.replace(pat, rep)] with a string pattern: the first occurrence. *)
Definition replace_first (s pat rep : string) : string :=
  match indexOf s pat with
  | Some i => stake i s ++ rep ++ sdrop (i + String.length pat) s
  | None => s
  end.

(** [s.split(sep)] for a one-character separator. *)
Fixpoint split_char (sep : ascii) (s : string) : list string :=
  match s with
  | EmptyString => [EmptyString]
  | String c s' =>
      if Ascii.eqb c sep then EmptyString :: split_char sep s'
      else match split_char sep s' with
           | w :: ws => String c w :: ws
           | [] => [String c EmptyString]
           end
  end.

Fixpoint digits_of (fuel n : nat) (acc : string) : string :=
  match fuel with
  | 0 => acc
  | S f =>
      let acc' := String (ascii_of_nat (48 + n mod 10)) acc in
      if n <? 10 then acc' else digits_of f (n / 10) acc'
  end.

(** [String(n)] for a non-negative integer. *)
Definition nat_to_string (n : nat) : string := digits_of (S n) n EmptyString.

Definition Z_to_string (z : Z) : string :=
  match z with
  | Zneg p => "-" ++ nat_to_string (Pos.to_nat p)
  | _ => nat_to_string (Z.to_nat z)
  end.

(* ================================================================== *)
(** ** Regular expressions: a backtracking matcher with JS semantics

    The fragment used by the source: character classes, concatenation,
    alternation, greedy and lazy [*], capture groups and [^] (no [m]
    flag, so start of input only).  As in ECMAScript, an iteration of a
    quantifier that matches the empty string fails. *)

Inductive re : Type :=
| REps
| RChr (p : ascii -> bool)
| RSeq (r1 r2 : re)
| RAlt (r1 r2 : re)
| RStar (greedy : bool) (r : re)
| RGroup (n : nat) (r : re)
| RBol.

Definition caps := list (nat * (nat * nat)).

Section Matcher.
Variable R : Type.

Fixpoint rmatch (r : re) (pos : nat) (rest : string) (cs : caps)
  (k : nat -> string -> caps -> option R) {struct r} : option R :=
  match r with
  | REps => k pos rest cs
  | RChr p =>
      match rest with
      | String c rest' => if p c then k (S pos) rest' cs else None
      | EmptyString => None
      end
  | RSeq a b => rmatch a pos rest cs (fun p1 r1 c1 => rmatch b p1 r1 c1 k)
  | RAlt a b =>
      match rmatch a pos rest cs k with
      | Some x => Some x
      | None => rmatch b pos rest cs k
      end
  | RGroup n a => rmatch a pos rest cs (fun p1 r1 c1 => k p1 r1 ((n, (pos, p1)) :: c1))
  | RBol => if Nat.eqb pos 0 then k pos rest cs else None
  | RStar g a =>
      (fix loop (fuel : nat) (pos : nat) (rest : string) (cs : caps) {struct fuel} : option R :=
         match fuel with
         | 0 => k pos rest cs
         | S f =>
             if g then
               match rmatch a pos rest cs
                       (fun p1 r1 c1 => if p1 <=? pos then None else loop f p1 r1 c1) with
               | Some x => Some x
               | None => k pos rest cs
               end
             else
               match k pos rest cs with
               | Some x => Some x
               | None => rmatch a pos rest cs
                           (fun p1 r1 c1 => if p1 <=? pos then None else loop f p1 r1 c1)
               end
         end) (S (String.length rest)) pos rest cs
  end.
End Matcher.

(** [re.exec(s)] without the [g] flag: the leftmost match, as
    (start, end, captures). *)
Fixpoint exec_from (r : re) (i : nat) (rest : string) : option (nat * nat * caps) :=
  match rmatch _ r i rest [] (fun p _ c => Some (p, c)) with
  | Some (p, c) => Some (i, p, c)
  | None =>
      match rest with
      | EmptyString => None
      | String _ rest' => exec_from r (S i) rest'
      end
  end.

Definition regex_exec (r : re) (s : string) : option (nat * nat * caps) := exec_from r 0 s.

Definition regex_test (r : re) (s : string) : bool :=
  match regex_exec r s with Some _ => true | None => false end.

(** [m[0]] *)
Definition match_str (s : string) (m : nat * nat * caps) : string :=
  let '(i, p, _) := m in js_substring s i p.

(** [m[n]]; [None] is [undefined]. *)
Definition match_group (s : string) (m : nat * nat * caps) (n : nat) : option string :=
  let '(_, _, c) := m in
  match find (fun e => Nat.eqb (fst e) n) c with
  | Some (_, (a, b)) => Some (js_substring s a b)
  | None => None
  end.

(** [s.replace(re, rep)] without the [g] flag. *)
Definition regex_replace_first (r : re) (s rep : string) : string :=
  match regex_exec r s with
  | Some (i, p, _) => stake i s ++ rep ++ sdrop p s
  | None => s
  end.

(** Building blocks. *)
Definition upper (c : ascii) : ascii :=
  let n := nat_of_ascii c in
  if (97 <=? n) && (n <=? 122) then ascii_of_nat (n - 32) else c.

Definition chr (c : ascii) : re := RChr (fun x => Ascii.eqb x c).
Definition chr_i (c : ascii) : re := RChr (fun x => Ascii.eqb (upper x) (upper c)).

Fixpoint lit_with (f : ascii -> re) (s : string) : re :=
  match s with
  | EmptyString => REps
  | String c EmptyString => f c
  | String c s' => RSeq (f c) (lit_with f s')
  end.

Definition lit : string -> re := lit_with chr.
Definition lit_i : string -> re := lit_with chr_i.

Fixpoint seqs (l : list re) : re :=
  match l with
  | [] => REps
  | [r] => r
  | r :: l' => RSeq r (seqs l')
  end.

Definition ws : re := RChr js_ws.
Definition anyc : re := RChr (fun _ => true).
Definition none_of (l : list ascii) : re := RChr (fun x => negb (existsb (Ascii.eqb x) l)).
Definition one_of (l : list ascii) : re := RChr (fun x => existsb (Ascii.eqb x) l).
Definition digit : re := RChr (fun x => let n := nat_of_ascii x in (48 <=? n) && (n <=? 57)).
Definition star (r : re) : re := RStar true r.
Definition lazy_star (r : re) : re := RStar false r.
Definition plus (r : re) : re := RSeq r (RStar true r).
Definition opt (r : re) : re := RAlt r REps.

Definition quote_cls : re := one_of [dq; "'"%char].
Definition not_quote : re := none_of [dq; "'"%char].

(* ================================================================== *)
(** ** JS values and the builtins the code relies on *)

Inductive jsval : Type :=
| JUndefined
| JNull
| JBool (b : bool)
| JNum (n : Z)
| JStr (s : string)
| JArr (l : list jsval)
| JObj (l : list (string * jsval)).

Inductive js_exn : Type := TypeError | SyntaxError.

(** [typeof v === 'object' && v !== null] *)
Definition is_object (v : jsval) : bool :=
  match v with JArr _ | JObj _ => true | _ => false end.

Definition js_truthy (v : jsval) : bool :=
  match v with
  | JUndefined | JNull => false
  | JBool b => b
  | JNum n => negb (Z.eqb n 0)
  | JStr s => negb (String.eqb s "")
  | JArr _ | JObj _ => true
  end.

Fixpoint digits_val (s : string) (acc : nat) : option nat :=
  match s with
  | EmptyString => Some acc
  | String c s' =>
      let n := nat_of_ascii c in
      if (48 <=? n) && (n <=? 57) then digits_val s' (acc * 10 + (n - 48)) else None
  end.

(** Keys that are array indices (canonical decimal numerals). *)
Definition array_index (k : string) : option nat :=
  match k with
  | EmptyString => None
  | String c s' =>
      if Ascii.eqb c "0"%char then (match s' with EmptyString => Some 0 | _ => None end)
      else digits_val k 0
  end.

(** [v[k]] for a value that is not [null]/[undefined] (own properties). *)
Definition get_prop (v : jsval) (k : string) : jsval :=
  match v with
  | JObj l =>
      match find (fun e => String.eqb (fst e) k) l with
      | Some (_, x) => x
      | None => JUndefined
      end
  | JArr l =>
      if String.eqb k "length" then JNum (Z.of_nat (List.length l))
      else match array_index k with
           | Some i => nth i l JUndefined
           | None => JUndefined
           end
  | JStr s =>
      if String.eqb k "length" then JNum (Z.of_nat (String.length s))
      else match array_index k with
           | Some i => match String.get i s with
                       | Some c => JStr (String c EmptyString)
                       | None => JUndefined
                       end
           | None => JUndefined
           end
  | _ => JUndefined
  end.

(** [v.k]: throws a [TypeError] on [null] and [undefined]. *)
Definition js_get (v : jsval) (k : string) : js_exn + jsval :=
  match v with
  | JUndefined | JNull => inl TypeError
  | _ => inr (get_prop v k)
  end.

(** [a === b]: primitives by value; objects by reference, and a matcher's
    values are never the same objects as a tool's result. *)
Definition strict_eq (a b : jsval) : bool :=
  match a, b with
  | JUndefined, JUndefined => true
  | JNull, JNull => true
  | JBool x, JBool y => Bool.eqb x y
  | JNum x, JNum y => Z.eqb x y
  | JStr x, JStr y => String.eqb x y
  | _, _ => false
  end.

Fixpoint join_with (sep : string) (l : list string) : string :=
  match l with
  | [] => EmptyString
  | [x] => x
  | x :: l' => x ++ sep ++ join_with sep l'
  end.

(** [String(v)] *)
Fixpoint js_String (v : jsval) : string :=
  match v with
  | JUndefined => "undefined"
  | JNull => "null"
  | JBool true => "true"
  | JBool false => "false"
  | JNum n => Z_to_string n
  | JStr s => s
  | JArr l =>
      join_with "," (map (fun x => match x with
                                   | JUndefined | JNull => EmptyString
                                   | _ => js_String x
                                   end) l)
  | JObj _ => "[object Object]"
  end.

(** What [callTool] settles with: a value, or a rejection carrying an
    [Error] (with its message) or some other thrown value. *)
Inductive thrown : Type := ErrorObj (message : string) | ThrownValue (v : jsval).
Inductive outcome : Type := Returned (v : jsval) | Threw (e : thrown).

(** [error instanceof Error ? error.message : String(error)] *)
Definition error_message (e : thrown) : string :=
  match e with ErrorObj m => m | ThrownValue v => js_String v end.

(** [s.replace(/'/g, ...)]: every single quote becomes a double quote. *)
Fixpoint replace_single_quotes (s : string) : string :=
  match s with
  | EmptyString => EmptyString
  | String c s' => String (if Ascii.eqb c "'"%char then dq else c) (replace_single_quotes s')
  end.

(** *** A concrete [JSON.parse] for the integer fragment of JSON

    Used to run examples.  Numbers with a fraction or an exponent, and
    [\u] escapes above [ÿ], are outside the 8-bit integer value
    model and are refused.  Duplicate keys keep the first position and
    the last value, as [JSON.parse] does. *)

Definition json_ws (c : ascii) : bool :=
  let n := nat_of_ascii c in (n =? 32) || (n =? 9) || (n =? 10) || (n =? 13).

Fixpoint skip_ws (s : string) : string :=
  match s with
  | String c s' => if json_ws c then skip_ws s' else s
  | EmptyString => EmptyString
  end.

Definition hex_val (c : ascii) : option nat :=
  let n := nat_of_ascii c in
  if (48 <=? n) && (n <=? 57) then Some (n - 48)
  else if (97 <=? n) && (n <=? 102) then Some (n - 87)
  else if (65 <=? n) && (n <=? 70) then Some (n - 55)
  else None.

Definition simple_escape (e : ascii) : option ascii :=
  let n := nat_of_ascii e in
  if n =? 34 then Some dq
  else if n =? 92 then Some e
  else if n =? 47 then Some e
  else if n =? 98 then Some (ascii_of_nat 8)
  else if n =? 102 then Some (ascii_of_nat 12)
  else if n =? 110 then Some (ascii_of_nat 10)
  else if n =? 114 then Some (ascii_of_nat 13)
  else if n =? 116 then Some (ascii_of_nat 9)
  else None.

Definition cons_fst (c : ascii) (r : option (string * string)) : option (string * string) :=
  match r with Some (w, rest) => Some (String c w, rest) | None => None end.

(** The body of a JSON string literal, after the opening quote. *)
Fixpoint p_str (s : string) : option (string * string) :=
  match s with
  | EmptyString => None
  | String c s' =>
      if Ascii.eqb c dq then Some (EmptyString, s')
      else if Nat.eqb (nat_of_ascii c) 92 then
        match s' with
        | String e s'' =>
            match simple_escape e with
            | Some ch => cons_fst ch (p_str s'')
            | None =>
                if Ascii.eqb e "u"%char then
                  match s'' with
                  | String h1 (String h2 (String h3 (String h4 s5))) =>
                      match hex_val h1, hex_val h2, hex_val h3, hex_val h4 with
                      | Some 0, Some 0, Some a, Some b => cons_fst (ascii_of_nat (a * 16 + b)) (p_str s5)
                      | _, _, _, _ => None
                      end
                  | _ => None
                  end
                else None
            end
        | EmptyString => None
        end
      else if nat_of_ascii c <? 32 then None
      else cons_fst c (p_str s')
  end.

Fixpoint p_digits (s : string) (acc : nat) (seen : bool) : option (nat * string) :=
  match s with
  | String c s' =>
      let n := nat_of_ascii c in
      if (48 <=? n) && (n <=? 57) then p_digits s' (acc * 10 + (n - 48)) true
      else if seen then Some (acc, s) else None
  | EmptyString => if seen then Some (acc, s) else None
  end.

Definition p_num (s : string) : option (jsval * string) :=
  let '(neg, s1) := match s with
                    | String c s' => if Ascii.eqb c "-"%char then (true, s') else (false, s)
                    | EmptyString => (false, s)
                    end in
  let r := match s1 with
           | String c s' => if Ascii.eqb c "0"%char then Some (0, s') else p_digits s1 0 false
           | EmptyString => None
           end in
  match r with
  | Some (n, rest) =>
      match rest with
      | String c _ =>
          if Ascii.eqb c "."%char || Ascii.eqb c "e"%char || Ascii.eqb c "E"%char then None
          else Some (JNum (if neg then Z.opp (Z.of_nat n) else Z.of_nat n), rest)
      | EmptyString => Some (JNum (if neg then Z.opp (Z.of_nat n) else Z.of_nat n), rest)
      end
  | None => None
  end.

Fixpoint obj_set (l : list (string * jsval)) (k : string) (v : jsval) : list (string * jsval) :=
  match l with
  | [] => [(k, v)]
  | (k', v') :: l' => if String.eqb k k' then (k, v) :: l' else (k', v') :: obj_set l' k v
  end.

Definition p_keyword (s : string) (w : string) (v : jsval) : option (jsval * string) :=
  if prefixb w s then Some (v, sdrop (String.length w) s) else None.

Fixpoint p_val (fuel : nat) (s : string) {struct fuel} : option (jsval * string) :=
  match fuel with
  | 0 => None
  | S f =>
      match skip_ws s with
      | EmptyString => None
      | String c s1 =>
          if Ascii.eqb c "{"%char then
            match skip_ws s1 with
            | String c2 s2 =>
                if Ascii.eqb c2 "}"%char then Some (JObj [], s2)
                else
                  (fix members (g : nat) (t : string) (acc : list (string * jsval)) {struct g}
                     : option (jsval * string) :=
                     match g with
                     | 0 => None
                     | S g' =>
                         match skip_ws t with
                         | String q t1 =>
                             if Ascii.eqb q dq then
                               match p_str t1 with
                               | Some (key, t2) =>
                                   match skip_ws t2 with
                                   | String col t3 =>
                                       if Ascii.eqb col ":"%char then
                                         match p_val f t3 with
                                         | Some (v, t4) =>
                                             let acc' := obj_set acc key v in
                                             match skip_ws t4 with
                                             | String d t5 =>
                                                 if Ascii.eqb d ","%char then members g' t5 acc'
                                                 else if Ascii.eqb d "}"%char then Some (JObj acc', t5)
                                                 else None
                                             | EmptyString => None
                                             end
                                         | None => None
                                         end
                                       else None
                                   | EmptyString => None
                                   end
                               | None => None
                               end
                             else None
                         | EmptyString => None
                         end
                     end) (S (String.length s1)) s1 []
            | EmptyString => None
            end
          else if Ascii.eqb c "["%char then
            match skip_ws s1 with
            | String c2 s2 =>
                if Ascii.eqb c2 "]"%char then Some (JArr [], s2)
                else
                  (fix elems (g : nat) (t : string) (acc : list jsval) {struct g}
                     : option (jsval * string) :=
                     match g with
                     | 0 => None
                     | S g' =>
                         match p_val f t with
                         | Some (v, t1) =>
                             match skip_ws t1 with
                             | String d t2 =>
                                 if Ascii.eqb d ","%char then elems g' t2 (app acc [v])
                                 else if Ascii.eqb d "]"%char then Some (JArr (app acc [v]), t2)
                                 else None
                             | EmptyString => None
                             end
                         | None => None
                         end
                     end) (S (String.length s1)) s1 []
            | EmptyString => None
            end
          else if Ascii.eqb c dq then
            match p_str s1 with
            | Some (w, rest) => Some (JStr w, rest)
            | None => None
            end
          else if Ascii.eqb c "t"%char then p_keyword (String c s1) "true" (JBool true)
          else if Ascii.eqb c "f"%char then p_keyword (String c s1) "false" (JBool false)
          else if Ascii.eqb c "n"%char then p_keyword (String c s1) "null" JNull
          else p_num (String c s1)
      end
  end.

Definition JSON_parse (s : string) : option jsval :=
  match p_val (S (String.length s)) s with
  | Some (v, rest) => match skip_ws rest with EmptyString => Some v | _ => None end
  | None => None
  end.

(** A compact [JSON.stringify] for running examples. *)
Fixpoint JSON_stringify (v : jsval) : string :=
  let q (s : string) := String dq (s ++ String dq EmptyString) in
  match v with
  | JUndefined | JNull => "null"
  | JBool true => "true"
  | JBool false => "false"
  | JNum n => Z_to_string n
  | JStr s => q s
  | JArr l => "[" ++ join_with "," (map JSON_stringify l) ++ "]"
  | JObj l =>
      "{" ++ join_with "," (map (fun e => q (fst e) ++ ":" ++ JSON_stringify (snd e)) l) ++ "}"
  end.

(* ================================================================== *)
(** ** Tool-call decoding ([PromptBasedAgent.tryParseToolCallJson] and
    [PromptBasedAgent.parseToolCall]) *)

(** The decoded call [{ name, arguments }]. *)
Definition decoded_call := (string * jsval)%type.

(** The body of the [try] after [JSON.parse]: reading [json.name] and
    [json.arguments] throws on [null]. *)
Definition call_of_json (json : jsval) : js_exn + option decoded_call :=
  match js_get json "name" with
  | inl e => inl e
  | inr nm =>
      if js_truthy nm then
        match nm with
        | JStr n =>
            match js_get json "arguments" with
            | inl e => inl e
            | inr a => inr (Some (n, if js_truthy a then a else JObj []))
            end
        | _ => inr None
        end
      else inr None
  end.

Section Decoder.
(** [JSON.parse]; [None] is a thrown [SyntaxError]. *)
Variable json_parse : string -> option jsval.

Definition parse_attempt (s : string) : js_exn + option decoded_call :=
  match json_parse s with
  | None => inl SyntaxError
  | Some json => call_of_json json
  end.

Definition tryParseToolCallJson (jsonStr : string) : option decoded_call :=
  match parse_attempt (trim jsonStr) with
  | inr r => r
  | inl _ =>
      let fixed := replace_single_quotes jsonStr in
      match parse_attempt fixed with
      | inr r => r
      | inl _ => None
      end
  end.

(** [/<tool_call>\s*([\s\S]*?)\s*<\/tool_call>/i] *)
Definition tool_call_tag_re : re :=
  seqs [lit_i "<tool_call>"; star ws; RGroup 1 (lazy_star anyc); star ws; lit_i "</tool_call>"].

(** [/```(?:json)?\s*\n?\s*(\{[\s\S]*?\})\s*\n?\s*```/i] *)
Definition code_block_call_re : re :=
  seqs [lit_i "```"; opt (lit_i "json"); star ws; opt (chr_i nl); star ws;
        RGroup 1 (seqs [chr_i "{"; lazy_star anyc; chr_i "}"]);
        star ws; opt (chr_i nl); star ws; lit_i "```"].

(** [/\{\s*'name'\s*:\s*'[^']+'\s*,\s*'arguments'\s*:\s*\{[\s\S]*?\}\s*\}/i], each
    ' standing for a double quote. *)
Definition bare_call_re : re :=
  seqs [chr_i "{"; star ws; lit_i (jstr "'name'"); star ws; chr_i ":"; star ws;
        chr_i dq; plus (none_of [dq]); chr_i dq; star ws; chr_i ","; star ws;
        lit_i (jstr "'arguments'"); star ws; chr_i ":"; star ws;
        chr_i "{"; lazy_star anyc; chr_i "}"; star ws; chr_i "}"].

Definition group_or_empty (s : string) (m : nat * nat * caps) (n : nat) : string :=
  match match_group s m n with Some g => g | None => EmptyString end.

Definition parseToolCall (text : string) : option decoded_call :=
  let step3 :=
    match regex_exec bare_call_re text with
    | Some m => tryParseToolCallJson (match_str text m)
    | None => None
    end in
  let step2 :=
    match regex_exec code_block_call_re text with
    | Some m =>
        match tryParseToolCallJson (group_or_empty text m 1) with
        | Some r => Some r
        | None => step3
        end
    | None => step3
    end in
  match regex_exec tool_call_tag_re text with
  | Some m =>
      match tryParseToolCallJson (group_or_empty text m 1) with
      | Some r => Some r
      | None => step2
      end
  | None => step2
  end.

(* ================================================================== *)
(** ** Immediate results ([Agent.matchImmediateResult]) *)

(** An [ImmediateResultMatcher]: a partial object, as its entries. *)
Definition matcher := list (string * jsval).

Definition matchImmediateResult (matchers : list matcher) (result : jsval) : bool :=
  match matchers with
  | [] => false
  | _ =>
      let resultObj :=
        match result with
        | JStr s =>
            match json_parse s with
            | Some parsed => if is_object parsed then Some parsed else None
            | None => None
            end
        | _ => if is_object result then Some result else None
        end in
      match resultObj with
      | None => false
      | Some o =>
          existsb (fun m => forallb (fun kv => strict_eq (get_prop o (fst kv)) (snd kv)) m)
                  matchers
      end
  end.

(** [Agent.summarizeToolResult] (used by the thinking phase). *)
Definition summarizeToolResult (toolName : string) (result : jsval) : string :=
  let plain := "[工具 " ++ toolName ++ " 返回了数据]" in
  let counted (resultObj : jsval) :=
    let count :=
      match resultObj with
      | JArr l => List.length l
      | JObj _ =>
          match find (fun k => match get_prop resultObj k with JArr _ => true | _ => false end)
                     ["data"; "list"; "items"; "records"; "results"] with
          | Some k => match get_prop resultObj k with JArr l => List.length l | _ => 0 end
          | None => 0
          end
      | _ => 0
      end in
    if 0 <? count
    then "[工具 " ++ toolName ++ " 返回了数据，包含 " ++ nat_to_string count ++ " 条记录]"
    else plain in
  match result with
  | JStr s =>
      match json_parse s with
      | None => plain
      | Some parsed => counted parsed
      end
  | _ => counted result
  end.

End Decoder.

(* ================================================================== *)
(** ** Mode selection ([detectNativeToolSupport], [MCPLink] constructor) *)

Definition anchored (s : string) : re := RSeq RBol (lit_i s).

(** [PROMPT_BASED_PATTERNS] *)
Definition PROMPT_BASED_PATTERNS : list re :=
  [lit_i "deepseek"; anchored "gpt"; anchored "gemini"; anchored "mistral";
   anchored "llama"; anchored "phi-"; anchored "qwen"; anchored "mixtral";
   anchored "command-r"].

(** [NATIVE_REASONING_PATTERNS] *)
Definition NATIVE_REASONING_PATTERNS : list re :=
  [anchored "claude-3"; anchored "claude-2"; anchored "o1"; anchored "o3"].

(** [true]: the native [Agent]; [false]: the [PromptBasedAgent]. *)
Definition detectNativeToolSupport (modelId : string) : bool :=
  if existsb (fun p => regex_test p modelId) PROMPT_BASED_PATTERNS then false
  else if existsb (fun p => regex_test p modelId) NATIVE_REASONING_PATTERNS then true
  else false.

(** [usePromptBasedTools?: boolean | 'auto'] *)
Inductive prompt_based_setting : Type := PBTrue | PBFalse | PBAuto | PBUnset.

Record link_config := {
  cfg_modelName : option string;
  cfg_modelId : string;
  cfg_usePromptBasedTools : prompt_based_setting
}.

(** [config.modelName || config.model.modelId] *)
Definition modelNameToCheck (config : link_config) : string :=
  match cfg_modelName config with
  | Some n => if String.eqb n "" then cfg_modelId config else n
  | None => cfg_modelId config
  end.

(** [this.detectedNativeSupport] as set by the [MCPLink] constructor. *)
Definition detectedNativeSupport (config : link_config) : bool :=
  match cfg_usePromptBasedTools config with
  | PBTrue => false
  | PBFalse => true
  | PBAuto | PBUnset => detectNativeToolSupport (modelNameToCheck config)
  end.

(* ================================================================== *)
(** ** [maxIterations], a JavaScript [number] *)

(** [maxIterations] is a finite [number], a rational (every finite double
    is one): it can be negative or fractional.  [NaN], which [|| 10] turns
    into [10] as it does [0], and the infinities are not represented. *)

(** [options.maxIterations || 10]: [0] and [-0] are falsy. *)
Definition or_10 (o : option Q) : Q :=
  match o with
  | Some q => if Qeq_bool q 0 then 10%Q else q
  | None => 10%Q
  end.

(** [iteration < this.maxIterations] *)
Definition num_lt (i : nat) (m : Q) : bool := negb (Qle_bool m (inject_Z (Z.of_nat i))).

(** The naturals below [m]: a bound on the passes of
    [while (iteration < m) { iteration++; ... }] from [iteration = 0]. *)
Definition passes (m : Q) : nat := Z.to_nat (Qceiling m).

(* ================================================================== *)
(** ** Events and model stream chunks *)

(** [MCPLinkEvent] without its timestamp; [duration] fields are left out. *)
Inductive event : Type :=
| EvThinkingStart
| EvThinkingDelta (content : string)
| EvThinkingEnd
| EvTextStart
| EvTextDelta (content : string)
| EvTextEnd
| EvToolCallStart (toolName toolCallId : string) (toolArgs : option jsval)
| EvToolCallDelta (toolCallId argsTextDelta : string)
| EvToolExecuting (toolName toolCallId : string) (toolArgs : jsval)
| EvToolResult (toolName : string) (toolResult : jsval) (toolCallId : string) (isError : bool)
| EvImmediateResult (toolName toolCallId : string) (immediateResult : jsval)
| EvIterationStart (iteration : nat) (maxIterations : Q)
| EvIterationEnd (iteration : nat)
| EvComplete (totalIterations : nat)
| EvError (error : string)
| EvTodoStart (todoId todoTitle : string)
| EvTodoItemAdd (todoId todoItemId todoItemContent todoItemStatus : string)
| EvTodoItemUpdate (todoId todoItemId todoItemStatus : string) (todoItemResult : option string).

(** The parts of [streamText(...).fullStream] that the code inspects. *)
Inductive chunk : Type :=
| CReasoning (textDelta : string)
| CTextDelta (textDelta : string)
| CToolCall (toolCallId toolName : string) (args : jsval)
| CToolCallStreamingStart (toolCallId toolName : string)
| CToolCallDelta (toolCallId argsTextDelta : string)
| CFinish
| CError (error : string)
| COther.

(* ================================================================== *)
(** ** [PromptBasedAgent]: the tag parser of one model stream
    ([chatStream], the [for await] loop over [stream.fullStream]) *)

(** [/<tool_result[^>]*>[\s\S]*?<\/tool_result>/i] *)
Definition fake_tool_result_re : re :=
  seqs [lit_i "<tool_result"; star (none_of [">"%char]); chr_i ">"; lazy_star anyc;
        lit_i "</tool_result>"].

(** [/(?:^|\n)\s*\{\s*\n?\s*'name'/], the quotes being double quotes. *)
Definition bare_json_marker_re : re :=
  seqs [RAlt RBol (chr nl); star ws; chr "{"; star ws; opt (chr nl); star ws; lit (jstr "'name'")].

(** [/^json\s*\n/] and [/^\s*\n?\s*\{/] *)
Definition code_json_re1 : re := seqs [RBol; lit "json"; star ws; chr nl].
Definition code_json_re2 : re := seqs [RBol; star ws; opt (chr nl); star ws; chr "{"].

(** [/<todo\s+title=[Q]([^Q]+)[Q]>([\s\S]*?)<\/todo>/i], where [Q] stands for the
    class of the two quote characters. *)
Definition todo_list_re : re :=
  seqs [lit_i "<todo"; plus ws; lit_i "title="; quote_cls; RGroup 1 (plus not_quote); quote_cls;
        chr_i ">"; RGroup 2 (lazy_star anyc); lit_i "</todo>"].

(** [/<todo_update\s+id=[Q]([^Q]+)[Q]\s+status=[Q]([^Q]+)[Q]
      (?:\s+result=[Q](R)[Q])?\s*\/?>/i], with [Q] as above and [R] the
    group of zero or more non-quote characters. *)
Definition todo_update_re : re :=
  seqs [lit_i "<todo_update"; plus ws; lit_i "id="; quote_cls; RGroup 1 (plus not_quote); quote_cls;
        plus ws; lit_i "status="; quote_cls; RGroup 2 (plus not_quote); quote_cls;
        opt (seqs [plus ws; lit_i "result="; quote_cls; RGroup 3 (star not_quote); quote_cls]);
        star ws; opt (chr_i "/"); chr_i ">"].

(** [/^[-*]\s*/], [/^\d+\.\s*/] and [/^\d+\./] *)
Definition bullet_prefix_re : re := seqs [RBol; one_of ["-"%char; "*"%char]; star ws].
Definition number_prefix_re : re := seqs [RBol; plus digit; chr "."; star ws].
Definition number_test_re : re := seqs [RBol; plus digit; chr "."].

Definition parseTodoList (text : string) : option (string * list string) :=
  match regex_exec todo_list_re text with
  | None => None
  | Some m =>
      let title := group_or_empty text m 1 in
      let content := group_or_empty text m 2 in
      let items :=
        fold_left
          (fun acc line =>
             let trimmed := trim line in
             if startsWith trimmed "-" || startsWith trimmed "*" || regex_test number_test_re trimmed
             then
               let item := trim (regex_replace_first number_prefix_re
                                   (regex_replace_first bullet_prefix_re trimmed "") "") in
               if String.eqb item "" then acc else app acc [item]
             else acc)
          (split_char nl content) [] in
      match items with [] => None | _ => Some (title, items) end
  end.

Definition parseTodoUpdate (text : string) : option (string * string * option string) :=
  match regex_exec todo_update_re text with
  | None => None
  | Some m => Some (group_or_empty text m 1, group_or_empty text m 2, match_group text m 3)
  end.

Inductive parse_state : Type := PNormal | PThink | PToolCall | PTodo.

(** The local variables of one iteration of the loop. *)
Record pb_state := mk_pb {
  fullResponse : string;
  hasStartedThinking : bool;
  hasEndedThinking : bool;
  hasStartedText : bool;
  hasNativeReasoning : bool;
  isFirstTextChunk : bool;
  buffer : string;
  parseState : parse_state;
  currentTodoId : option string;
  todoItemCounter : nat;
  hasTodoCreated : bool
}.

Definition pb_init : pb_state := mk_pb "" false false false false true "" PNormal None 0 false.

Definition with_buffer (st : pb_state) (b : string) : pb_state :=
  mk_pb (fullResponse st) (hasStartedThinking st) (hasEndedThinking st) (hasStartedText st)
    (hasNativeReasoning st) (isFirstTextChunk st) b (parseState st) (currentTodoId st)
    (todoItemCounter st) (hasTodoCreated st).
Definition with_parseState (st : pb_state) (p : parse_state) : pb_state :=
  mk_pb (fullResponse st) (hasStartedThinking st) (hasEndedThinking st) (hasStartedText st)
    (hasNativeReasoning st) (isFirstTextChunk st) (buffer st) p (currentTodoId st)
    (todoItemCounter st) (hasTodoCreated st).
Definition with_startedThinking (st : pb_state) : pb_state :=
  mk_pb (fullResponse st) true (hasEndedThinking st) (hasStartedText st)
    (hasNativeReasoning st) (isFirstTextChunk st) (buffer st) (parseState st) (currentTodoId st)
    (todoItemCounter st) (hasTodoCreated st).
Definition with_endedThinking (st : pb_state) : pb_state :=
  mk_pb (fullResponse st) (hasStartedThinking st) true (hasStartedText st)
    (hasNativeReasoning st) (isFirstTextChunk st) (buffer st) (parseState st) (currentTodoId st)
    (todoItemCounter st) (hasTodoCreated st).
Definition with_startedText (st : pb_state) : pb_state :=
  mk_pb (fullResponse st) (hasStartedThinking st) (hasEndedThinking st) true
    (hasNativeReasoning st) (isFirstTextChunk st) (buffer st) (parseState st) (currentTodoId st)
    (todoItemCounter st) (hasTodoCreated st).
Definition with_nativeReasoning (st : pb_state) : pb_state :=
  mk_pb (fullResponse st) (hasStartedThinking st) (hasEndedThinking st) (hasStartedText st)
    true (isFirstTextChunk st) (buffer st) (parseState st) (currentTodoId st)
    (todoItemCounter st) (hasTodoCreated st).
Definition with_firstTextChunkSeen (st : pb_state) : pb_state :=
  mk_pb (fullResponse st) (hasStartedThinking st) (hasEndedThinking st) (hasStartedText st)
    (hasNativeReasoning st) false (buffer st) (parseState st) (currentTodoId st)
    (todoItemCounter st) (hasTodoCreated st).
Definition with_text (st : pb_state) (d : string) : pb_state :=
  mk_pb (fullResponse st ++ d) (hasStartedThinking st) (hasEndedThinking st) (hasStartedText st)
    (hasNativeReasoning st) (isFirstTextChunk st) (buffer st ++ d) (parseState st)
    (currentTodoId st) (todoItemCounter st) (hasTodoCreated st).
Definition with_todo (st : pb_state) (tid : string) (counter : nat) : pb_state :=
  mk_pb (fullResponse st) (hasStartedThinking st) (hasEndedThinking st) (hasStartedText st)
    (hasNativeReasoning st) (isFirstTextChunk st) (buffer st) (parseState st) (Some tid)
    counter true.

(** [TEXT_START] on first use, then [TEXT_DELTA]. *)
Definition emit_text (st : pb_state) (s : string) : pb_state * list event :=
  if hasStartedText st then (st, [EvTextDelta s])
  else (with_startedText st, [EvTextStart; EvTextDelta s]).

Inductive marker : Type := MThink | MToolCall | MCodeBlock | MJson | MTodo | MTodoUpdate.

(** [markers.sort((a, b) => a.pos - b.pos)]: a stable insertion sort. *)
Fixpoint insert_marker (x : marker * nat) (l : list (marker * nat)) : list (marker * nat) :=
  match l with
  | [] => [x]
  | y :: l' => if snd y <=? snd x then y :: insert_marker x l' else x :: l
  end.

Definition sort_markers (l : list (marker * nat)) : list (marker * nat) :=
  fold_left (fun acc x => insert_marker x acc) l [].

(** One pass of the [while (processed && buffer.length > 0)] body in the
    [normal] state; the boolean is the new value of [processed]. *)
Definition pb_normal_step (st : pb_state) : pb_state * list event * bool :=
  let buf := buffer st in
  match regex_exec fake_tool_result_re buf with
  | Some m => (with_buffer st (replace_first buf (match_str buf m) ""), [], true)
  | None =>
    let jsonStart := match regex_exec bare_json_marker_re buf with
                     | Some m => indexOf buf (match_str buf m)
                     | None => None
                     end in
    let cands := [(MThink, indexOf buf "<think>"); (MToolCall, indexOf buf "<tool_call>");
                  (MCodeBlock, indexOf buf "```"); (MJson, jsonStart);
                  (MTodo, indexOf buf "<todo "); (MTodoUpdate, indexOf buf "<todo_update ")] in
    let markers := flat_map (fun c => match snd c with Some q => [(fst c, q)] | None => [] end) cands in
    match sort_markers markers with
    | (ty, pos) :: _ =>
      let '(st1, ev1) :=
        if (0 <? pos) && nonblank (stake pos buf) && hasEndedThinking st
        then emit_text st (stake pos buf) else (st, []) in
      let '(st2, ev2, processed) :=
        match ty with
        | MThink =>
            let st' := with_parseState st1 PThink in
            let '(st'', e) := if hasStartedThinking st' then (st', [])
                              else (with_startedThinking st', [EvThinkingStart]) in
            (with_buffer st'' (sdrop (pos + 7) buf), e, true)
        | MToolCall => (with_buffer (with_parseState st1 PToolCall) (sdrop (pos + 11) buf), [], true)
        | MCodeBlock =>
            let afterBlock := sdrop (pos + 3) buf in
            if regex_test code_json_re1 afterBlock || regex_test code_json_re2 afterBlock
            then (with_buffer (with_parseState st1 PToolCall) (sdrop pos buf), [], true)
            else (with_buffer st1 (sdrop pos buf), [], false)
        | MJson =>
            let b' := match indexOf_from buf "{" pos with Some a => sdrop a buf | None => buf end in
            (with_buffer (with_parseState st1 PToolCall) b', [], true)
        | MTodo => (with_buffer (with_parseState st1 PTodo) (sdrop pos buf), [], true)
        | MTodoUpdate =>
            let endPos := match indexOf_from buf "/>" pos with
                          | Some e => Some (e + 2)
                          | None => match indexOf_from buf ">" pos with
                                    | Some e => Some (e + 1) | None => None end
                          end in
            match endPos with
            | Some e =>
                let ev := match parseTodoUpdate (js_substring buf pos e), currentTodoId st1 with
                          | Some (id, status, res), Some tid => [EvTodoItemUpdate tid id status res]
                          | _, _ => []
                          end in
                (with_buffer st1 (sdrop e buf), ev, true)
            | None => (st1, [], false)
            end
        end in
      (st2, app ev1 ev2, processed)
    | [] =>
      if negb (includes buf "<") && negb (includes buf "`") && negb (includes buf "{") then
        if nonblank buf && hasEndedThinking st then
          let '(st', e) := emit_text st buf in (with_buffer st' "", e, true)
        else if negb (hasEndedThinking st) && negb (hasStartedThinking st) && isFirstTextChunk st
        then (st, [], false)
        else (with_buffer st "", [], true)
      else (st, [], false)
    end
  end.

Definition pb_think_step (st : pb_state) : pb_state * list event * bool :=
  let buf := buffer st in
  match indexOf buf "</think>" with
  | Some thinkEnd =>
      let content := stake thinkEnd buf in
      let e1 := if String.eqb content "" then [] else [EvThinkingDelta content] in
      (with_buffer (with_parseState (with_endedThinking st) PNormal) (sdrop (thinkEnd + 8) buf),
       app e1 [EvThinkingEnd], true)
  | None =>
      let safeLength := String.length buf - 10 in
      if 0 <? safeLength
      then (with_buffer st (sdrop safeLength buf), [EvThinkingDelta (stake safeLength buf)], true)
      else (st, [], false)
  end.

(** [TODO_ITEM_ADD] for the items, numbered from [n + 1]. *)
Fixpoint todo_item_adds (tid : string) (n : nat) (items : list string) : list event :=
  match items with
  | [] => []
  | it :: items' => EvTodoItemAdd tid (nat_to_string (S n)) it "pending" :: todo_item_adds tid (S n) items'
  end.

(** [now] is the value of [Date.now()]. *)
Definition pb_todo_step (now : nat) (st : pb_state) : pb_state * list event * bool :=
  let buf := buffer st in
  match indexOf buf "</todo>" with
  | Some todoEnd =>
      let '(st1, evs) :=
        match parseTodoList (stake (todoEnd + 7) buf) with
        | Some (title, items) =>
            if hasTodoCreated st then (st, [])
            else let tid := "todo-" ++ nat_to_string now in
                 (with_todo st tid (length items), EvTodoStart tid title :: todo_item_adds tid 0 items)
        | None => (st, [])
        end in
      (with_buffer (with_parseState st1 PNormal) (sdrop (todoEnd + 7) buf), evs, true)
  | None => (st, [], false)
  end.

(** The brace-counting loop: index of the [}] that brings the count to 0. *)
Fixpoint brace_end (s : string) (i : nat) (count : Z) : option nat :=
  match s with
  | EmptyString => None
  | String c s' =>
      if Ascii.eqb c "{" then brace_end s' (S i) (count + 1)
      else if Ascii.eqb c "}" then
        (if Z.eqb (count - 1) 0 then Some i else brace_end s' (S i) (count - 1))
      else brace_end s' (S i) count
  end.

Definition pb_toolcall_step (st : pb_state) : pb_state * list event * bool :=
  let buf := buffer st in
  let back_to_normal k := (with_buffer (with_parseState st PNormal) (sdrop k buf), @nil event, true) in
  match indexOf buf "</tool_call>" with
  | Some toolEnd => back_to_normal (toolEnd + 12)
  | None =>
    match (if startsWith buf "```" then indexOf_from buf "```" 3 else None) with
    | Some codeEnd => back_to_normal (codeEnd + 3)
    | None =>
      match (if startsWith buf "{" then brace_end buf 0 0 else None) with
      | Some jsonEnd => back_to_normal (jsonEnd + 1)
      | None => (st, [], false)
      end
    end
  end.

Definition pb_body (now : nat) (st : pb_state) : pb_state * list event * bool :=
  match parseState st with
  | PNormal => pb_normal_step st
  | PThink => pb_think_step st
  | PTodo => pb_todo_step now st
  | PToolCall => pb_toolcall_step st
  end.

(** The [while] loop. Every pass with [processed] either shortens the
    buffer or moves from [normal] to another state without shortening it,
    and no state but [normal] keeps the buffer when it succeeds, so
    [2 * length + 2] passes always reach the loop's own exit. *)
Fixpoint pb_drain (now fuel : nat) (st : pb_state) : pb_state * list event :=
  match fuel with
  | 0 => (st, [])
  | S f =>
      if Nat.eqb (String.length (buffer st)) 0 then (st, [])
      else let '(st1, e1, processed) := pb_body now st in
           if processed then let '(st2, e2) := pb_drain now f st1 in (st2, app e1 e2)
           else (st1, e1)
  end.

(** A [text-delta] chunk up to the [while] loop: the end of native
    reasoning, the buffers, and the check of the first text. *)
Definition pb_prepare (st : pb_state) (d : string) : pb_state * list event :=
  let '(st0, e0) := if hasNativeReasoning st && negb (hasEndedThinking st)
                    then (with_endedThinking st, [EvThinkingEnd]) else (st, []) in
  let st1 := with_text st0 d in
  let st2 :=
    if isFirstTextChunk st1 && negb (hasStartedThinking st1) && negb (hasEndedThinking st1) then
      let tb := trimStart (buffer st1) in
      if 7 <=? String.length tb then
        if negb (startsWith tb "<think>") && negb (startsWith tb "<think ")
        then with_endedThinking (with_firstTextChunkSeen st1)
        else with_firstTextChunkSeen st1
      else st1
    else st1 in
  (st2, e0).

Definition drain_fuel (st : pb_state) : nat := 2 * String.length (buffer st) + 2.

Definition pb_text_delta (now : nat) (st : pb_state) (d : string) : pb_state * list event :=
  let '(st2, e0) := pb_prepare st d in
  let '(st3, e3) := pb_drain now (drain_fuel st2) st2 in
  (st3, app e0 e3).

Definition pb_reasoning (st : pb_state) (d : string) : pb_state * list event :=
  let st1 := with_nativeReasoning st in
  let '(st2, e) := if hasStartedThinking st1 then (st1, [])
                   else (with_startedThinking st1, [EvThinkingStart]) in
  (st2, app e (if String.eqb d "" then [] else [EvThinkingDelta d])).

Definition pb_finish (st : pb_state) : pb_state * list event :=
  let buf := buffer st in
  let '(st1, e1) :=
    if nonblank buf then
      match parseState st with
      | PThink => (st, [EvThinkingDelta buf; EvThinkingEnd])
      | PNormal => if hasEndedThinking st then emit_text st buf else (st, [])
      | _ => (st, [])
      end
    else (st, []) in
  (st1, app e1 (if hasStartedText st1 then [EvTextEnd] else [])).

Definition pb_chunk (now : nat) (st : pb_state) (c : chunk) : pb_state * list event :=
  match c with
  | CReasoning d => pb_reasoning st d
  | CTextDelta d => pb_text_delta now st d
  | CFinish => pb_finish st
  | _ => (st, [])
  end.

Fixpoint pb_stream (now : nat) (st : pb_state) (cs : list chunk) : pb_state * list event :=
  match cs with
  | [] => (st, [])
  | c :: cs' =>
      let '(st1, e1) := pb_chunk now st c in
      let '(st2, e2) := pb_stream now st1 cs' in
      (st2, app e1 e2)
  end.

Definition pb_text_chunks (fs : list string) : list chunk := app (map CTextDelta fs) [CFinish].

(* ================================================================== *)
(** ** Conversation messages and model requests *)

(** An entry of [toolCalls]. *)
Record tool_call := mk_call { tc_id : string; tc_name : string; tc_args : jsval }.

(** [CoreMessage], as far as the two agents build them.  A user message is
    its text (multimodal parts are left out). *)
Inductive message : Type :=
| MSystem (content : string)
| MUser (content : string)
| MAssistant (content : string)
| MAssistantParts (text : option string) (calls : list tool_call)
| MTool (toolCallId toolName : string) (result : jsval).

(** The two uses of [streamText] in [Agent.chatStream]: the thinking phase
    (no tools) and the main call. *)
Inductive stream_request : Type :=
| ThinkingRequest (messages : list message)
| MainRequest (messages : list message) (withTools : bool).

(** [messages.push] of [options.history]. *)
Definition history_message (m : string * string) : message :=
  if String.eqb (fst m) "assistant" then MAssistant (snd m) else MUser (snd m).

(** [mcpTools.filter(...)] on the names of the tools, when [allowedTools]
    is given and non-empty. *)
Definition filter_tools (allowedTools : option (list string)) (mcpTools : list string) : list string :=
  match allowedTools with
  | Some ((_ :: _) as allowed) => filter (fun t => existsb (String.eqb t) allowed) mcpTools
  | _ => mcpTools
  end.

(** [Promise.all]: the promises settle in the order [order] (indices into
    the array) and each value is stored at its own index; the promise only
    resolves when every index has been filled. *)
Fixpoint list_set {A} (l : list A) (i : nat) (x : A) : list A :=
  match l, i with
  | [], _ => []
  | _ :: l', 0 => x :: l'
  | y :: l', S i' => y :: list_set l' i' x
  end.

Fixpoint all_settled {A} (slots : list (option A)) : option (list A) :=
  match slots with
  | [] => Some []
  | None :: _ => None
  | Some x :: slots' => match all_settled slots' with Some xs => Some (x :: xs) | None => None end
  end.

Definition promise_all {A} (order : list nat) (values : list A) : option (list A) :=
  all_settled (fold_left (fun slots i => list_set slots i (nth_error values i))
                         order (map (fun _ => None) values)).

Module Agent.

(** The fields of an [Agent] after its constructor. *)
Record agent := mk_agent {
  systemPrompt : string;
  maxIterations : Q;
  immediateResultMatchers : list matcher;
  parallelToolCalls : bool;
  enableThinkingPhase : bool;
  (** the [thinkingSystemPrompt] template, filled in *)
  thinkingSystemPrompt : string
}.

(** The constructor's [options]: [maxIterations || 10],
    [immediateResultMatchers || []], [parallelToolCalls ?? true],
    [enableThinkingPhase ?? false]. *)
Record agent_options := mk_options {
  o_maxIterations : option Q;
  o_immediateResultMatchers : option (list matcher);
  o_parallelToolCalls : option bool;
  o_enableThinkingPhase : option bool
}.

Definition new_Agent (sp tsp : string) (o : agent_options) : agent :=
  mk_agent sp
    (or_10 (o_maxIterations o))
    (match o_immediateResultMatchers o with Some m => m | None => [] end)
    (match o_parallelToolCalls o with Some b => b | None => true end)
    (match o_enableThinkingPhase o with Some b => b | None => false end)
    tsp.

(** The local variables of the main stream of one iteration; [reasoningText]
    and [thinkBuffer] are only written, never read, and are left out. *)
Record it_state := mk_it {
  fullText : string;
  toolCalls : list tool_call;
  currentToolCall : option (string * string * string);
  hasStartedText : bool;
  hasStartedReasoning : bool;
  sentToolCallStarts : list string;
  isInsideThinkTag : bool;
  textBuffer : string
}.

Definition it_init : it_state := mk_it "" [] None false false [] false "".

Definition think_open_re : re := lit_i "<think>".
Definition think_close_re : re := lit_i "</think>".

Definition on_text_delta (st : it_state) (delta : string) : it_state * list event :=
  let '(mk_it ft tcs cur hst hsr sent inside tb0) := st in
  let tb := tb0 ++ delta in
  if negb inside then
    match regex_exec think_open_re tb with
    | Some (idx, _, _) =>
        let before := stake idx tb in
        let '(hst1, ft1, e1) :=
          if nonblank before
          then (true, ft ++ before, app (if hst then [] else [EvTextStart]) [EvTextDelta before])
          else (hst, ft, []) in
        let e2 := if hsr then [] else [EvThinkingStart] in
        (mk_it ft1 tcs cur hst1 true sent true (sdrop (idx + 7) tb), app e1 e2)
    | None =>
        if negb (includes tb "<") then
          let e1 := if hsr && negb hst then [EvThinkingEnd] else [] in
          let e2 := if hst then [] else [EvTextStart] in
          (mk_it (ft ++ tb) tcs cur true hsr sent inside "", app e1 (app e2 [EvTextDelta tb]))
        else (mk_it ft tcs cur hst hsr sent inside tb, [])
    end
  else
    match regex_exec think_close_re tb with
    | Some (idx, _, _) =>
        let content := stake idx tb in
        let e1 := if String.eqb content "" then [] else [EvThinkingDelta content] in
        (mk_it ft tcs cur hst hsr sent false (sdrop (idx + 8) tb), app e1 [EvThinkingEnd])
    | None =>
        if negb (includes tb "<")
        then (mk_it ft tcs cur hst hsr sent inside "", [EvThinkingDelta tb])
        else (mk_it ft tcs cur hst hsr sent inside tb, [])
    end.

Definition on_finish (st : it_state) : it_state * list event :=
  let '(mk_it ft tcs cur hst hsr sent inside tb) := st in
  let '(ft1, hst1, e1) :=
    if String.eqb tb "" then (ft, hst, [])
    else if inside then (ft, hst, [EvThinkingDelta tb])
    else (ft ++ tb, true, app (if hst then [] else [EvTextStart]) [EvTextDelta tb]) in
  let '(inside1, e2) := if inside || (hsr && negb hst1) then (false, [EvThinkingEnd])
                        else (inside, []) in
  (mk_it ft1 tcs cur hst1 hsr sent inside1 "", app e1 (app e2 (if hst1 then [EvTextEnd] else []))).

(** The [switch (chunk.type)] of the main stream. *)
Definition on_chunk (st : it_state) (c : chunk) : it_state * list event :=
  let '(mk_it ft tcs cur hst hsr sent inside tb) := st in
  match c with
  | CReasoning d =>
      (mk_it ft tcs cur hst true sent inside tb,
       app (if hsr then [] else [EvThinkingStart]) [EvThinkingDelta d])
  | CTextDelta d => on_text_delta st d
  | CToolCall id name args =>
      if existsb (String.eqb id) sent then (st, [])
      else (mk_it ft (app tcs [mk_call id name args]) cur hst hsr (id :: sent) inside tb,
            [EvToolCallStart name id (Some args)])
  | CToolCallStreamingStart id name =>
      if existsb (String.eqb id) sent
      then (mk_it ft tcs (Some (id, name, "")) hst hsr sent inside tb, [])
      else (mk_it ft tcs (Some (id, name, "")) hst hsr (id :: sent) inside tb,
            [EvToolCallStart name id None])
  | CToolCallDelta _ d =>
      match cur with
      | Some (cid, cname, argsText) =>
          (mk_it ft tcs (Some (cid, cname, argsText ++ d)) hst hsr sent inside tb,
           [EvToolCallDelta cid d])
      | None => (st, [])
      end
  | CFinish => on_finish st
  | CError e => (st, [EvError e])
  | COther => (st, [])
  end.

Fixpoint run_stream (st : it_state) (cs : list chunk) : it_state * list event :=
  match cs with
  | [] => (st, [])
  | c :: cs' =>
      let '(st1, e1) := on_chunk st c in
      let '(st2, e2) := run_stream st1 cs' in
      (st2, app e1 e2)
  end.

Section Turn.
Variable json_parse : string -> option jsval.
(** [streamText(...).fullStream] for a request. *)
Variable stream_text : stream_request -> list chunk.
(** [mcpManager.callTool(name, args)]: settles with a value or rejects. *)
Variable call_tool : string -> jsval -> outcome.
(** The order in which the parallel calls of an iteration settle, given
    the iteration and the number of calls. *)
Variable settle_order : nat -> nat -> list nat.

(** [messages.slice(1).map(...)] of the thinking phase. *)
Definition summarize_message (m : message) : message :=
  match m with
  | MTool id name r => MTool id name (JStr (summarizeToolResult json_parse name r))
  | _ => m
  end.

Definition thinking_messages (a : agent) (messages : list message) : list message :=
  MSystem (thinkingSystemPrompt a) :: map summarize_message (tl messages).

(** The thinking stream: [THINKING_DELTA] per text delta, and [thinkingContent]. *)
Fixpoint thinking_deltas (cs : list chunk) : string * list event :=
  match cs with
  | [] => ("", [])
  | CTextDelta d :: cs' => let '(c, e) := thinking_deltas cs' in (d ++ c, EvThinkingDelta d :: e)
  | _ :: cs' => thinking_deltas cs'
  end.

(** One call with its [try]/[catch]: the result and [isError]. *)
Definition exec_call (tc : tool_call) : tool_call * jsval * bool :=
  match call_tool (tc_name tc) (tc_args tc) with
  | Returned v => (tc, v, false)
  | Threw e => (tc, JStr (error_message e), true)
  end.

(** [TOOL_RESULT] per result, each followed by [IMMEDIATE_RESULT] when it
    is not an error and matches; the boolean is [hasImmediateResult]. *)
Fixpoint emit_results (matchers : list matcher) (rs : list (tool_call * jsval * bool))
  : list event * bool :=
  match rs with
  | [] => ([], false)
  | (tc, v, isError) :: rs' =>
      let imm := negb isError && matchImmediateResult json_parse matchers v in
      let '(evs, h) := emit_results matchers rs' in
      (EvToolResult (tc_name tc) v (tc_id tc) isError
         :: app (if imm then [EvImmediateResult (tc_name tc) (tc_id tc) v] else []) evs,
       imm || h)
  end.

(** How an iteration leaves the loop: [continue] with the new messages,
    [break], or waiting for ever on a [Promise.all] that never resolves. *)
Inductive iter_end : Type := Continue (messages : list message) | Break | Hang.

(** The thinking phase, when enabled and tools are present: its events and
    the messages after it. *)
Definition thinking_phase (a : agent) (hasTools : bool) (messages : list message)
  : list message * list event :=
  if enableThinkingPhase a && hasTools then
    let '(content, ds) := thinking_deltas (stream_text (ThinkingRequest (thinking_messages a messages))) in
    (if String.eqb content "" then messages
     else app messages [MAssistant ("[内部决策]" ++ nl_s ++ content)],
     EvThinkingStart :: app ds [EvThinkingEnd])
  else (messages, []).

(** The calls, in parallel ([Promise.all]) or one after the other. *)
Definition run_tools (a : agent) (iteration : nat) (tcs : list tool_call)
  : option (list (tool_call * jsval * bool)) :=
  if parallelToolCalls a && (1 <? length tcs)
  then promise_all (settle_order iteration (length tcs)) (map exec_call tcs)
  else Some (map exec_call tcs).

Definition iteration_body (a : agent) (hasTools : bool) (iteration : nat)
    (messages : list message) : list event * iter_end :=
  let '(msgs1, e1) := thinking_phase a hasTools messages in
  let '(st, e2) := run_stream it_init (stream_text (MainRequest msgs1 hasTools)) in
  let pre := EvIterationStart iteration (maxIterations a) :: app e1 e2 in
  match toolCalls st with
  | [] => (app pre [EvIterationEnd iteration], Break)
  | tcs =>
      let e3 := map (fun tc => EvToolExecuting (tc_name tc) (tc_id tc) (tc_args tc)) tcs in
      match run_tools a iteration tcs with
      | None => (app pre e3, Hang)
      | Some rs =>
          let '(e4, hasImmediateResult) := emit_results (immediateResultMatchers a) rs in
          let evs := app pre (app e3 (app e4 [EvIterationEnd iteration])) in
          if hasImmediateResult then (evs, Break)
          else
            (evs, Continue
                    (app msgs1
                       (MAssistantParts (if String.eqb (fullText st) "" then None else Some (fullText st)) tcs
                          :: map (fun r => let '(tc, v, _) := r in MTool (tc_id tc) (tc_name tc) v) rs)))
      end
  end.

(** [while (iteration < this.maxIterations)]; [fuel] bounds the passes.
    The result is the events and the final [iteration], [None] when the
    generator is left waiting. *)
Fixpoint agent_loop (a : agent) (hasTools : bool) (fuel iteration : nat) (messages : list message)
  : list event * option nat :=
  match fuel with
  | 0 => ([], Some iteration)
  | S f =>
      if num_lt iteration (maxIterations a) then
        let '(evs, k) := iteration_body a hasTools (S iteration) messages in
        match k with
        | Continue msgs =>
            let '(evs', r) := agent_loop a hasTools f (S iteration) msgs in (app evs evs', r)
        | Break => (evs, Some (S iteration))
        | Hang => (evs, None)
        end
      else ([], Some iteration)
  end.

(** [Agent.chatStream]: all the events the generator yields. *)
Definition chatStream (a : agent) (mcpTools : list string) (userMessage : string)
    (history : list (string * string)) (allowedTools : option (list string)) : list event :=
  let messages := MSystem (systemPrompt a) :: app (map history_message history) [MUser userMessage] in
  let hasTools := match filter_tools allowedTools mcpTools with [] => false | _ => true end in
  let '(evs, r) := agent_loop a hasTools (passes (maxIterations a)) 0 messages in
  app evs (match r with Some n => [EvComplete n] | None => [] end).

End Turn.

End Agent.

(* ================================================================== *)
(** ** [PromptBasedAgent.chatStream] (tool calls written in the text) *)

Module PromptBasedAgent.

Section Turn.
Variable json_parse : string -> option jsval.
Variable stream_text : stream_request -> list chunk.
Variable call_tool : string -> jsval -> outcome.
(** [JSON.stringify(result, null, 2)] *)
Variable json_stringify : jsval -> string.
(** The reading of [Date.now()] during an iteration (ids of checklists and
    of tool calls). *)
Variable clock : nat -> nat.

(** The text of the user message that carries a tool result. *)
Definition tool_result_message (name : string) (isError : bool) (resultStr : string) : string :=
  "<tool_result name=" ++ String dq (name ++ String dq (" success=" ++ String dq
    ((if isError then "false" else "true") ++ String dq (">" ++ nl_s ++ resultStr ++ nl_s
    ++ "</tool_result>" ++ nl_s ++ nl_s
    ++ "请根据工具结果继续处理。如果任务已完成，请直接回复用户；如果需要更多信息，可以继续调用工具。")))).

(** One iteration after [ITERATION_START]: the stream, then the tool call
    found in [fullResponse], if any; [Some] carries the new messages of a
    [continue]. *)
Definition iteration_body (iteration : nat) (messages : list message)
  : list event * option (list message) :=
  let now := clock iteration in
  let '(st, e1) := pb_stream now pb_init (stream_text (MainRequest messages false)) in
  match parseToolCall json_parse (fullResponse st) with
  | Some (name, args) =>
      let toolCallId := "tool-" ++ nat_to_string now in
      let '(result, isError) :=
        match call_tool name args with
        | Returned v => (v, false)
        | Threw e => (JStr (error_message e), true)
        end in
      let resultStr := match result with JStr s => s | _ => json_stringify result end in
      (app e1 [EvToolCallStart name toolCallId (Some args); EvToolExecuting name toolCallId args;
               EvToolResult name result toolCallId isError; EvIterationEnd iteration],
       Some (app messages [MAssistant (fullResponse st);
                           MUser (tool_result_message name isError resultStr)]))
  | None => (app e1 [EvIterationEnd iteration], None)
  end.

Fixpoint pb_loop (maxIterations : Q) (fuel iteration : nat) (messages : list message) : list event * nat :=
  match fuel with
  | 0 => ([], iteration)
  | S f =>
      if num_lt iteration maxIterations then
        let '(evs, k) := iteration_body (S iteration) messages in
        let evs0 := EvIterationStart (S iteration) maxIterations :: evs in
        match k with
        | Some msgs => let '(evs', n) := pb_loop maxIterations f (S iteration) msgs in (app evs0 evs', n)
        | None => (evs0, S iteration)
        end
      else ([], iteration)
  end.

(** [options.maxIterations || 10] *)
Definition resolve_max (o : option Q) : Q := or_10 o.

(** [systemPrompt] is [buildSystemPrompt(mcpTools)]. *)
Definition chatStream (maxIterations : Q) (systemPrompt userMessage : string)
    (history : list (string * string)) : list event :=
  let messages := MSystem systemPrompt :: app (map history_message history) [MUser userMessage] in
  let '(evs, n) := pb_loop maxIterations (passes maxIterations) 0 messages in
  app evs [EvComplete n].

End Turn.

End PromptBasedAgent.

(* ================================================================== *)
(** ** Vocabulary of the properties *)

Definition is_iteration_event (e : event) : bool :=
  match e with EvIterationStart _ _ | EvIterationEnd _ | EvComplete _ => true | _ => false end.

(** The ids of the [TOOL_CALL_START] events, in order. *)
Definition start_ids (evs : list event) : list string :=
  flat_map (fun e => match e with EvToolCallStart _ id _ => [id] | _ => [] end) evs.

(** The ids of the [TOOL_RESULT] events, in order. *)
Definition result_ids (evs : list event) : list string :=
  flat_map (fun e => match e with EvToolResult _ _ id _ => [id] | _ => [] end) evs.

(** The ids of the [TOOL_EXECUTING] events, in order. *)
Definition executing_ids (evs : list event) : list string :=
  flat_map (fun e => match e with EvToolExecuting _ id _ => [id] | _ => [] end) evs.

(** The calls announced by [TOOL_EXECUTING], and the [TOOL_RESULT] payloads. *)
Definition executing_calls (evs : list event) : list (string * string * jsval) :=
  flat_map (fun e => match e with EvToolExecuting nm id args => [(nm, id, args)] | _ => [] end) evs.

Definition tool_results (evs : list event) : list (string * jsval * string * bool) :=
  flat_map (fun e => match e with EvToolResult nm v id err => [(nm, v, id, err)] | _ => [] end) evs.

Definition todo_starts (evs : list event) : nat :=
  length (filter (fun e => match e with EvTodoStart _ _ => true | _ => false end) evs).

(** [l1] is [l2] with some elements left out, the others in the same order. *)
Inductive subseq {A : Type} : list A -> list A -> Prop :=
| subseq_nil : subseq [] []
| subseq_skip (x : A) (l1 l2 : list A) : subseq l1 l2 -> subseq l1 (x :: l2)
| subseq_take (x : A) (l1 l2 : list A) : subseq l1 l2 -> subseq (x :: l1) (x :: l2).

(** One iteration: [ITERATION_START], events of no iteration kind, [ITERATION_END]. *)
Definition iteration_segment (j : nat) (m : Q) (seg : list event) : Prop :=
  exists mid, seg = EvIterationStart j m :: app mid [EvIterationEnd j] /\
              forallb (fun e => negb (is_iteration_event e)) mid = true.

(** The tool-call ids carried by the chunks of a stream. *)
Definition chunk_ids (cs : list chunk) : list string :=
  flat_map (fun c => match c with
                     | CToolCall id _ _ | CToolCallStreamingStart id _ => [id]
                     | _ => []
                     end) cs.

Definition no_streaming_start (cs : list chunk) : bool :=
  forallb (fun c => match c with CToolCallStreamingStart _ _ => false | _ => true end) cs.

(** The text of a stream: its text deltas, concatenated. *)
Fixpoint strcat (l : list string) : string :=
  match l with [] => "" | s :: l' => s ++ strcat l' end.

Definition text_of (cs : list chunk) : string :=
  strcat (flat_map (fun c => match c with CTextDelta d => [d] | _ => [] end) cs).

(** What a tool call turns into: its result, or the failure message with
    [isError] set. *)
Definition expected_result (call_tool : string -> jsval -> outcome) (c : string * string * jsval)
  : string * jsval * string * bool :=
  let '(nm, id, args) := c in
  match call_tool nm args with
  | Returned v => (nm, v, id, false)
  | Threw e => (nm, JStr (error_message e), id, true)
  end.

(* ================================================================== *)
(** ** The states of the tag parser on the prefixes of one reply

    For the reply [<think>hello </think>world] (26 characters), the parser
    state after a prefix of length [k] has been fed is [think_canon k i],
    where [i] is how far the thinking text has been emitted.  The events
    are followed by a recognizer of the expected shape. *)

Definition T8 : string := "<think>hello </think>world".

Definition think_valid (k i : nat) : bool :=
  if k <=? 6 then i =? 0
  else if k <=? 20 then (7 <=? i) && (i <=? 13) && (i <=? k) && (k - i <=? 10)
  else (k <=? 26) && (i =? 0).

Definition think_canon (k i : nat) : pb_state :=
  let seen := stake k T8 in
  if k <=? 6 then mk_pb seen false false false false true seen PNormal None 0 false
  else if k <=? 20 then mk_pb seen true false false false false (js_substring T8 i k) PThink None 0 false
  else mk_pb seen true true (22 <=? k) false false "" PNormal None 0 false.

(** Thinking start, thinking deltas, thinking end, text start, text deltas,
    text end; the deltas are accumulated. *)
Inductive shape_state : Type :=
| RInit
| RThink (thinking : string)
| RAfterThink (thinking : string)
| RText (thinking text : string)
| RDone (thinking text : string)
| RFail.

Definition shape_step (r : shape_state) (e : event) : shape_state :=
  match r, e with
  | RInit, EvThinkingStart => RThink ""
  | RThink a, EvThinkingDelta c => RThink (a ++ c)
  | RThink a, EvThinkingEnd => RAfterThink a
  | RAfterThink a, EvTextStart => RText a ""
  | RText a t, EvTextDelta c => RText a (t ++ c)
  | RText a t, EvTextEnd => RDone a t
  | _, _ => RFail
  end.

Definition recognize (r : shape_state) (evs : list event) : shape_state := fold_left shape_step evs r.

Definition think_rec (k i : nat) : shape_state :=
  if k <=? 6 then RInit
  else if k <=? 20 then RThink (js_substring T8 7 i)
  else if k =? 21 then RAfterThink "hello "
  else RText "hello " (js_substring T8 21 k).

Definition parse_state_eq_dec (x y : parse_state) : {x = y} + {x <> y}.
Proof. decide equality. Defined.

Definition pb_state_eq_dec (x y : pb_state) : {x = y} + {x <> y}.
Proof.
  decide equality;
    first [ apply bool_dec | apply string_dec | apply Nat.eq_dec | apply parse_state_eq_dec
          | decide equality; apply string_dec ].
Defined.

Definition shape_state_eq_dec (x y : shape_state) : {x = y} + {x <> y}.
Proof. decide equality; apply string_dec. Defined.

(** The drain never reaches the checklist state, where the clock is read. *)
Fixpoint drain_avoids_todo (fuel : nat) (st : pb_state) : bool :=
  match fuel with
  | 0 => true
  | S f =>
      if Nat.eqb (String.length (buffer st)) 0 then true
      else match parseState st with
           | PTodo => false
           | _ => let '(st1, _, processed) := pb_body 0 st in
                  if processed then drain_avoids_todo f st1 else true
           end
  end.

Definition think_step_ok (k i k' : nat) : bool :=
  let st := think_canon k i in
  let d := js_substring T8 k k' in
  let pre := fst (pb_prepare st d) in
  let '(st', evs) := pb_text_delta 0 st d in
  let i' := match parseState st' with PThink => k' - String.length (buffer st') | _ => 0 end in
  drain_avoids_todo (drain_fuel pre) pre
  && think_valid k' i'
  && (if pb_state_eq_dec st' (think_canon k' i') then true else false)
  && (if shape_state_eq_dec (recognize (think_rec k i) evs) (think_rec k' i') then true else false).

Definition think_table_ok : bool :=
  forallb (fun k => forallb (fun i => negb (think_valid k i)
                                      || forallb (fun k' => think_step_ok k i k') (seq k (27 - k)))
                            (seq 0 27))
          (seq 0 27).

Definition think_finish_ok : bool :=
  forallb (fun i => negb (think_valid 26 i)
                    || (if shape_state_eq_dec (recognize (think_rec 26 i) (snd (pb_finish (think_canon 26 i))))
                                              (RDone "hello " "world") then true else false))
          (seq 0 27).

(** A decoded call from a parsed value, [None] when reading it throws. *)
Definition decode_call (obj : jsval) : option decoded_call :=
  match call_of_json obj with inr r => r | inl _ => None end.

Definition is_nullish (v : jsval) : bool := match v with JNull | JUndefined => true | _ => false end.

(* ================================================================== *)
(** ** Sample collaborators *)

Definition card_matcher : matcher := [("type", JStr "card")].
Definition card_result : jsval := JObj [("type", JStr "card"); ("id", JNum 7%Z)].

(** An agent with [maxIterations: 3] and the matcher [{type: 'card'}]. *)
Definition card_agent : Agent.agent :=
  Agent.new_Agent "You are a helpful assistant." ""
    (Agent.mk_options (Some 3%Q) (Some [card_matcher]) None None).

(** An agent with [maxIterations: 3] and no matcher. *)
Definition plain_agent : Agent.agent :=
  Agent.new_Agent "You are a helpful assistant." "" (Agent.mk_options (Some 3%Q) None None None).

(** A model that requests a tool call on every invocation. *)
Definition always_call_model (r : stream_request) : list chunk :=
  [CToolCall "call_1" "show_card" (JObj []); CFinish].

Definition card_tool (nm : string) (args : jsval) : outcome := Returned card_result.

(** Parallel calls settle last first. *)
Definition reverse_settle (it n : nat) : list nat := rev (seq 0 n).

(** A model whose stream reports an error. *)
Definition error_model (r : stream_request) : list chunk := [CError "network down"; CFinish].

(** Two calls on the first request, a plain answer afterwards. *)
Definition two_call_model (r : stream_request) : list chunk :=
  match r with
  | MainRequest msgs _ =>
      if Nat.eqb (List.length msgs) 2
      then [CToolCall "call_a" "broken" (JObj []); CToolCall "call_b" "cards" (JObj []); CFinish]
      else [CTextDelta "done"; CFinish]
  | ThinkingRequest _ => []
  end.

(** [broken] rejects with a message that reads as a card. *)
(** A tool that always throws, with a message that [JSON.parse] turns into
    [{type: 'card'}]. *)
Definition broken_card_tool (nm : string) (args : jsval) : outcome :=
  Threw (ErrorObj (jstr "{'type':'card'}")).

Definition two_call_tool (nm : string) (args : jsval) : outcome :=
  if String.eqb nm "broken" then Threw (ErrorObj (jstr "{'type':'card'}"))
  else Returned (JObj [("type", JStr "card")]).

(** A text-convention model that always writes a tool call. *)
Definition tag_call_model (r : stream_request) : list chunk :=
  [CTextDelta (jstr "<tool_call>{'name': 'lookup', 'arguments': {}}</tool_call>"); CFinish].

Definition ok_tool (nm : string) (args : jsval) : outcome := Returned (JStr "ok").

(** Replies with a checklist and a tool call, then with a second checklist. *)
Definition todo_reply1 : string :=
  jstr "<todo title='Plan'>" ++ nl_s ++ "- search" ++ nl_s ++ "</todo>" ++ nl_s
  ++ jstr "<tool_call>{'name': 'search', 'arguments': {}}</tool_call>".

Definition todo_reply2 : string :=
  jstr "<todo title='Plan'>" ++ nl_s ++ "- answer" ++ nl_s ++ "</todo>" ++ nl_s ++ "Done.".

Definition todo_model (r : stream_request) : list chunk :=
  match r with
  | MainRequest msgs _ =>
      if Nat.eqb (List.length msgs) 2 then [CTextDelta todo_reply1; CFinish]
      else [CTextDelta todo_reply2; CFinish]
  | ThinkingRequest _ => []
  end.

Definition compact_stringify : jsval -> string := JSON_stringify.
Definition tick (it : nat) : nat := 1000 + it.

(** A model that writes a tool call in the text convention and also
    requests one natively, on every invocation. *)
Definition loop_model (r : stream_request) : list chunk :=
  [CTextDelta (jstr "<tool_call>{'name': 'lookup', 'arguments': {}}</tool_call>");
   CToolCall "call_1" "lookup" (JObj []); CFinish].

(* ================================================================== *)
(** ** Kinds of events, and properties of event sequences *)

(** The events of the text and thinking channels. *)
Definition is_text_event (e : event) : bool :=
  match e with
  | EvThinkingStart | EvThinkingDelta _ | EvThinkingEnd | EvTextStart | EvTextDelta _ | EvTextEnd => true
  | _ => false
  end.

(** The events [Agent.chatStream] yields while it reads the main stream. *)
Definition is_stream_event (e : event) : bool :=
  match e with
  | EvToolCallStart _ _ _ | EvToolCallDelta _ _ | EvError _ => true
  | _ => is_text_event e
  end.

(** The events the tag parser of [PromptBasedAgent] yields. *)
Definition is_pb_event (e : event) : bool :=
  match e with
  | EvTodoStart _ _ | EvTodoItemAdd _ _ _ _ | EvTodoItemUpdate _ _ _ _ => true
  | _ => is_text_event e
  end.

Definition no_iter (evs : list event) : bool :=
  forallb (fun e => negb (is_iteration_event e)) evs.

Definition is_immediate (e : event) : bool :=
  match e with EvImmediateResult _ _ _ => true | _ => false end.

(** Every call of an iteration settles: the settling order lists every index. *)
Definition settle_covers (settle_order : nat -> nat -> list nat) : Prop :=
  forall it n i, i < n -> In i (settle_order it n).

(** Every [TOOL_RESULT] of [evs] has exactly one [TOOL_CALL_START] with its id
    before it, counting the ids [S] started before [evs]. *)
Definition results_after_starts (S : list string) (evs : list event) : Prop :=
  forall pre nm v id err post,
    evs = app pre (EvToolResult nm v id err :: post) ->
    count_occ string_dec (app S (start_ids pre)) id = 1.

(** The [TOOL_EXECUTING] events of an iteration. *)
Definition exec_events (tcs : list tool_call) : list event :=
  map (fun tc => EvToolExecuting (tc_name tc) (tc_id tc) (tc_args tc)) tcs.

Definition call_triple (tc : tool_call) : string * string * jsval := (tc_name tc, tc_id tc, tc_args tc).

(** Case analysis on the innermost [match] of the goal. *)
Ltac destr_inner :=
  match goal with
  | |- context [match ?x with _ => _ end] =>
      match x with
      | context [match _ with _ => _ end] => fail 1
      | _ => destruct x eqn:?
      end
  end.

(** The state of the main stream read by [Agent.chatStream]: the ids of the
    [TOOL_CALL_START] events sent, and the ids of the calls collected. *)
Definition sent (st : Agent.it_state) : list string := Agent.sentToolCallStarts st.
Definition call_ids (st : Agent.it_state) : list string := map tc_id (Agent.toolCalls st).

Definition no_imm (evs : list event) : bool := forallb (fun e => negb (is_immediate e)) evs.

(** Tool-call ids issued in different requests of one turn are distinct:
    a request of a turn is identified by the length of its messages. *)
Definition ids_per_request (stream_text : stream_request -> list chunk) : Prop :=
  forall m1 m2 b1 b2 id,
    In id (chunk_ids (stream_text (MainRequest m1 b1))) ->
    In id (chunk_ids (stream_text (MainRequest m2 b2))) -> length m1 = length m2.

(** The ids [prev] were issued in requests with fewer messages than [msgs]. *)
Definition issued_before (stream_text : stream_request -> list chunk) (prev : list string)
    (msgs : list message) : Prop :=
  forall id, In id prev ->
    exists m b, In id (chunk_ids (stream_text (MainRequest m b))) /\ length m < length msgs.

(** A model that requests a tool call on every invocation. *)
Definition always_calls (stream_text : stream_request -> list chunk) : Prop :=
  forall msgs b, no_streaming_start (stream_text (MainRequest msgs b)) = true /\
    exists id nm args, In (CToolCall id nm args) (stream_text (MainRequest msgs b)).

(** No result of the tool matches an immediate-result matcher of the agent. *)
Definition no_immediate_match (json_parse : string -> option jsval)
    (call_tool : string -> jsval -> outcome) (a : Agent.agent) : Prop :=
  forall nm args v, call_tool nm args = Returned v ->
    matchImmediateResult json_parse (Agent.immediateResultMatchers a) v = false.

(* ================================================================== *)
(** ** Further vocabulary *)

(** A whole turn: iterations numbered [1..n] out of [m], then [COMPLETE n];
    iteration [j + 1] runs only when [j < m], and there is at least one
    when [0 < m]. *)
Definition turn_shape (m : Q) (evs : list event) : Prop :=
  exists segs, evs = app (concat segs) [EvComplete (length segs)] /\
    ((0 < m)%Q -> 0 < length segs) /\
    forall j s, nth_error segs j = Some s -> (inject_Z (Z.of_nat j) < m)%Q /\ iteration_segment (S j) m s.

(** The ids of the complete [tool-call] chunks of a stream. *)
Definition tool_call_chunk_ids (cs : list chunk) : list string :=
  flat_map (fun c => match c with CToolCall id _ _ => [id] | _ => [] end) cs.

(** Every index below [n] is in the settling order [order]. *)
Definition covers_all (order : list nat) (n : nat) : bool :=
  forallb (fun i => existsb (Nat.eqb i) order) (seq 0 n).

Definition streaming_model (r : stream_request) : list chunk :=
  [CToolCallStreamingStart "c1" "lookup"; CToolCallDelta "c1" "{}"; CToolCall "c1" "lookup" (JObj []); CFinish].

(** [s] starts with [p], ignoring the case of ASCII letters. *)
Fixpoint prefix_ci (p s : string) : bool :=
  match p, s with
  | EmptyString, _ => true
  | String c p', String d s' => Ascii.eqb (upper d) (upper c) && prefix_ci p' s'
  | String _ _, EmptyString => false
  end.

(** [s] contains [p], ignoring the case of ASCII letters. *)
Fixpoint contains_ci (p s : string) : bool :=
  prefix_ci p s || match s with String _ s' => contains_ci p s' | EmptyString => false end.

(** Two patterns that can both be prefixes of one string agree, up to case,
    on the length of the shorter. *)
Fixpoint compatible_ci (p q : string) : bool :=
  match p, q with
  | String c p', String d q' => Ascii.eqb (upper c) (upper d) && compatible_ci p' q'
  | _, _ => true
  end.

(** A property schema, as the two [generateToolsDescription] read it
    ([prop as { type?: string; description?: string }]). *)
Record prop_schema := mk_prop { ps_type : jsval; ps_description : jsval }.

(** [MCPTool]: [inputSchema.properties] as its entries in [Object.entries]
    order, and [inputSchema.required]. *)
Record mcp_tool := mk_tool {
  tool_name : string;
  tool_description : string;
  tool_properties : option (list (string * prop_schema));
  tool_required : option (list string)
}.

(** [`${v || d}`] *)
Definition or_default (v : jsval) (d : string) : string := if js_truthy v then js_String v else d.

(** [PromptBasedAgent.generateToolsDescription] *)
Definition pb_generateToolsDescription (tools : list mcp_tool) : string :=
  match tools with
  | [] => "当前没有可用的工具。"
  | _ =>
      fold_left
        (fun description tool =>
           let description := description ++ "### " ++ tool_name tool ++ nl_s in
           let description := description ++ tool_description tool ++ nl_s in
           let description :=
             match tool_properties tool with
             | Some props =>
                 let required := match tool_required tool with Some r => r | None => [] end in
                 fold_left
                   (fun description kp =>
                      let '(key, propSchema) := kp in
                      let isRequired := existsb (String.eqb key) required in
                      description ++ "- " ++ key ++ " (" ++ or_default (ps_type propSchema) "any"
                        ++ (if isRequired then ", 必填" else "") ++ "): "
                        ++ or_default (ps_description propSchema) "无描述" ++ nl_s)
                   props (description ++ "参数:" ++ nl_s)
             | None => description
             end in
           description ++ nl_s)
        tools ""
  end.

(** [Agent.generateToolsDescription] *)
Definition agent_generateToolsDescription (tools : list mcp_tool) : string :=
  match tools with
  | [] => "当前没有可用的工具。"
  | _ =>
      fold_left
        (fun description tool =>
           let description := description ++ "### " ++ tool_name tool ++ nl_s in
           let description := description ++ "描述: " ++ tool_description tool ++ nl_s in
           let description :=
             match tool_properties tool with
             | Some props =>
                 fold_left
                   (fun description kp =>
                      let '(key, propInfo) := kp in
                      let required :=
                        match tool_required tool with
                        | Some r => if existsb (String.eqb key) r then "必填" else "可选"
                        | None => "可选"
                        end in
                      description ++ "  - " ++ key ++ " (" ++ or_default (ps_type propInfo) "any" ++ ", "
                        ++ required ++ "): " ++ or_default (ps_description propInfo) "" ++ nl_s)
                   props (description ++ "参数:" ++ nl_s)
             | None => description
             end in
           description ++ nl_s)
        tools ""
  end.

(** The contents of the [TEXT_DELTA] events, concatenated. *)
Definition text_deltas (evs : list event) : string :=
  strcat (flat_map (fun e => match e with EvTextDelta s => [s] | _ => [] end) evs).

(* ################################################################## *)
(** * Proofs *)

(* ================================================================== *)
(** ** The models on sample inputs *)

Example JSON_parse_call :
  JSON_parse (jstr "{'name': 'search', 'arguments': {'q': 'x'}}")
  = Some (JObj [("name", JStr "search"); ("arguments", JObj [("q", JStr "x")])]).
Proof. reflexivity. Qed.

Example JSON_parse_bad : JSON_parse "{'name': 'x'}" = None.
Proof. reflexivity. Qed.

Example detect_examples :
  map detectNativeToolSupport ["gpt-4o"; "claude-3-5-sonnet"; "deepseek-chat"; "o1-mini";
                               "my-deepseek-claude-3"; "unknown-model"; "GPT-4"]
  = [false; true; false; true; false; false; false].
Proof. reflexivity. Qed.

Example parseToolCall_examples :
  parseToolCall JSON_parse (jstr "<tool_call>{'name': 'fetch', 'arguments': {'url': 'u'}}</tool_call>")
    = Some ("fetch", JObj [("url", JStr "u")]) /\
  parseToolCall JSON_parse (jstr "```json" ++ nl_s ++ jstr "{'name': 'a', 'arguments': {}}" ++ nl_s ++ "```")
    = Some ("a", JObj []) /\
  parseToolCall JSON_parse (jstr "x {'name':'search','arguments':{'q':'x'}} y")
    = Some ("search", JObj [("q", JStr "x")]) /\
  parseToolCall JSON_parse "<tool_call>{'name': 'a'}</tool_call>" = Some ("a", JObj []) /\
  parseToolCall JSON_parse "hello" = None.
Proof. repeat split; reflexivity. Qed.

Example pb_stream_think_example :
  snd (pb_stream 0 pb_init (pb_text_chunks ["<th"; "ink>hel"; "lo </thi"; "nk>wor"; "ld"])) =
  [EvThinkingStart; EvThinkingDelta "h"; EvThinkingDelta "ello "; EvThinkingEnd; EvTextStart;
   EvTextDelta "wor";
   EvTextDelta "ld"; EvTextEnd].
Proof. vm_compute. reflexivity. Qed.

(* ================================================================== *)
(** ** Strings and lists *)

Lemma num_lt_passes (i : nat) (m : Q) : num_lt i m = (i <? passes m).
Proof.
  unfold num_lt, passes.
  destruct (Qle_bool m (inject_Z (Z.of_nat i))) eqn:E; simpl.
  - apply Qle_bool_iff in E.
    pose proof (Qceiling_resp_le _ _ E) as H. rewrite Qceiling_Z in H.
    symmetry. apply Nat.ltb_ge. lia.
  - assert (H : ~ (m <= inject_Z (Z.of_nat i))%Q) by (intros H; apply Qle_bool_iff in H; congruence).
    apply Qnot_le_lt in H.
    assert (H2 : (inject_Z (Z.of_nat i) < inject_Z (Qceiling m))%Q)
      by (eapply Qlt_le_trans; [exact H | apply Qle_ceiling]).
    rewrite <- Zlt_Qlt in H2.
    symmetry. apply Nat.ltb_lt. lia.
Qed.

Lemma num_lt_spec (i : nat) (m : Q) : num_lt i m = true <-> (inject_Z (Z.of_nat i) < m)%Q.
Proof.
  unfold num_lt. rewrite negb_true_iff. split.
  - intros E. apply Qnot_le_lt. intros H. apply Qle_bool_iff in H. congruence.
  - intros H. destruct (Qle_bool m (inject_Z (Z.of_nat i))) eqn:E; [|reflexivity].
    apply Qle_bool_iff in E. exfalso. exact (Qlt_not_le _ _ H E).
Qed.

Lemma passes_spec (i : nat) (m : Q) : i < passes m <-> (inject_Z (Z.of_nat i) < m)%Q.
Proof. rewrite <- num_lt_spec, num_lt_passes. symmetry. apply Nat.ltb_lt. Qed.

Lemma sapp_nil_r (s : string) : s ++ "" = s.
Proof. induction s as [|c s IH]; simpl; [reflexivity | now rewrite IH]. Qed.

Lemma sapp_assoc (a b c : string) : (a ++ b) ++ c = a ++ (b ++ c).
Proof. induction a as [|x a IH]; simpl; [reflexivity | now rewrite IH]. Qed.

Lemma sapp_split (a b s : string) :
  a ++ b = s -> stake (String.length a) s = a /\ sdrop (String.length a) s = b.
Proof.
  revert s; induction a as [|c a IH]; intros s H; simpl in *.
  - subst; split; reflexivity.
  - subst s. simpl. destruct (IH (a ++ b) eq_refl) as [H1 H2]. now rewrite H1, H2.
Qed.

Lemma sdrop_sdrop (n m : nat) (s : string) : sdrop m (sdrop n s) = sdrop (n + m) s.
Proof.
  revert s; induction n as [|n IH]; intros s; simpl; [reflexivity|].
  destruct s; simpl; [destruct m; reflexivity | apply IH].
Qed.

Lemma sdrop_length (n : nat) (s : string) : String.length (sdrop n s) = String.length s - n.
Proof.
  revert s; induction n as [|n IH]; intros s; simpl; [lia|].
  destruct s; simpl; [reflexivity | apply IH].
Qed.

Lemma sapp_length (a b : string) : String.length (a ++ b) = String.length a + String.length b.
Proof. induction a; simpl; auto. Qed.

Lemma forallb_seq (f : nat -> bool) (start len x : nat) :
  forallb f (seq start len) = true -> start <= x < start + len -> f x = true.
Proof. intros H Hx. rewrite forallb_forall in H. apply H, in_seq. exact Hx. Qed.

(* ================================================================== *)
(** ** Mode selection *)

(** C9: mode selection is an ordered rule set.  An explicit
    [usePromptBasedTools] of [true] or [false] decides alone (text
    convention, resp. native); otherwise the identifier checked
    ([modelName], else the model id) selects the text convention as soon
    as it matches a prompt-based pattern, whatever the native patterns say;
    otherwise native exactly when it matches a native pattern; an
    identifier matching neither selects the text convention.  The
    identifier [claude-3-deepseek], matching a pattern of each set, selects
    the text convention. *)
Theorem mode_selection_rules (config : link_config) :
  detectedNativeSupport config =
    match cfg_usePromptBasedTools config with
    | PBTrue => false
    | PBFalse => true
    | PBAuto | PBUnset =>
        if existsb (fun p => regex_test p (modelNameToCheck config)) PROMPT_BASED_PATTERNS then false
        else existsb (fun p => regex_test p (modelNameToCheck config)) NATIVE_REASONING_PATTERNS
    end
  /\ existsb (fun p => regex_test p "claude-3-deepseek") NATIVE_REASONING_PATTERNS = true
  /\ detectNativeToolSupport "claude-3-deepseek" = false.
Proof.
  split; [|split; reflexivity].
  unfold detectedNativeSupport, detectNativeToolSupport.
  destruct (cfg_usePromptBasedTools config); try reflexivity;
    destruct (existsb _ PROMPT_BASED_PATTERNS); try reflexivity;
    destruct (existsb _ NATIVE_REASONING_PATTERNS); reflexivity.
Qed.

(* ================================================================== *)
(** ** The tool-call decoder *)

Lemma decode_call_some (obj : jsval) (n : string) (a : jsval) :
  decode_call obj = Some (n, a) -> get_prop obj "name" = JStr n /\ n <> "".
Proof.
  unfold decode_call, call_of_json.
  destruct (js_get obj "name") as [e|nm] eqn:Hg; [discriminate|].
  destruct (js_truthy nm) eqn:Ht; [|discriminate].
  destruct nm; try discriminate.
  destruct (js_get obj "arguments"); [discriminate|].
  intros H; inversion H; subst. split.
  - destruct obj; simpl in Hg; inversion Hg; reflexivity.
  - intros E; subst; discriminate Ht.
Qed.

Lemma call_of_json_total (obj : jsval) :
  is_nullish obj = false -> call_of_json obj = inr (decode_call obj).
Proof.
  intros Hn. unfold decode_call.
  assert (Hg : forall k, js_get obj k = inr (get_prop obj k)) by (destruct obj; try discriminate; reflexivity).
  unfold call_of_json. rewrite !Hg.
  destruct (js_truthy (get_prop obj "name")); [destruct (get_prop obj "name")|]; reflexivity.
Qed.

(** C7: [tryParseToolCallJson] first decodes [JSON.parse] of the trimmed
    span; only when that parse throws, or yields [null] (so that reading
    [name] throws), it decodes the span with every single quote turned into
    a double quote, and when that fails too there is no call (never an
    exception: the result is an option, a function of the span and of
    [JSON.parse]).  A parsed value whose [name] is not a non-empty string
    gives no call, and a call returned has the non-empty string [name] of
    one of the two parsed values. *)
Theorem tryParseToolCallJson_strategies (json_parse : string -> option jsval) (s : string) :
  tryParseToolCallJson json_parse s =
    match json_parse (trim s) with
    | Some obj =>
        if is_nullish obj
        then match json_parse (replace_single_quotes s) with Some o => decode_call o | None => None end
        else decode_call obj
    | None => match json_parse (replace_single_quotes s) with Some o => decode_call o | None => None end
    end
  /\ (forall obj, (forall n, n <> "" -> get_prop obj "name" <> JStr n) -> decode_call obj = None)
  /\ match tryParseToolCallJson json_parse s with
     | Some (n, _) =>
         n <> "" /\ exists obj, get_prop obj "name" = JStr n /\
           (json_parse (trim s) = Some obj \/ json_parse (replace_single_quotes s) = Some obj)
     | None => True
     end.
Proof.
  assert (Heq : tryParseToolCallJson json_parse s =
    match json_parse (trim s) with
    | Some obj =>
        if is_nullish obj
        then match json_parse (replace_single_quotes s) with Some o => decode_call o | None => None end
        else decode_call obj
    | None => match json_parse (replace_single_quotes s) with Some o => decode_call o | None => None end
    end).
  { unfold tryParseToolCallJson, parse_attempt.
    assert (Hr : match match json_parse (replace_single_quotes s) with
                       | None => inl SyntaxError | Some json => call_of_json json end with
                 | inr r => r | inl _ => None end
               = match json_parse (replace_single_quotes s) with Some o => decode_call o | None => None end).
    { destruct (json_parse (replace_single_quotes s)) as [o|]; [|reflexivity].
      unfold decode_call. destruct (call_of_json o); reflexivity. }
    destruct (json_parse (trim s)) as [obj|]; [|exact Hr].
    destruct (is_nullish obj) eqn:Hn.
    - destruct obj; try discriminate; exact Hr.
    - rewrite (call_of_json_total _ Hn). reflexivity. }
  split; [exact Heq|]. split.
  - intros obj Hno. destruct (decode_call obj) as [[n a]|] eqn:Hd; [|reflexivity].
    destruct (decode_call_some _ _ _ Hd) as [H1 H2]. exfalso. exact (Hno n H2 H1).
  - rewrite Heq.
    destruct (json_parse (trim s)) as [obj|] eqn:H1.
    + destruct (is_nullish obj).
      * destruct (json_parse (replace_single_quotes s)) as [o|] eqn:H2; [|exact I].
        destruct (decode_call o) as [[n a]|] eqn:Hd; [|exact I].
        destruct (decode_call_some _ _ _ Hd). split; [assumption|]. exists o. auto.
      * destruct (decode_call obj) as [[n a]|] eqn:Hd; [|exact I].
        destruct (decode_call_some _ _ _ Hd). split; [assumption|]. exists obj. auto.
    + destruct (json_parse (replace_single_quotes s)) as [o|] eqn:H2; [|exact I].
      destruct (decode_call o) as [[n a]|] eqn:Hd; [|exact I].
      destruct (decode_call_some _ _ _ Hd). split; [assumption|]. exists o. auto.
Qed.

(* ================================================================== *)
(** ** Concrete turns *)

(** C5: two checklists in one turn of the text-convention agent, the first
    in the reply of iteration 1 (with a tool call), the second in the reply
    of iteration 2: two [TODO_START] events are emitted, because
    [hasTodoCreated] is declared anew in every iteration. *)
Theorem todo_created_per_iteration :
  todo_starts (PromptBasedAgent.chatStream JSON_parse todo_model ok_tool compact_stringify tick
                 10 "sys" "plan it" []) = 2.
Proof. vm_compute. reflexivity. Qed.

(** C1 (counterexample): a model that requests a tool call on every
    invocation, [maxIterations = 3], and a tool result that matches the
    agent's immediate-result matcher: the turn has one iteration. *)
Lemma iteration_limit_cex :
  Agent.maxIterations card_agent = 3%Q /\
  (forall r, In (CToolCall "call_1" "show_card" (JObj [])) (always_call_model r)) /\
  Agent.chatStream JSON_parse always_call_model card_tool reverse_settle card_agent
    ["show_card"] "hi" [] None =
  [EvIterationStart 1 3;
   EvToolCallStart "show_card" "call_1" (Some (JObj []));
   EvToolExecuting "show_card" "call_1" (JObj []);
   EvToolResult "show_card" card_result "call_1" false;
   EvImmediateResult "show_card" "call_1" card_result;
   EvIterationEnd 1; EvComplete 1].
Proof.
  split; [reflexivity|]. split; [intros r; simpl; auto|].
  vm_compute. reflexivity.
Qed.

(** C6 (counterexample): an error reported by the model stream is followed
    by the end of the iteration and by [COMPLETE]. *)
Lemma error_not_terminal_cex :
  Agent.chatStream JSON_parse error_model card_tool reverse_settle card_agent
    ["show_card"] "hi" [] None =
  [EvIterationStart 1 3; EvError "network down"; EvIterationEnd 1; EvComplete 1].
Proof. vm_compute. reflexivity. Qed.

(** C2 (counterexample): a model that issues the id [call_1] on every
    request; the [TOOL_RESULT] of the second iteration is preceded by two
    [TOOL_CALL_START] events with its id. *)
Lemma start_ids_repeat_cex :
  exists pre post,
    Agent.chatStream JSON_parse loop_model ok_tool reverse_settle plain_agent ["lookup"] "hi" [] None
      = app pre (EvToolResult "lookup" (JStr "ok") "call_1" false :: post) /\
    count_occ string_dec (start_ids pre) "call_1" = 2.
Proof.
  exists (firstn 14 (Agent.chatStream JSON_parse loop_model ok_tool reverse_settle plain_agent ["lookup"] "hi" [] None)),
         (skipn 15 (Agent.chatStream JSON_parse loop_model ok_tool reverse_settle plain_agent ["lookup"] "hi" [] None)).
  split; vm_compute; reflexivity.
Qed.

(* ================================================================== *)
(** ** The tag parser on every split of one reply *)

Lemma pb_drain_clock (now fuel : nat) (st : pb_state) :
  drain_avoids_todo fuel st = true -> pb_drain now fuel st = pb_drain 0 fuel st.
Proof.
  revert st; induction fuel as [|f IH]; intros st H; simpl in *; [reflexivity|].
  destruct (Nat.eqb (String.length (buffer st)) 0); [reflexivity|].
  assert (Hb : parseState st <> PTodo -> pb_body now st = pb_body 0 st)
    by (unfold pb_body; destruct (parseState st); congruence).
  destruct (parseState st) eqn:Hp; try discriminate;
    rewrite Hb by discriminate;
    destruct (pb_body 0 st) as [[st1 e1] [|]]; try reflexivity;
    rewrite IH by exact H; reflexivity.
Qed.

Lemma pb_text_delta_clock (now : nat) (st : pb_state) (d : string) :
  drain_avoids_todo (drain_fuel (fst (pb_prepare st d))) (fst (pb_prepare st d)) = true ->
  pb_text_delta now st d = pb_text_delta 0 st d.
Proof.
  unfold pb_text_delta. destruct (pb_prepare st d) as [st2 e0]. simpl. intros H.
  rewrite pb_drain_clock by exact H. reflexivity.
Qed.

Lemma think_valid_bounds (k i : nat) : think_valid k i = true -> k <= 26 /\ i <= 26.
Proof.
  unfold think_valid.
  destruct (Nat.leb_spec k 6); [rewrite Nat.eqb_eq; lia|].
  destruct (Nat.leb_spec k 20).
  - rewrite !Bool.andb_true_iff, !Nat.leb_le. lia.
  - rewrite !Bool.andb_true_iff, Nat.leb_le, Nat.eqb_eq. lia.
Qed.

Lemma think_table : think_table_ok = true.
Proof. vm_compute. reflexivity. Qed.

Lemma think_finish : think_finish_ok = true.
Proof. vm_compute. reflexivity. Qed.

Lemma fold_shape_app (r : shape_state) (a b : list event) :
  recognize r (app a b) = recognize (recognize r a) b.
Proof. unfold recognize. apply fold_left_app. Qed.

Lemma think_step (now k i k' : nat) :
  think_valid k i = true -> k <= k' <= 26 ->
  exists i' evs,
    pb_text_delta now (think_canon k i) (js_substring T8 k k') = (think_canon k' i', evs) /\
    recognize (think_rec k i) evs = think_rec k' i' /\ think_valid k' i' = true.
Proof.
  intros Hv Hk. destruct (think_valid_bounds _ _ Hv) as [Hk26 Hi26].
  pose proof think_table as T. unfold think_table_ok in T.
  pose proof (forallb_seq _ 0 27 k T ltac:(lia)) as T1. cbv beta in T1.
  pose proof (forallb_seq _ 0 27 i T1 ltac:(lia)) as T2. cbv beta in T2.
  rewrite Hv in T2. cbn [negb orb] in T2.
  pose proof (forallb_seq _ k (27 - k) k' T2 ltac:(lia)) as T3. cbv beta in T3.
  unfold think_step_ok in T3. cbv zeta in T3.
  destruct (pb_text_delta 0 (think_canon k i) (js_substring T8 k k')) as [st' evs] eqn:Ed.
  rewrite !Bool.andb_true_iff in T3. destruct T3 as [[[Hdr Hv'] Hst] Hr].
  rewrite pb_text_delta_clock by exact Hdr. rewrite Ed.
  destruct (pb_state_eq_dec _ _) as [E|]; [|discriminate].
  destruct (shape_state_eq_dec _ _) as [E'|]; [|discriminate].
  eexists; exists evs. rewrite <- E. split; [reflexivity|]. split; assumption.
Qed.

Lemma pb_stream_finish (now : nat) (st : pb_state) :
  snd (pb_stream now st [CFinish]) = snd (pb_finish st).
Proof. simpl. destruct (pb_finish st). simpl. apply app_nil_r. Qed.

Lemma think_frags (now : nat) (fs : list string) :
  forall k i, think_valid k i = true -> sdrop k T8 = strcat fs ->
  recognize (think_rec k i) (snd (pb_stream now (think_canon k i) (pb_text_chunks fs)))
  = RDone "hello " "world".
Proof.
  induction fs as [|f fs IH]; intros k i Hv Hs; destruct (think_valid_bounds _ _ Hv) as [Hk Hi].
  - assert (k = 26).
    { pose proof (sdrop_length k T8) as L. rewrite Hs in L. change (String.length T8) with 26 in L. cbn [strcat String.length] in L. lia. }
    subst k. change (pb_text_chunks []) with [CFinish]. rewrite pb_stream_finish.
    destruct (pb_finish (think_canon 26 i)) as [st1 e1] eqn:Ef. cbn [snd].
    pose proof think_finish as T. unfold think_finish_ok in T.
    pose proof (forallb_seq _ 0 27 i T ltac:(lia)) as T1. cbv beta in T1.
    rewrite Hv in T1. cbn [negb orb] in T1. rewrite Ef in T1. cbn [snd] in T1.
    destruct (shape_state_eq_dec _ _) as [E|]; [exact E | discriminate].
  - simpl in Hs.
    destruct (sapp_split f (strcat fs) (sdrop k T8) (eq_sym Hs)) as [H1 H2].
    rewrite sdrop_sdrop in H2.
    assert (Hk' : k + String.length f <= 26).
    { pose proof (sdrop_length k T8) as L. rewrite Hs, sapp_length in L. change (String.length T8) with 26 in L. lia. }
    assert (Hf : js_substring T8 k (k + String.length f) = f).
    { unfold js_substring. replace (k + String.length f - k) with (String.length f) by lia. exact H1. }
    destruct (think_step now k i (k + String.length f) Hv ltac:(lia)) as (i' & evs & Hd & Hr & Hv').
    rewrite Hf in Hd.
    change (pb_text_chunks (f :: fs)) with (CTextDelta f :: pb_text_chunks fs).
    simpl. rewrite Hd.
    destruct (pb_stream now (think_canon (k + String.length f) i') (pb_text_chunks fs)) as [st2 e2] eqn:Es.
    simpl. rewrite fold_shape_app, Hr.
    specialize (IH (k + String.length f) i' Hv' H2). rewrite Es in IH. exact IH.
Qed.

Lemma rec_cons (r : shape_state) (e : event) (evs : list event) :
  recognize r (e :: evs) = recognize (shape_step r e) evs.
Proof. reflexivity. Qed.

Lemma rec_fail (evs : list event) : recognize RFail evs = RFail.
Proof. induction evs as [|e evs IH]; [reflexivity|]. rewrite rec_cons. destruct e; exact IH. Qed.

Ltac rec_fail_out H := rewrite rec_fail in H; discriminate H.

Lemma rec_done (a t a' t' : string) (evs : list event) :
  recognize (RDone a t) evs = RDone a' t' -> evs = [] /\ a = a' /\ t = t'.
Proof.
  destruct evs as [|e evs]; intros H.
  - inversion H; auto.
  - rewrite rec_cons in H. destruct e; rec_fail_out H.
Qed.

Lemma rec_text (a t a' t' : string) (evs : list event) :
  recognize (RText a t) evs = RDone a' t' ->
  exists ws, evs = app (map EvTextDelta ws) [EvTextEnd] /\ a' = a /\ t' = t ++ strcat ws.
Proof.
  revert t; induction evs as [|e evs IH]; intros t H; [discriminate|].
  rewrite rec_cons in H.
  destruct e; cbn [shape_step] in H; try rec_fail_out H.
  - destruct (IH _ H) as (ws & -> & -> & ->). exists (content :: ws).
    split; [reflexivity|]. split; [reflexivity|]. simpl. apply sapp_assoc.
  - destruct (rec_done _ _ _ _ _ H) as (-> & -> & ->). exists [].
    split; [reflexivity|]. split; [reflexivity|]. simpl. symmetry; apply sapp_nil_r.
Qed.

Lemma rec_after (a a' t' : string) (evs : list event) :
  recognize (RAfterThink a) evs = RDone a' t' ->
  exists ws, evs = EvTextStart :: app (map EvTextDelta ws) [EvTextEnd] /\ a' = a /\ t' = strcat ws.
Proof.
  destruct evs as [|e evs]; intros H; [discriminate|].
  rewrite rec_cons in H. destruct e; cbn [shape_step] in H; try rec_fail_out H.
  destruct (rec_text _ _ _ _ _ H) as (ws & -> & -> & ->). exists ws. auto.
Qed.

Lemma rec_think (a a' t' : string) (evs : list event) :
  recognize (RThink a) evs = RDone a' t' ->
  exists ts ws, evs = app (map EvThinkingDelta ts)
                          (EvThinkingEnd :: EvTextStart :: app (map EvTextDelta ws) [EvTextEnd])
                /\ a' = a ++ strcat ts /\ t' = strcat ws.
Proof.
  revert a; induction evs as [|e evs IH]; intros a H; [discriminate|].
  rewrite rec_cons in H.
  destruct e; cbn [shape_step] in H; try rec_fail_out H.
  - destruct (IH _ H) as (ts & ws & -> & -> & ->). exists (content :: ts), ws.
    split; [reflexivity|]. split; [|reflexivity]. simpl. apply sapp_assoc.
  - destruct (rec_after _ _ _ _ H) as (ws & -> & -> & ->). exists [], ws.
    split; [reflexivity|]. split; [|reflexivity]. simpl. symmetry; apply sapp_nil_r.
Qed.

Lemma rec_init (a' t' : string) (evs : list event) :
  recognize RInit evs = RDone a' t' ->
  exists ts ws, evs = EvThinkingStart :: app (map EvThinkingDelta ts)
                          (EvThinkingEnd :: EvTextStart :: app (map EvTextDelta ws) [EvTextEnd])
                /\ a' = strcat ts /\ t' = strcat ws.
Proof.
  destruct evs as [|e evs]; intros H; [discriminate|].
  rewrite rec_cons in H. destruct e; cbn [shape_step] in H; try rec_fail_out H.
  destruct (rec_think _ _ _ _ H) as (ts & ws & -> & -> & ->). exists ts, ws. auto.
Qed.

(** C8: however the reply [<think>hello </think>world] is split into
    text fragments (empty fragments included), the text-convention parser
    emits one [THINKING_START], thinking deltas that concatenate to
    [hello ], one [THINKING_END], then [TEXT_START], text deltas that
    concatenate to [world], and [TEXT_END]; and nothing else. *)
Theorem think_split_invariant (now : nat) (fs : list string) :
  strcat fs = "<think>hello </think>world" ->
  exists ts ws,
    snd (pb_stream now pb_init (pb_text_chunks fs)) =
      EvThinkingStart :: app (map EvThinkingDelta ts)
        (EvThinkingEnd :: EvTextStart :: app (map EvTextDelta ws) [EvTextEnd])
    /\ strcat ts = "hello " /\ strcat ws = "world".
Proof.
  intros H.
  pose proof (think_frags now fs 0 0 eq_refl (eq_sym H)) as R.
  change (think_canon 0 0) with pb_init in R. change (think_rec 0 0) with RInit in R.
  destruct (rec_init _ _ _ R) as (ts & ws & E & Ha & Ht).
  exists ts, ws. auto.
Qed.

Lemma think_split_invariant_witness :
  strcat ["<th"; "ink>hel"; "lo </thi"; "nk>wor"; "ld"] = "<think>hello </think>world" /\
  exists ts ws,
    snd (pb_stream 5 pb_init (pb_text_chunks ["<th"; "ink>hel"; "lo </thi"; "nk>wor"; "ld"])) =
      EvThinkingStart :: app (map EvThinkingDelta ts)
        (EvThinkingEnd :: EvTextStart :: app (map EvTextDelta ws) [EvTextEnd])
    /\ strcat ts = "hello " /\ strcat ws = "world".
Proof.
  split; [reflexivity|].
  apply (think_split_invariant 5 ["<th"; "ink>hel"; "lo </thi"; "nk>wor"; "ld"]).
  reflexivity.
Defined.

(* ================================================================== *)
(** ** [Promise.all] *)

(* ================================================================== *)
(** ** [Promise.all] *)

Lemma list_set_length {A} (l : list A) (i : nat) (x : A) : length (list_set l i x) = length l.
Proof. revert i; induction l as [|y l IH]; intros [|i]; simpl; auto. Qed.

Lemma nth_error_list_set {A} (l : list A) (i j : nat) (x : A) :
  nth_error (list_set l i x) j =
    if Nat.eqb i j then match nth_error l j with Some _ => Some x | None => None end
    else nth_error l j.
Proof.
  revert i j; induction l as [|y l IH]; intros i j.
  - destruct i, j; simpl; try reflexivity; destruct (Nat.eqb i j); reflexivity.
  - destruct i, j; simpl; auto.
Qed.

Lemma all_settled_some {A} (slots : list (option A)) (ys : list A) :
  all_settled slots = Some ys -> slots = map Some ys.
Proof.
  revert ys; induction slots as [|[x|] slots IH]; intros ys H; simpl in H.
  - inversion H; reflexivity.
  - destruct (all_settled slots) as [xs|] eqn:E; [|discriminate].
    inversion H; subst. simpl. f_equal. apply IH; reflexivity.
  - discriminate.
Qed.

Lemma all_settled_full {A} (slots : list (option A)) :
  (forall i, i < length slots -> exists x, nth_error slots i = Some (Some x)) ->
  exists ys, all_settled slots = Some ys.
Proof.
  induction slots as [|s slots IH]; intros H; simpl; [eauto|].
  destruct (H 0 ltac:(simpl; lia)) as [x Hx]. simpl in Hx. inversion Hx; subst.
  destruct IH as [ys Hys].
  { intros i Hi. destruct (H (S i) ltac:(simpl; lia)) as [y Hy]. eauto. }
  rewrite Hys. eauto.
Qed.

Lemma nth_error_ext_some {A} (l1 l2 : list A) :
  length l1 = length l2 -> (forall i x, nth_error l1 i = Some x -> nth_error l2 i = Some x) -> l1 = l2.
Proof.
  revert l2; induction l1 as [|x l1 IH]; intros [|y l2] Hl H; simpl in Hl; try discriminate; auto.
  pose proof (H 0 x eq_refl) as H0. simpl in H0. inversion H0; subst.
  f_equal. apply IH; [lia|]. intros i z Hz. exact (H (S i) z Hz).
Qed.

Section PromiseAll.
Context {A : Type} (values : list A).

Let fill (slots : list (option A)) (i : nat) : list (option A) := list_set slots i (nth_error values i).

Lemma promise_fold (order : list nat) : forall slots,
  length slots = length values ->
  (forall i x, nth_error slots i = Some (Some x) -> nth_error values i = Some x) ->
  let r := fold_left fill order slots in
  length r = length values /\
  (forall i x, nth_error r i = Some (Some x) -> nth_error values i = Some x) /\
  (forall i, i < length values -> (In i order \/ exists x, nth_error slots i = Some (Some x)) ->
             exists x, nth_error r i = Some (Some x)).
Proof.
  induction order as [|a order IH]; intros slots Hl Hv; simpl.
  - split; [exact Hl|]. split; [exact Hv|]. intros i _ [[]|H]; exact H.
  - assert (Hl' : length (fill slots a) = length values) by (unfold fill; rewrite list_set_length; exact Hl).
    assert (Hv' : forall i x, nth_error (fill slots a) i = Some (Some x) -> nth_error values i = Some x).
    { intros i x. unfold fill. rewrite nth_error_list_set.
      destruct (Nat.eqb a i) eqn:E; [|apply Hv].
      apply Nat.eqb_eq in E; subst. destruct (nth_error slots i); [|discriminate].
      intros H; inversion H; reflexivity. }
    destruct (IH _ Hl' Hv') as (H1 & H2 & H3). split; [exact H1|]. split; [exact H2|].
    intros i Hi Hin. apply H3; [exact Hi|].
    destruct Hin as [[Ha|Hin]|Hx]; [| left; exact Hin |]; right.
    + subst a. unfold fill. rewrite nth_error_list_set, Nat.eqb_refl.
      destruct (nth_error slots i) eqn:Es; [|apply nth_error_None in Es; lia].
      destruct (nth_error values i) eqn:Ev; [eauto|]. apply nth_error_None in Ev. lia.
    + destruct Hx as [x Hx]. unfold fill. rewrite nth_error_list_set, Hx.
      destruct (Nat.eqb a i) eqn:E; [|eauto].
      apply Nat.eqb_eq in E; subst. rewrite (Hv _ _ Hx). eauto.
Qed.

Lemma promise_all_values (order : list nat) (ys : list A) :
  promise_all order values = Some ys -> ys = values.
Proof.
  unfold promise_all. intros H.
  destruct (promise_fold order (map (fun _ => None) values)) as (H1 & H2 & _).
  - apply length_map.
  - intros i x Hx. rewrite nth_error_map in Hx. destruct (nth_error values i); discriminate.
  - fold fill in H. apply all_settled_some in H. rewrite H in H1, H2.
    rewrite length_map in H1. apply nth_error_ext_some; [exact H1|].
    intros i x Hx. apply H2. rewrite nth_error_map, Hx. reflexivity.
Qed.

Lemma promise_all_settles (order : list nat) :
  (forall i, i < length values -> In i order) -> promise_all order values = Some values.
Proof.
  intros Hc. unfold promise_all.
  destruct (promise_fold order (map (fun _ => None) values)) as (H1 & H2 & H3).
  - apply length_map.
  - intros i x Hx. rewrite nth_error_map in Hx. destruct (nth_error values i); discriminate.
  - fold fill. destruct (all_settled_full (fold_left fill order (map (fun _ => None) values))) as [ys Hys].
    + intros i Hi. rewrite H1 in Hi. apply H3; [exact Hi|]. left. apply Hc, Hi.
    + rewrite Hys. f_equal. apply promise_all_values with (order := order).
      unfold promise_all. fold fill. exact Hys.
Qed.
End PromiseAll.

(* ================================================================== *)
(** ** The main stream of [Agent.chatStream] *)

Lemma on_text_delta_facts (st : Agent.it_state) (d : string) :
  Agent.toolCalls (fst (Agent.on_text_delta st d)) = Agent.toolCalls st /\
  Agent.sentToolCallStarts (fst (Agent.on_text_delta st d)) = Agent.sentToolCallStarts st /\
  forallb is_text_event (snd (Agent.on_text_delta st d)) = true.
Proof.
  destruct st. unfold Agent.on_text_delta.
  repeat (destr_inner || (split; [reflexivity|split; reflexivity])).
Qed.

Lemma on_finish_facts (st : Agent.it_state) :
  Agent.toolCalls (fst (Agent.on_finish st)) = Agent.toolCalls st /\
  Agent.sentToolCallStarts (fst (Agent.on_finish st)) = Agent.sentToolCallStarts st /\
  forallb is_text_event (snd (Agent.on_finish st)) = true.
Proof.
  destruct st. unfold Agent.on_finish.
  repeat (destr_inner || (split; [reflexivity|split; reflexivity])).
Qed.

Lemma subseq_nil_l {A} (l : list A) : subseq [] l.
Proof. induction l; constructor; assumption. Qed.

Lemma subseq_app {A} (a b c d : list A) : subseq a b -> subseq c d -> subseq (a ++ c) (b ++ d).
Proof.
  intros H1 H2. induction H1; simpl; auto; constructor; assumption.
Qed.

Lemma subseq_snoc_r {A} (l1 l2 : list A) (x : A) : subseq l1 l2 -> subseq l1 (l2 ++ [x]).
Proof. intros H. rewrite <- (app_nil_r l1). apply subseq_app; [exact H|]. constructor; constructor. Qed.

Lemma subseq_snoc {A} (l1 l2 : list A) (x : A) : subseq l1 l2 -> subseq (l1 ++ [x]) (l2 ++ [x]).
Proof. intros H. apply subseq_app; [exact H|]. constructor; constructor. Qed.

Lemma subseq_incl {A} (l1 l2 : list A) : subseq l1 l2 -> incl l1 l2.
Proof.
  intros H; induction H; intros y Hy; simpl in *; auto.
  destruct Hy; auto.
Qed.

Lemma forallb_text_stream (e : list event) :
  forallb is_text_event e = true -> forallb is_stream_event e = true.
Proof.
  induction e as [|x e IH]; simpl; auto. rewrite !Bool.andb_true_iff. intros [H1 H2].
  split; [destruct x; simpl in *; auto | auto].
Qed.

Lemma text_start_ids (e : list event) : forallb is_text_event e = true -> start_ids e = [].
Proof.
  induction e as [|x e IH]; simpl; auto. rewrite Bool.andb_true_iff. intros [H1 H2].
  destruct x; try discriminate; simpl; auto.
Qed.

Lemma existsb_eqb_false (id : string) (l : list string) : existsb (String.eqb id) l = false -> ~ In id l.
Proof.
  intros H Hin. assert (existsb (String.eqb id) l = true); [|congruence].
  apply existsb_exists. exists id. split; [exact Hin | apply String.eqb_refl].
Qed.

Lemma start_ids_app_eq (a b : list event) : start_ids (app a b) = app (start_ids a) (start_ids b).
Proof. unfold start_ids. apply flat_map_app. Qed.

Ltac oc_close :=
  first [ reflexivity | assumption | discriminate
        | apply incl_refl | apply incl_tl, incl_refl | apply incl_appr, incl_refl
        | (exists []; rewrite app_nil_r; reflexivity)
        | (apply forallb_text_stream; assumption)
        | (intros; assumption)
        | (eexists; reflexivity)
        | (intros Hs; apply subseq_snoc_r; exact Hs)
        | (rewrite map_app; intros Hs; apply subseq_snoc; exact Hs)
        | (intros _ Hl; rewrite length_app; simpl; lia)
        | match goal with
          | E : existsb (String.eqb ?id) ?snt = false |- NoDup _ -> NoDup _ =>
              intros Hn; constructor; [apply existsb_eqb_false; exact E | exact Hn]
          | E : existsb (String.eqb ?id) ?snt = true |- _ =>
              intros ? ? ? _; destruct snt; [discriminate E | discriminate]
          end ].

Lemma on_chunk_facts (st : Agent.it_state) (c : chunk) :
  let '(st1, e) := Agent.on_chunk st c in
  forallb is_stream_event e = true /\
  sent st1 = app (rev (start_ids e)) (sent st) /\
  (NoDup (sent st) -> NoDup (sent st1)) /\
  (subseq (call_ids st) (rev (sent st)) -> subseq (call_ids st1) (rev (sent st1))) /\
  incl (sent st1) (app (chunk_ids [c]) (sent st)) /\
  (exists l, Agent.toolCalls st1 = app (Agent.toolCalls st) l) /\
  (no_streaming_start [c] = true -> length (sent st) = length (Agent.toolCalls st) ->
   length (sent st1) = length (Agent.toolCalls st1)) /\
  (forall id nm args, c = CToolCall id nm args -> sent st1 <> []).
Proof.
  destruct st as [ft tcs cur hst hsr snt inside tb]. unfold sent, call_ids.
  destruct c as [d|d|id nm args|id nm|id d| |e|]; cbn [Agent.on_chunk];
  [ destruct hsr
  | pose proof (on_text_delta_facts (Agent.mk_it ft tcs cur hst hsr snt inside tb) d) as (H1 & H2 & H3);
    destruct (Agent.on_text_delta _ d) as [st1 e]; simpl in *;
    rewrite (text_start_ids _ H3); simpl; rewrite H1, H2
  | destruct (existsb (String.eqb id) snt) eqn:E; simpl
  | destruct (existsb (String.eqb id) snt) eqn:E; simpl
  | destruct cur as [[[cid cname] argsText]|]; simpl
  | pose proof (on_finish_facts (Agent.mk_it ft tcs cur hst hsr snt inside tb)) as (H1 & H2 & H3);
    destruct (Agent.on_finish _) as [st1 e]; simpl in *;
    rewrite (text_start_ids _ H3); simpl; rewrite H1, H2
  | idtac | idtac ].
  all: repeat split; simpl; try oc_close.
Qed.

Lemma run_stream_facts (cs : list chunk) : forall (st st' : Agent.it_state) (e : list event),
  Agent.run_stream st cs = (st', e) ->
  forallb is_stream_event e = true /\
  sent st' = app (rev (start_ids e)) (sent st) /\
  (NoDup (sent st) -> NoDup (sent st')) /\
  (subseq (call_ids st) (rev (sent st)) -> subseq (call_ids st') (rev (sent st'))) /\
  incl (sent st') (app (chunk_ids cs) (sent st)) /\
  (no_streaming_start cs = true -> length (sent st) = length (Agent.toolCalls st) ->
   length (sent st') = length (Agent.toolCalls st')) /\
  ((exists id nm args, In (CToolCall id nm args) cs) -> sent st' <> []).
Proof.
  induction cs as [|c cs IH]; intros st st' e H; simpl in H.
  - inversion H; subst. repeat split; auto using incl_refl.
    intros (? & ? & ? & []).
  - pose proof (on_chunk_facts st c) as Hc.
    destruct (Agent.on_chunk st c) as [st1 e1].
    destruct (Agent.run_stream st1 cs) as [st2 e2] eqn:Hr. inversion H; subst.
    destruct Hc as (C1 & C2 & C3 & C4 & C5 & _ & C7 & C8).
    destruct (IH _ _ _ Hr) as (R1 & R2 & R3 & R4 & R5 & R6 & R7).
    assert (Hns : no_streaming_start (c :: cs) = true ->
                  no_streaming_start [c] = true /\ no_streaming_start cs = true).
    { unfold no_streaming_start. simpl. rewrite Bool.andb_true_iff. intros [A B]. rewrite A. auto. }
    split; [rewrite forallb_app, C1, R1; reflexivity|].
    split; [rewrite R2, C2, start_ids_app_eq, rev_app_distr, app_assoc; reflexivity|].
    split; [auto|]. split; [auto|].
    split.
    { intros y Hy. apply R5 in Hy. apply in_app_or in Hy. destruct Hy as [Hy|Hy].
      - simpl. apply in_or_app. left. apply in_or_app. right. exact Hy.
      - apply C5 in Hy. apply in_app_or in Hy. destruct Hy as [Hy|Hy].
        + simpl in Hy. apply in_or_app. left. apply in_or_app. left. rewrite app_nil_r in Hy. exact Hy.
        + apply in_or_app. right. exact Hy. }
    split.
    { intros Hn Hl. destruct (Hns Hn). apply R6; auto. }
    { intros (id & nm & args & [Hin|Hin]).
      - subst c. rewrite R2. specialize (C8 id nm args eq_refl).
        destruct (sent st1); [contradiction|]. destruct (rev (start_ids e2)); discriminate.
      - apply R7. eauto. }
Qed.

Lemma run_stream_init (cs : list chunk) (st : Agent.it_state) (e : list event) :
  Agent.run_stream Agent.it_init cs = (st, e) ->
  forallb is_stream_event e = true /\ NoDup (start_ids e) /\
  subseq (map tc_id (Agent.toolCalls st)) (start_ids e) /\ incl (start_ids e) (chunk_ids cs) /\
  (no_streaming_start cs = true -> (exists id nm args, In (CToolCall id nm args) cs) ->
   Agent.toolCalls st <> []).
Proof.
  intros H. destruct (run_stream_facts cs _ _ _ H) as (R1 & R2 & R3 & R4 & R5 & R6 & R7).
  unfold sent, call_ids in *. simpl in *. rewrite app_nil_r in R2, R5. rewrite R2 in *.
  split; [exact R1|]. split.
  { rewrite <- (rev_involutive (start_ids e)). apply NoDup_rev. apply R3. constructor. }
  split.
  { rewrite rev_involutive in R4. apply R4. constructor. }
  split.
  { intros y Hy. apply R5. apply in_rev. rewrite rev_involutive. exact Hy. }
  intros Hn Hc Ht. specialize (R6 Hn eq_refl). specialize (R7 Hc).
  rewrite Ht in R6. simpl in R6. destruct (rev (start_ids e)); [contradiction | discriminate].
Qed.

(* ================================================================== *)
(** ** One iteration of [Agent.chatStream] *)

Section AgentTurn.
Variable json_parse : string -> option jsval.
Variable stream_text : stream_request -> list chunk.
Variable call_tool : string -> jsval -> outcome.
Variable settle_order : nat -> nat -> list nat.

Lemma thinking_deltas_text (cs : list chunk) : forallb is_text_event (snd (Agent.thinking_deltas cs)) = true.
Proof.
  induction cs as [|c cs IH]; [reflexivity|].
  destruct c; simpl; try exact IH.
  destruct (Agent.thinking_deltas cs) as [c e]. simpl in *. exact IH.
Qed.

Lemma thinking_phase_facts (a : Agent.agent) (ht : bool) (msgs msgs1 : list message) (e1 : list event) :
  Agent.thinking_phase json_parse stream_text a ht msgs = (msgs1, e1) ->
  length msgs <= length msgs1 /\ forallb is_text_event e1 = true.
Proof.
  unfold Agent.thinking_phase.
  destruct (Agent.enableThinkingPhase a && ht); [|intros H; inversion H; subst; auto].
  pose proof (thinking_deltas_text (stream_text (ThinkingRequest (Agent.thinking_messages json_parse a msgs)))) as T.
  destruct (Agent.thinking_deltas _) as [content ds]. simpl in T.
  intros H; inversion H; subst. split.
  - destruct (String.eqb content ""); [lia|]. rewrite length_app. simpl. lia.
  - simpl. rewrite forallb_app, T. reflexivity.
Qed.

Lemma emit_results_facts (ms : list matcher) (rs : list (tool_call * jsval * bool)) :
  forall e4 h, Agent.emit_results json_parse ms rs = (e4, h) ->
  result_ids e4 = map (fun r => tc_id (fst (fst r))) rs /\
  tool_results e4 = map (fun r => let '(tc, v, err) := r in (tc_name tc, v, tc_id tc, err)) rs /\
  start_ids e4 = [] /\ executing_ids e4 = [] /\ executing_calls e4 = [] /\ no_iter e4 = true /\
  (h = false -> forallb (fun e => negb (is_immediate e)) e4 = true) /\
  (forall p nm id v q, e4 = app p (EvImmediateResult nm id v :: q) ->
     exists p', p = app p' [EvToolResult nm v id false]).
Proof.
  induction rs as [|[[tc v] err] rs IH]; intros e4 h H; simpl in H.
  - inversion H; subst. repeat split; auto.
    intros p nm id v q Hp. destruct p; discriminate.
  - destruct (Agent.emit_results json_parse ms rs) as [evs h'] eqn:Er.
    destruct (IH _ _ eq_refl) as (I1 & I2 & I3 & I4 & I5 & I6 & I7 & I8).
    inversion H; subst. clear H.
    set (imm := negb err && matchImmediateResult json_parse ms v).
    destruct imm eqn:Ei; simpl.
    + rewrite I1, I2, I3, I4, I5, I6. repeat split; auto.
      intros p nm id w q Hp.
      destruct p as [|x p]; [discriminate|]. injection Hp as <- Hp.
      destruct p as [|y p].
      * injection Hp as -> -> -> <-. exists [].
        unfold imm in Ei. destruct err; [discriminate|]. reflexivity.
      * injection Hp as <- Hp. destruct (I8 _ _ _ _ _ Hp) as [p' ->].
        exists (EvToolResult (tc_name tc) v (tc_id tc) err :: EvImmediateResult (tc_name tc) (tc_id tc) v :: p').
        reflexivity.
    + rewrite I1, I2, I3, I4, I5, I6. repeat split; auto.
      intros p nm id w q Hp.
      destruct p as [|x p]; [discriminate|]. injection Hp as <- Hp.
      destruct (I8 _ _ _ _ _ Hp) as [p' ->].
      exists (EvToolResult (tc_name tc) v (tc_id tc) err :: p'). reflexivity.
Qed.

Lemma run_tools_some (a : Agent.agent) (it : nat) (tcs : list tool_call) rs :
  Agent.run_tools call_tool settle_order a it tcs = Some rs -> rs = map (Agent.exec_call call_tool) tcs.
Proof.
  unfold Agent.run_tools. destruct (Agent.parallelToolCalls a && (1 <? length tcs)).
  - apply promise_all_values.
  - intros H; inversion H; reflexivity.
Qed.

Lemma run_tools_settles (a : Agent.agent) (it : nat) (tcs : list tool_call) :
  settle_covers settle_order ->
  Agent.run_tools call_tool settle_order a it tcs = Some (map (Agent.exec_call call_tool) tcs).
Proof.
  intros Hc. unfold Agent.run_tools. destruct (Agent.parallelToolCalls a && (1 <? length tcs)); [|reflexivity].
  apply promise_all_settles. intros i Hi. apply Hc. rewrite length_map in Hi. exact Hi.
Qed.

Lemma body_decomp (a : Agent.agent) (ht : bool) (it : nat) (msgs : list message)
    (evs : list event) (k : Agent.iter_end) :
  Agent.iteration_body json_parse stream_text call_tool settle_order a ht it msgs = (evs, k) ->
  exists msgs1 e1 e2 st,
    Agent.thinking_phase json_parse stream_text a ht msgs = (msgs1, e1) /\
    Agent.run_stream Agent.it_init (stream_text (MainRequest msgs1 ht)) = (st, e2) /\
    ((Agent.toolCalls st = [] /\
      evs = EvIterationStart it (Agent.maxIterations a) :: app (app e1 e2) [EvIterationEnd it] /\
      k = Agent.Break)
     \/ (Agent.toolCalls st <> [] /\
         Agent.run_tools call_tool settle_order a it (Agent.toolCalls st) = None /\
         evs = EvIterationStart it (Agent.maxIterations a) :: app (app e1 e2) (exec_events (Agent.toolCalls st)) /\
         k = Agent.Hang)
     \/ (Agent.toolCalls st <> [] /\ exists e4 h,
         Agent.run_tools call_tool settle_order a it (Agent.toolCalls st)
           = Some (map (Agent.exec_call call_tool) (Agent.toolCalls st)) /\
         Agent.emit_results json_parse (Agent.immediateResultMatchers a)
           (map (Agent.exec_call call_tool) (Agent.toolCalls st)) = (e4, h) /\
         evs = EvIterationStart it (Agent.maxIterations a)
                 :: app (app e1 e2) (app (exec_events (Agent.toolCalls st)) (app e4 [EvIterationEnd it])) /\
         (if h then k = Agent.Break
          else exists msgs', k = Agent.Continue msgs' /\ length msgs1 < length msgs'))).
Proof.
  unfold Agent.iteration_body.
  destruct (Agent.thinking_phase json_parse stream_text a ht msgs) as [msgs1 e1] eqn:Et.
  destruct (Agent.run_stream Agent.it_init (stream_text (MainRequest msgs1 ht))) as [st e2] eqn:Es.
  intros H. exists msgs1, e1, e2, st. split; [first [reflexivity | assumption]|]. split; [first [reflexivity | assumption]|].
  destruct (Agent.toolCalls st) as [|tc tcs] eqn:Etc.
  - inversion H; subst. left. auto.
  - right. destruct (Agent.run_tools call_tool settle_order a it (tc :: tcs)) as [rs|] eqn:Er.
    + right. split; [discriminate|].
      pose proof (run_tools_some _ _ _ _ Er) as Hrs. subst rs.
      destruct (Agent.emit_results json_parse (Agent.immediateResultMatchers a)
                  (map (Agent.exec_call call_tool) (tc :: tcs))) as [e4 h] eqn:Ee.
      exists e4, h. split; [reflexivity|]. split; [reflexivity|].
      destruct h; inversion H; subst.
      * split; reflexivity.
      * split; [reflexivity|]. eexists. split; [reflexivity|].
        rewrite length_app. simpl. lia.
    + left. inversion H; subst. split; [discriminate|]. auto.
Qed.

End AgentTurn.

(* ================================================================== *)
(** ** One iteration of [PromptBasedAgent.chatStream] *)

Lemma todo_item_adds_pb (tid : string) (n : nat) (items : list string) :
  forallb is_pb_event (todo_item_adds tid n items) = true.
Proof. revert n; induction items as [|x items IH]; intros n; simpl; auto. Qed.

Ltac pb_close :=
  repeat (destr_inner || (progress cbn [flat_map app fst snd]));
  split; (reflexivity || (cbn; rewrite ?todo_item_adds_pb; reflexivity)).

Lemma pb_normal_facts (st : pb_state) :
  fullResponse (fst (fst (pb_normal_step st))) = fullResponse st /\
  forallb is_pb_event (snd (fst (pb_normal_step st))) = true.
Proof.
  unfold pb_normal_step, emit_text.
  destruct (regex_exec fake_tool_result_re (buffer st)); [split; reflexivity|].
  cbv zeta.
  destruct (sort_markers _) as [|[ty pos] rest]; [pb_close|].
  destruct ((0 <? pos) && nonblank (stake pos (buffer st)) && hasEndedThinking st);
    [destruct (hasStartedText st)|]; destruct ty; pb_close.
Qed.

Lemma pb_body_facts (now : nat) (st : pb_state) :
  fullResponse (fst (fst (pb_body now st))) = fullResponse st /\
  forallb is_pb_event (snd (fst (pb_body now st))) = true.
Proof.
  unfold pb_body. destruct (parseState st); [apply pb_normal_facts| | |];
    unfold pb_think_step, pb_todo_step, pb_toolcall_step; pb_close.
Qed.

Lemma pb_drain_facts (now fuel : nat) : forall st,
  fullResponse (fst (pb_drain now fuel st)) = fullResponse st /\
  forallb is_pb_event (snd (pb_drain now fuel st)) = true.
Proof.
  induction fuel as [|f IH]; intros st; simpl; [auto|].
  destruct (Nat.eqb (String.length (buffer st)) 0); [simpl; auto|].
  pose proof (pb_body_facts now st) as [B1 B2].
  destruct (pb_body now st) as [[st1 e1] p]. simpl in *.
  destruct p.
  - destruct (IH st1) as [I1 I2]. destruct (pb_drain now f st1) as [st2 e2]. simpl in *.
    rewrite I1, B1, forallb_app, B2, I2. auto.
  - simpl. auto.
Qed.

Lemma pb_chunk_facts (now : nat) (st : pb_state) (c : chunk) :
  fullResponse (fst (pb_chunk now st c)) = fullResponse st ++ text_of [c] /\
  forallb is_pb_event (snd (pb_chunk now st c)) = true.
Proof.
  unfold text_of.
  destruct c as [d|d|id nm args|id nm|id d| |e|]; cbn [pb_chunk flat_map app strcat];
    rewrite ?sapp_nil_r; try (split; reflexivity).
  - unfold pb_reasoning.
    destruct (hasStartedThinking (with_nativeReasoning st)), (String.eqb d ""); split; reflexivity.
  - unfold pb_text_delta, pb_prepare.
    destruct (hasNativeReasoning st && negb (hasEndedThinking st)); cbv zeta;
    match goal with
    | |- context [pb_drain now ?f ?s] =>
        destruct (pb_drain_facts now f s) as [D1 D2]; destruct (pb_drain now f s) as [st3 e3]
    end; cbn [fst snd] in *;
    (split; [rewrite D1; repeat destr_inner; reflexivity | rewrite forallb_app, D2; reflexivity]).
  - unfold pb_finish, emit_text. repeat destr_inner; split; reflexivity.
Qed.

Lemma strcat_app (a b : list string) : strcat (a ++ b) = strcat a ++ strcat b.
Proof. induction a as [|x a IH]; simpl; [reflexivity|]. rewrite IH. symmetry. apply sapp_assoc. Qed.

Lemma text_of_cons (c : chunk) (cs : list chunk) : text_of (c :: cs) = text_of [c] ++ text_of cs.
Proof. unfold text_of. cbn [flat_map]. rewrite app_nil_r, strcat_app. reflexivity. Qed.

Lemma pb_stream_facts (now : nat) (cs : list chunk) : forall st,
  fullResponse (fst (pb_stream now st cs)) = fullResponse st ++ text_of cs /\
  forallb is_pb_event (snd (pb_stream now st cs)) = true.
Proof.
  induction cs as [|c cs IH]; intros st; simpl.
  - rewrite sapp_nil_r. auto.
  - destruct (pb_chunk_facts now st c) as [C1 C2].
    destruct (pb_chunk now st c) as [st1 e1]. simpl in *.
    destruct (IH st1) as [I1 I2]. destruct (pb_stream now st1 cs) as [st2 e2]. simpl in *.
    rewrite forallb_app, C2, I2. split; [|reflexivity].
    rewrite I1, C1, (text_of_cons c cs), sapp_assoc. reflexivity.
Qed.

Lemma pb_event_kinds (e : list event) :
  forallb is_pb_event e = true ->
  no_iter e = true /\ (forall x, ~ In (EvError x) e) /\ tool_results e = [] /\ executing_calls e = [].
Proof.
  induction e as [|x e IH]; simpl; [repeat split; auto|].
  rewrite Bool.andb_true_iff. intros [H1 H2]. destruct (IH H2) as (I1 & I2 & I3 & I4).
  destruct x; try discriminate; simpl; rewrite ?I1, ?I3, ?I4; repeat split; auto;
    intros y [Hy|Hy]; try discriminate; exact (I2 y Hy).
Qed.

Section PBTurn.
Variable json_parse : string -> option jsval.
Variable stream_text : stream_request -> list chunk.
Variable call_tool : string -> jsval -> outcome.
Variable json_stringify : jsval -> string.
Variable clock : nat -> nat.

Lemma pb_iter_facts (it : nat) (msgs : list message) (evs : list event) (k : option (list message)) :
  PromptBasedAgent.iteration_body json_parse stream_text call_tool json_stringify clock it msgs = (evs, k) ->
  exists mid, evs = app mid [EvIterationEnd it] /\ no_iter mid = true /\
    (forall x, ~ In (EvError x) mid) /\
    tool_results mid = map (expected_result call_tool) (executing_calls mid) /\
    (k = None <-> parseToolCall json_parse (text_of (stream_text (MainRequest msgs false))) = None).
Proof.
  unfold PromptBasedAgent.iteration_body.
  pose proof (pb_stream_facts (clock it) (stream_text (MainRequest msgs false)) pb_init) as [F1 F2].
  destruct (pb_stream (clock it) pb_init (stream_text (MainRequest msgs false))) as [st e1].
  simpl in F1, F2. rewrite F1. destruct (pb_event_kinds _ F2) as (K1 & K2 & K3 & K4).
  destruct (parseToolCall json_parse (text_of (stream_text (MainRequest msgs false)))) as [[name args]|].
  - destruct (call_tool name args) as [v|ex] eqn:Ec; intros H; inversion H; subst; clear H;
      match goal with |- exists mid, app e1 (?a :: ?b :: ?c :: ?d) = _ /\ _ =>
        exists (app e1 [a; b; c]) end;
      (split; [rewrite <- app_assoc; reflexivity|]);
      unfold no_iter, tool_results, executing_calls in *;
      rewrite ?forallb_app, ?flat_map_app, ?K1, ?K3, ?K4; simpl; rewrite ?Ec;
      (split; [reflexivity|]);
      (split; [intros x Hx; apply in_app_or in Hx; destruct Hx as [Hx|[Hx|[Hx|[Hx|[]]]]];
               [exact (K2 x Hx) | discriminate | discriminate | discriminate]|]);
      (split; [reflexivity|]); split; discriminate.
  - intros H; inversion H; subst. exists e1. rewrite K3, K4. repeat split; auto.
Qed.

Lemma pb_loop_no_error (maxIterations : Q) (fuel : nat) : forall it msgs x,
  ~ In (EvError x) (fst (PromptBasedAgent.pb_loop json_parse stream_text call_tool json_stringify clock
                           maxIterations fuel it msgs)).
Proof.
  induction fuel as [|f IH]; intros it msgs x; simpl; [auto|].
  destruct (num_lt it maxIterations); [|simpl; auto].
  destruct (PromptBasedAgent.iteration_body json_parse stream_text call_tool json_stringify clock (S it) msgs)
    as [evs k] eqn:Eb.
  destruct (pb_iter_facts _ _ _ _ Eb) as (mid & -> & _ & Hn & _).
  assert (Hs : ~ In (EvError x) (EvIterationStart (S it) maxIterations :: app mid [EvIterationEnd (S it)])).
  { intros [Hx|Hx]; [discriminate|]. apply in_app_or in Hx. destruct Hx as [Hx|[Hx|[]]];
      [exact (Hn x Hx) | discriminate]. }
  destruct k as [msgs'|]; [|exact Hs].
  specialize (IH (S it) msgs' x).
  destruct (PromptBasedAgent.pb_loop json_parse stream_text call_tool json_stringify clock maxIterations f (S it) msgs')
    as [evs' n]. simpl in *. intros Hx. change (In (EvError x) (app (EvIterationStart (S it) maxIterations :: app mid [EvIterationEnd (S it)]) evs')) in Hx.
  apply in_app_or in Hx. destruct Hx; contradiction.
Qed.

End PBTurn.

(* ================================================================== *)
(** ** The loop of [Agent.chatStream] *)

Lemma stream_event_kinds (e : list event) :
  forallb is_stream_event e = true ->
  no_iter e = true /\ no_imm e = true /\ result_ids e = [] /\ executing_ids e = [] /\
  executing_calls e = [] /\ tool_results e = [].
Proof.
  induction e as [|x e IH]; simpl; [repeat split; auto|].
  rewrite Bool.andb_true_iff. intros [H1 H2]. destruct (IH H2) as (I1 & I2 & I3 & I4 & I5 & I6).
  unfold no_iter, no_imm, result_ids, executing_ids, executing_calls, tool_results in *.
  destruct x; try discriminate; simpl; rewrite ?I1, ?I2, ?I3, ?I4, ?I5, ?I6; repeat split; auto.
Qed.

Lemma exec_events_facts (tcs : list tool_call) :
  no_iter (exec_events tcs) = true /\ no_imm (exec_events tcs) = true /\
  result_ids (exec_events tcs) = [] /\ start_ids (exec_events tcs) = [] /\
  executing_ids (exec_events tcs) = map tc_id tcs /\
  executing_calls (exec_events tcs) = map call_triple tcs /\ tool_results (exec_events tcs) = [].
Proof.
  induction tcs as [|tc tcs IH]; simpl; [repeat split; auto|].
  destruct IH as (I1 & I2 & I3 & I4 & I5 & I6 & I7).
  unfold no_iter, no_imm, result_ids, start_ids, executing_ids, executing_calls, tool_results in *.
  simpl. rewrite I1, I2, I3, I4, I5, I6, I7. repeat split; auto.
Qed.

Lemma no_iter_app (a b : list event) : no_iter (app a b) = no_iter a && no_iter b.
Proof. apply forallb_app. Qed.

Lemma no_imm_app (a b : list event) : no_imm (app a b) = no_imm a && no_imm b.
Proof. apply forallb_app. Qed.

Lemma result_ids_app (a b : list event) : result_ids (app a b) = app (result_ids a) (result_ids b).
Proof. apply flat_map_app. Qed.

Lemma executing_ids_app (a b : list event) : executing_ids (app a b) = app (executing_ids a) (executing_ids b).
Proof. apply flat_map_app. Qed.

Lemma executing_calls_app (a b : list event) : executing_calls (app a b) = app (executing_calls a) (executing_calls b).
Proof. apply flat_map_app. Qed.

Lemma tool_results_app (a b : list event) : tool_results (app a b) = app (tool_results a) (tool_results b).
Proof. apply flat_map_app. Qed.

(** Where an element [x] of [a ++ b] lies. *)
Lemma app_split_cons {T} (a b pre post : list T) (x : T) :
  app a b = app pre (x :: post) ->
  (exists p, pre = app a p /\ b = app p (x :: post)) \/
  (exists q, a = app pre (x :: q) /\ post = app q b).
Proof.
  revert pre. induction a as [|y a IH]; intros pre H.
  - left. exists pre. auto.
  - destruct pre as [|z pre]; simpl in H; inversion H; subst.
    + right. exists a. auto.
    + destruct (IH pre H2) as [(p & -> & Hb) | (q & -> & Hq)].
      * left. exists p. auto.
      * right. exists q. auto.
Qed.

Lemma no_imm_split (l pre post : list event) (nm id : string) (v : jsval) :
  no_imm l = true -> l <> app pre (EvImmediateResult nm id v :: post).
Proof.
  intros H ->. rewrite no_imm_app in H. simpl in H. rewrite Bool.andb_false_r in H. discriminate.
Qed.

Lemma result_ids_split (l pre post : list event) nm v id err :
  result_ids l = [] -> l <> app pre (EvToolResult nm v id err :: post).
Proof.
  intros H ->. rewrite result_ids_app in H. simpl in H. destruct (result_ids pre); discriminate.
Qed.

Lemma no_iter_split (l pre post : list event) (x : event) :
  no_iter l = true -> is_iteration_event x = true -> l <> app pre (x :: post).
Proof.
  intros H Hx ->. rewrite no_iter_app in H. simpl in H. rewrite Hx in H.
  simpl in H. rewrite Bool.andb_false_r in H. discriminate.
Qed.

Lemma imm_in_right (A B pre post : list event) nm id v :
  no_imm A = true -> app A B = app pre (EvImmediateResult nm id v :: post) ->
  exists p, pre = app A p /\ B = app p (EvImmediateResult nm id v :: post).
Proof.
  intros HA H. destruct (app_split_cons _ _ _ _ _ H) as [Hl | (q & Hq & _)]; [exact Hl|].
  exfalso. exact (no_imm_split _ _ _ _ _ _ HA Hq).
Qed.

Lemma result_in_right (A B pre post : list event) nm v id err :
  result_ids A = [] -> app A B = app pre (EvToolResult nm v id err :: post) ->
  exists p, pre = app A p /\ B = app p (EvToolResult nm v id err :: post).
Proof.
  intros HA H. destruct (app_split_cons _ _ _ _ _ H) as [Hl | (q & Hq & _)]; [exact Hl|].
  exfalso. exact (result_ids_split _ _ _ _ _ _ _ HA Hq).
Qed.

Lemma ras_app (S : list string) (A B : list event) :
  results_after_starts S A -> results_after_starts (app S (start_ids A)) B ->
  results_after_starts S (app A B).
Proof.
  intros HA HB pre nm v id err post H.
  destruct (app_split_cons _ _ _ _ _ H) as [(p & -> & Hp) | (q & Hq & _)].
  - rewrite start_ids_app_eq, app_assoc. exact (HB _ _ _ _ _ _ Hp).
  - exact (HA _ _ _ _ _ _ Hq).
Qed.

Lemma ras_nil (S : list string) (A : list event) : result_ids A = [] -> results_after_starts S A.
Proof. intros HA pre nm v id err post H. exfalso. exact (result_ids_split _ _ _ _ _ _ _ HA H). Qed.

Lemma ras_block (S : list string) (A B : list event) :
  result_ids A = [] -> start_ids B = [] ->
  (forall id, In id (result_ids B) -> count_occ string_dec (app S (start_ids A)) id = 1) ->
  results_after_starts S (app A B).
Proof.
  intros HA HB Hc pre nm v id err post H.
  destruct (result_in_right _ _ _ _ _ _ _ _ HA H) as (p & -> & Hp).
  rewrite Hp, start_ids_app_eq in HB. apply app_eq_nil in HB. destruct HB as [HB _].
  rewrite start_ids_app_eq, HB, app_nil_r. apply Hc.
  rewrite Hp, result_ids_app. apply in_or_app. right. left. reflexivity.
Qed.

Section AgentLoop.
Variable json_parse : string -> option jsval.
Variable stream_text : stream_request -> list chunk.
Variable call_tool : string -> jsval -> outcome.
Variable settle_order : nat -> nat -> list nat.

Lemma exec_call_fst (tc : tool_call) : fst (fst (Agent.exec_call call_tool tc)) = tc.
Proof. unfold Agent.exec_call. destruct (call_tool _ _); reflexivity. Qed.

Lemma exec_call_result (tc : tool_call) :
  (let '(tc', v, err) := Agent.exec_call call_tool tc in (tc_name tc', v, tc_id tc', err))
  = expected_result call_tool (call_triple tc).
Proof. unfold Agent.exec_call, expected_result, call_triple. destruct (call_tool _ _); reflexivity. Qed.

Lemma exec_results_ids (tcs : list tool_call) :
  map (fun r => tc_id (fst (fst r))) (map (Agent.exec_call call_tool) tcs) = map tc_id tcs.
Proof. rewrite map_map. apply map_ext. intros tc. rewrite exec_call_fst. reflexivity. Qed.

(** The two parts of an iteration before the calls: thinking and main stream. *)
Lemma pre_facts (a : Agent.agent) (ht : bool) (msgs msgs1 : list message) (e1 e2 : list event) st :
  Agent.thinking_phase json_parse stream_text a ht msgs = (msgs1, e1) ->
  Agent.run_stream Agent.it_init (stream_text (MainRequest msgs1 ht)) = (st, e2) ->
  length msgs <= length msgs1 /\
  no_iter (app e1 e2) = true /\ no_imm (app e1 e2) = true /\ result_ids (app e1 e2) = [] /\
  executing_ids (app e1 e2) = [] /\ executing_calls (app e1 e2) = [] /\ tool_results (app e1 e2) = [] /\
  start_ids (app e1 e2) = start_ids e2.
Proof.
  intros Ht Hs. destruct (thinking_phase_facts _ _ _ _ _ _ _ Ht) as [L T].
  destruct (run_stream_init _ _ _ Hs) as (S1 & _).
  destruct (stream_event_kinds _ (forallb_text_stream _ T)) as (A1 & A2 & A3 & A4 & A5 & A6).
  destruct (stream_event_kinds _ S1) as (B1 & B2 & B3 & B4 & B5 & B6).
  rewrite no_iter_app, no_imm_app, result_ids_app, executing_ids_app, executing_calls_app,
    tool_results_app, start_ids_app_eq, text_start_ids by exact T.
  rewrite A1, A2, A3, A4, A5, A6, B1, B2, B3, B4, B5, B6. repeat split; auto.
Qed.

Lemma iter_imm (a : Agent.agent) (ht : bool) (it : nat) (msgs : list message) evs k pre post nm id v :
  Agent.iteration_body json_parse stream_text call_tool settle_order a ht it msgs = (evs, k) ->
  evs = app pre (EvImmediateResult nm id v :: post) ->
  k = Agent.Break /\ exists seg mid p',
    pre = EvIterationStart it (Agent.maxIterations a) :: seg /\ post = app mid [EvIterationEnd it] /\
    no_iter (app seg mid) = true /\ executing_ids seg = result_ids (app seg mid) /\
    seg = app p' [EvToolResult nm v id false].
Proof.
  intros Hb Hevs.
  destruct (body_decomp _ _ _ _ _ _ _ _ _ _ Hb) as (msgs1 & e1 & e2 & st & Ht & Hs & Hc).
  destruct (pre_facts _ _ _ _ _ _ _ Ht Hs) as (_ & P1 & P2 & P3 & P4 & P5 & P6 & P7).
  destruct (exec_events_facts (Agent.toolCalls st)) as (X1 & X2 & X3 & X4 & X5 & X6 & X7).
  destruct pre as [|z pre]; [destruct Hc as [(_ & -> & _)|[(_ & _ & -> & _)|(_ & e4 & h & _ & _ & -> & _)]];
                              discriminate|].
  destruct Hc as [(_ & -> & _)|[(_ & _ & -> & _)|(_ & e4 & h & Hr & He & -> & Hk)]];
    injection Hevs as <- Hevs.
  - destruct (imm_in_right _ _ _ _ _ _ _ P2 Hevs) as (p & _ & Hp).
    exfalso. refine (no_imm_split [EvIterationEnd it] _ _ _ _ _ eq_refl Hp).
  - exfalso. refine (no_imm_split _ _ _ _ _ _ _ Hevs).
    rewrite no_imm_app, P2, X2. reflexivity.
  - destruct (emit_results_facts _ _ _ _ _ He) as (E1 & E2 & E3 & E4 & E5 & E6 & E7 & E8).
    destruct (imm_in_right _ _ _ _ _ _ _ P2 Hevs) as (p & -> & Hp).
    destruct (imm_in_right _ _ _ _ _ _ _ X2 Hp) as (p2 & -> & Hp2).
    destruct (app_split_cons _ _ _ _ _ Hp2) as [(p3 & _ & Hp3) | (q & He4 & ->)].
    { exfalso. refine (no_imm_split [EvIterationEnd it] _ _ _ _ _ eq_refl Hp3). }
    destruct h.
    2:{ exfalso. refine (no_imm_split _ _ _ _ _ _ (E7 eq_refl) He4). }
    split; [exact Hk|].
    destruct (E8 _ _ _ _ _ He4) as (p' & ->).
    exists (app (app e1 e2) (app (exec_events (Agent.toolCalls st)) (app p' [EvToolResult nm v id false]))), q, (app (app e1 e2) (app (exec_events (Agent.toolCalls st)) p')).
    split; [reflexivity|]. split; [reflexivity|].
    set (E12 := app e1 e2) in *. set (EX := exec_events (Agent.toolCalls st)) in *.
    rewrite He4 in E1, E4, E6. rewrite exec_results_ids in E1.
    rewrite !no_iter_app in E6 |- *. rewrite !result_ids_app in E1 |- *.
    rewrite !executing_ids_app in E4 |- *. rewrite !no_iter_app, !executing_ids_app, !result_ids_app.
    simpl in *. rewrite P1, X1, P3, P4, X3, X5.
    split; [|split; [|rewrite !app_assoc; reflexivity]].
    + apply Bool.andb_true_iff in E6. destruct E6 as [E6a E6b].
      rewrite Bool.andb_true_iff in E6a. destruct E6a as [E6a _].
      rewrite E6a, E6b. reflexivity.
    + rewrite <- E1.
      apply app_eq_nil in E4. destruct E4 as [E4 _]. apply app_eq_nil in E4. destruct E4 as [-> _].
      rewrite ?app_nil_r, <- ?app_assoc. reflexivity.
Qed.

Lemma loop_imm (a : Agent.agent) (ht : bool) (fuel : nat) : forall it msgs evs r pre post nm id v,
  Agent.agent_loop json_parse stream_text call_tool settle_order a ht fuel it msgs = (evs, r) ->
  evs = app pre (EvImmediateResult nm id v :: post) ->
  exists pre0 j seg mid p',
    pre = app pre0 (EvIterationStart j (Agent.maxIterations a) :: seg) /\
    post = app mid [EvIterationEnd j] /\ r = Some j /\
    no_iter (app seg mid) = true /\ executing_ids seg = result_ids (app seg mid) /\
    pre = app p' [EvToolResult nm v id false].
Proof.
  induction fuel as [|f IH]; intros it msgs evs r pre post nm id v H Hevs; simpl in H.
  - inversion H; subst. destruct pre; discriminate.
  - destruct (num_lt it (Agent.maxIterations a)).
    2:{ inversion H; subst. destruct pre; discriminate. }
    destruct (Agent.iteration_body json_parse stream_text call_tool settle_order a ht (S it) msgs)
      as [evs1 k] eqn:Eb.
    destruct k as [msgs'| |].
    + destruct (Agent.agent_loop json_parse stream_text call_tool settle_order a ht f (S it) msgs')
        as [evs' r'] eqn:El.
      injection H as <- <-.
      destruct (app_split_cons _ _ _ _ _ Hevs) as [(p & -> & Hp) | (q & Hq & _)].
      * destruct (IH _ _ _ _ _ _ _ _ _ El Hp) as (pre0 & j & seg & mid & p' & -> & -> & Hr & N & X & Hp').
        exists (app evs1 pre0), j, seg, mid, (app evs1 p').
        split; [rewrite <- app_assoc; reflexivity|]. split; [reflexivity|]. split; [exact Hr|].
        split; [exact N|]. split; [exact X|]. rewrite <- app_assoc, Hp'. reflexivity.
      * destruct (iter_imm _ _ _ _ _ _ _ _ _ _ _ Eb Hq) as [Hk _]. discriminate.
    + injection H as <- <-.
      destruct (iter_imm _ _ _ _ _ _ _ _ _ _ _ Eb Hevs) as [_ (seg & mid & p' & -> & -> & N & X & Hp')].
      exists [], (S it), seg, mid, (EvIterationStart (S it) (Agent.maxIterations a) :: p').
      split; [reflexivity|]. split; [reflexivity|]. split; [reflexivity|].
      split; [exact N|]. split; [exact X|]. rewrite Hp'. reflexivity.
    + injection H as <- <-.
      destruct (iter_imm _ _ _ _ _ _ _ _ _ _ _ Eb Hevs) as [Hk _]. discriminate.
Qed.

Lemma loop_some (a : Agent.agent) (ht : bool) (Hs : settle_covers settle_order) (fuel : nat) :
  forall it msgs, snd (Agent.agent_loop json_parse stream_text call_tool settle_order a ht fuel it msgs) <> None.
Proof.
  induction fuel as [|f IH]; intros it msgs; simpl; [discriminate|].
  destruct (num_lt it (Agent.maxIterations a)); [|discriminate].
  destruct (Agent.iteration_body json_parse stream_text call_tool settle_order a ht (S it) msgs)
    as [evs1 k] eqn:Eb.
  destruct (body_decomp _ _ _ _ _ _ _ _ _ _ Eb) as (msgs1 & e1 & e2 & st & Ht & Hst & Hc).
  destruct k as [msgs'| |].
  - specialize (IH (S it) msgs').
    destruct (Agent.agent_loop json_parse stream_text call_tool settle_order a ht f (S it) msgs'). exact IH.
  - discriminate.
  - exfalso. destruct Hc as [(_ & _ & Hk)|[(_ & Hr & _)|(_ & e4 & h & _ & _ & _ & Hk)]].
    + discriminate.
    + rewrite (run_tools_settles _ _ _ _ _ Hs) in Hr. discriminate.
    + destruct h; [discriminate|]. destruct Hk as (? & Hk & _). discriminate.
Qed.

Lemma iter_ras (Hids : ids_per_request stream_text) (a : Agent.agent) (ht : bool) (it : nat) (msgs : list message)
    evs k (prev : list string) :
  Agent.iteration_body json_parse stream_text call_tool settle_order a ht it msgs = (evs, k) ->
  issued_before stream_text prev msgs ->
  results_after_starts prev evs /\ subseq (result_ids evs) (start_ids evs) /\
  (forall msgs', k = Agent.Continue msgs' -> issued_before stream_text (app prev (start_ids evs)) msgs').
Proof.
  intros Hb HS.
  destruct (body_decomp _ _ _ _ _ _ _ _ _ _ Hb) as (msgs1 & e1 & e2 & st & Ht & Hst & Hc).
  destruct (pre_facts _ _ _ _ _ _ _ Ht Hst) as (L & P1 & P2 & P3 & P4 & P5 & P6 & P7).
  destruct (run_stream_init _ _ _ Hst) as (_ & ND & SUB & INC & _).
  destruct (exec_events_facts (Agent.toolCalls st)) as (X1 & X2 & X3 & X4 & X5 & X6 & X7).
  set (E12 := app e1 e2) in *. set (EX := exec_events (Agent.toolCalls st)) in *.
  destruct Hc as [(_ & -> & ->)|[(_ & _ & -> & ->)|(_ & e4 & h & Hr & He & -> & Hk)]].
  - assert (R : result_ids (EvIterationStart it (Agent.maxIterations a) :: app E12 [EvIterationEnd it]) = []).
    { simpl. rewrite result_ids_app, P3. reflexivity. }
    split; [apply ras_nil, R|]. split; [rewrite R; apply subseq_nil_l|]. discriminate.
  - assert (R : result_ids (EvIterationStart it (Agent.maxIterations a) :: app E12 EX) = []).
    { simpl. rewrite result_ids_app, P3, X3. reflexivity. }
    split; [apply ras_nil, R|]. split; [rewrite R; apply subseq_nil_l|]. discriminate.
  - destruct (emit_results_facts _ _ _ _ _ He) as (E1 & E2 & E3 & E4 & E5 & E6 & E7 & E8).
    rewrite exec_results_ids in E1.
    assert (Hev : EvIterationStart it (Agent.maxIterations a) :: app E12 (app EX (app e4 [EvIterationEnd it]))
                  = app (EvIterationStart it (Agent.maxIterations a) :: app E12 EX) (app e4 [EvIterationEnd it])).
    { simpl. rewrite app_assoc. reflexivity. }
    assert (SA : start_ids (EvIterationStart it (Agent.maxIterations a) :: app E12 EX) = start_ids e2).
    { simpl. rewrite start_ids_app_eq, P7, X4, app_nil_r. reflexivity. }
    assert (RB : result_ids (app e4 [EvIterationEnd it]) = map tc_id (Agent.toolCalls st)).
    { rewrite result_ids_app, E1. apply app_nil_r. }
    assert (SB : start_ids (app e4 [EvIterationEnd it]) = []).
    { rewrite start_ids_app_eq, E3. reflexivity. }
    assert (Hnot : forall id, In id (start_ids e2) -> ~ In id prev).
    { intros id Hin HinS. destruct (HS id HinS) as (m & b & Hm & Hlt).
      pose proof (Hids _ _ _ _ _ Hm (INC _ Hin)). lia. }
    rewrite Hev. split; [|split].
    + apply ras_block.
      * simpl. rewrite result_ids_app, P3, X3. reflexivity.
      * exact SB.
      * intros id Hin. rewrite RB in Hin. rewrite SA, count_occ_app.
        pose proof (subseq_incl _ _ SUB id Hin) as Hin2.
        rewrite (proj1 (count_occ_not_In string_dec prev id) (Hnot id Hin2)).
        exact (proj1 (NoDup_count_occ' string_dec _) ND id Hin2).
    + rewrite result_ids_app, start_ids_app_eq, RB, SA, SB, app_nil_r.
      replace (result_ids (EvIterationStart it (Agent.maxIterations a) :: app E12 EX)) with (@nil string).
      * exact SUB.
      * simpl. rewrite result_ids_app, P3, X3. reflexivity.
    + intros msgs' ->. destruct h; [discriminate|]. destruct Hk as (m' & Hm' & Hlt). injection Hm' as <-.
      rewrite start_ids_app_eq, SA, SB, app_nil_r.
      intros id Hin. apply in_app_or in Hin. destruct Hin as [Hin|Hin].
      * destruct (HS id Hin) as (m & b & Hm & Hl). exists m, b. split; [exact Hm|lia].
      * exists msgs1, ht. split; [exact (INC _ Hin)|exact Hlt].
Qed.

Lemma loop_ras (Hids : ids_per_request stream_text) (a : Agent.agent) (ht : bool) (fuel : nat) :
  forall it msgs prev evs r,
  Agent.agent_loop json_parse stream_text call_tool settle_order a ht fuel it msgs = (evs, r) ->
  issued_before stream_text prev msgs ->
  results_after_starts prev evs /\ subseq (result_ids evs) (start_ids evs).
Proof.
  induction fuel as [|f IH]; intros it msgs prev evs r H HS; simpl in H.
  - injection H as <- _. split; [apply ras_nil; reflexivity | constructor].
  - destruct (num_lt it (Agent.maxIterations a)).
    2:{ injection H as <- _. split; [apply ras_nil; reflexivity | constructor]. }
    destruct (Agent.iteration_body json_parse stream_text call_tool settle_order a ht (S it) msgs)
      as [evs1 k] eqn:Eb.
    destruct (iter_ras Hids _ _ _ _ _ _ prev Eb HS) as (R1 & R2 & R3).
    destruct k as [msgs'| |].
    + destruct (Agent.agent_loop json_parse stream_text call_tool settle_order a ht f (S it) msgs')
        as [evs' r'] eqn:El.
      injection H as <- _.
      destruct (IH _ _ _ _ _ El (R3 _ eq_refl)) as [I1 I2].
      split; [exact (ras_app prev _ _ R1 I1)|].
      rewrite result_ids_app, start_ids_app_eq. apply subseq_app; assumption.
    + injection H as <- _. auto.
    + injection H as <- _. auto.
Qed.

Lemma emit_no_match (ms : list matcher) (rs : list (tool_call * jsval * bool)) :
  (forall tc v err, In (tc, v, err) rs -> err = false -> matchImmediateResult json_parse ms v = false) ->
  snd (Agent.emit_results json_parse ms rs) = false.
Proof.
  induction rs as [|[[tc v] err] rs IH]; intros H; [reflexivity|]. simpl.
  destruct (Agent.emit_results json_parse ms rs) as [evs h] eqn:E. simpl in IH |- *.
  rewrite IH by (intros; eapply H; [right|]; eassumption).
  destruct err; [reflexivity|]. rewrite (H tc v false (or_introl eq_refl) eq_refl). reflexivity.
Qed.

Lemma body_continues (a : Agent.agent) (ht : bool) (it : nat) (msgs : list message) evs k :
  always_calls stream_text -> no_immediate_match json_parse call_tool a -> settle_covers settle_order ->
  Agent.iteration_body json_parse stream_text call_tool settle_order a ht it msgs = (evs, k) ->
  iteration_segment it (Agent.maxIterations a) evs /\ exists msgs', k = Agent.Continue msgs'.
Proof.
  intros Hc Hm Hs Hb.
  destruct (body_decomp _ _ _ _ _ _ _ _ _ _ Hb) as (msgs1 & e1 & e2 & st & Ht & Hst & Hd).
  destruct (pre_facts _ _ _ _ _ _ _ Ht Hst) as (_ & P1 & _).
  destruct (run_stream_init _ _ _ Hst) as (_ & _ & _ & _ & Hne).
  destruct (Hc msgs1 ht) as [Hn Hx]. specialize (Hne Hn Hx).
  destruct (exec_events_facts (Agent.toolCalls st)) as (X1 & _).
  destruct Hd as [(Hnil & _)|[(_ & Hr & _)|(_ & e4 & h & Hr & He & -> & Hk)]].
  - contradiction.
  - rewrite (run_tools_settles _ _ _ _ _ Hs) in Hr. discriminate.
  - destruct (emit_results_facts _ _ _ _ _ He) as (_ & _ & _ & _ & _ & E6 & _).
    assert (Hh : h = false).
    { change h with (snd (e4, h)). rewrite <- He. apply emit_no_match.
      intros tc v err Hin Herr. apply in_map_iff in Hin. destruct Hin as (tc' & Hx' & _).
      unfold Agent.exec_call in Hx'. destruct (call_tool (tc_name tc') (tc_args tc')) as [v'|e] eqn:Ec;
        injection Hx' as <- <- <-; [exact (Hm _ _ _ Ec)|discriminate]. }
    subst h. split; [|destruct Hk as (m' & Hk & _); exists m'; exact Hk].
    exists (app (app e1 e2) (app (exec_events (Agent.toolCalls st)) e4)). split.
    + rewrite <- !app_assoc. reflexivity.
    + rewrite (no_iter_app (app e1 e2)), (no_iter_app (exec_events _)), P1, X1, E6. reflexivity.
Qed.

Lemma loop_all_continue (a : Agent.agent) (ht : bool) :
  always_calls stream_text -> no_immediate_match json_parse call_tool a -> settle_covers settle_order ->
  forall n it msgs, it + n = passes (Agent.maxIterations a) ->
  exists segs, Agent.agent_loop json_parse stream_text call_tool settle_order a ht n it msgs
                 = (concat segs, Some (passes (Agent.maxIterations a))) /\
    length segs = n /\
    forall j s, nth_error segs j = Some s -> iteration_segment (S (it + j)) (Agent.maxIterations a) s.
Proof.
  intros Hc Hm Hs n. induction n as [|n IH]; intros it msgs Hn.
  - exists []. simpl. rewrite <- Hn, Nat.add_0_r. split; [reflexivity|]. split; [reflexivity|].
    intros j s Hj. destruct j; discriminate.
  - simpl. replace (num_lt it (Agent.maxIterations a)) with true
      by (rewrite num_lt_passes; symmetry; apply Nat.ltb_lt; lia).
    destruct (Agent.iteration_body json_parse stream_text call_tool settle_order a ht (S it) msgs)
      as [evs k] eqn:Eb.
    destruct (body_continues _ _ _ _ _ _ Hc Hm Hs Eb) as [Hseg (msgs' & ->)].
    destruct (IH (S it) msgs' ltac:(lia)) as (segs & El & Hl & Hsegs).
    rewrite El. exists (evs :: segs). split; [reflexivity|]. split; [simpl; lia|].
    intros [|j] s Hj; simpl in Hj.
    + injection Hj as <-. rewrite Nat.add_0_r. exact Hseg.
    + rewrite Nat.add_succ_r. exact (Hsegs j s Hj).
Qed.

(** Every tool call of an iteration is answered by its result. *)
Lemma iter_results (a : Agent.agent) (ht : bool) (it : nat) (msgs : list message) evs k :
  settle_covers settle_order ->
  Agent.iteration_body json_parse stream_text call_tool settle_order a ht it msgs = (evs, k) ->
  tool_results evs = map (expected_result call_tool) (executing_calls evs) /\ k <> Agent.Hang.
Proof.
  intros Hs Hb.
  destruct (body_decomp _ _ _ _ _ _ _ _ _ _ Hb) as (msgs1 & e1 & e2 & st & Ht & Hst & Hd).
  destruct (pre_facts _ _ _ _ _ _ _ Ht Hst) as (_ & _ & _ & _ & _ & P5 & P6 & _).
  destruct (exec_events_facts (Agent.toolCalls st)) as (_ & _ & _ & _ & _ & X6 & X7).
  set (E12 := app e1 e2) in *.
  destruct Hd as [(_ & -> & ->)|[(_ & Hr & _)|(_ & e4 & h & Hr & He & -> & Hk)]].
  - simpl. rewrite tool_results_app, executing_calls_app, P5, P6. split; [reflexivity|discriminate].
  - rewrite (run_tools_settles _ _ _ _ _ Hs) in Hr. discriminate.
  - destruct (emit_results_facts _ _ _ _ _ He) as (_ & E2 & _ & _ & E5 & _).
    simpl. rewrite !tool_results_app, !executing_calls_app, P5, P6, X6, X7, E2, E5.
    split.
    + simpl. rewrite !app_nil_r, !map_map. apply map_ext. intros tc. apply exec_call_result.
    + destruct h; [rewrite Hk; discriminate|]. destruct Hk as (? & -> & _). discriminate.
Qed.

End AgentLoop.

(* ================================================================== *)
(** ** Properties of whole turns *)

Section PBLoop.
Variable json_parse : string -> option jsval.
Variable stream_text : stream_request -> list chunk.
Variable call_tool : string -> jsval -> outcome.
Variable json_stringify : jsval -> string.
Variable clock : nat -> nat.

Lemma pb_iter_stop (it : nat) (msgs : list message) (evs : list event) :
  PromptBasedAgent.iteration_body json_parse stream_text call_tool json_stringify clock it msgs = (evs, None) ->
  executing_calls evs = [].
Proof.
  unfold PromptBasedAgent.iteration_body.
  pose proof (pb_stream_facts (clock it) (stream_text (MainRequest msgs false)) pb_init) as [_ F2].
  destruct (pb_stream (clock it) pb_init (stream_text (MainRequest msgs false))) as [st e1].
  simpl in F2. destruct (pb_event_kinds _ F2) as (_ & _ & _ & K4).
  destruct (parseToolCall json_parse (fullResponse st)) as [[name args]|].
  - destruct (call_tool name args); discriminate.
  - intros H. injection H as <-. rewrite executing_calls_app, K4. reflexivity.
Qed.

Lemma pb_all_continue (mx : Q) :
  (forall msgs, parseToolCall json_parse (text_of (stream_text (MainRequest msgs false))) <> None) ->
  forall n it msgs, it + n = passes mx ->
  exists segs, PromptBasedAgent.pb_loop json_parse stream_text call_tool json_stringify clock mx n it msgs
                 = (concat segs, passes mx) /\
    length segs = n /\
    forall j s, nth_error segs j = Some s -> iteration_segment (S (it + j)) mx s.
Proof.
  intros Hpb n. induction n as [|n IH]; intros it msgs Hn.
  - exists []. simpl. rewrite <- Hn, Nat.add_0_r. split; [reflexivity|]. split; [reflexivity|].
    intros j s Hj. destruct j; discriminate.
  - simpl. replace (num_lt it mx) with true by (rewrite num_lt_passes; symmetry; apply Nat.ltb_lt; lia).
    destruct (PromptBasedAgent.iteration_body json_parse stream_text call_tool json_stringify clock (S it) msgs)
      as [evs k] eqn:Eb.
    destruct (pb_iter_facts _ _ _ _ _ _ _ _ _ Eb) as (mid & -> & N & _ & _ & Hk).
    destruct k as [msgs'|]; [|exfalso; exact (Hpb msgs (proj1 Hk eq_refl))].
    destruct (IH (S it) msgs' ltac:(lia)) as (segs & El & Hl & Hsegs).
    rewrite El. exists ((EvIterationStart (S it) mx :: app mid [EvIterationEnd (S it)]) :: segs).
    split; [reflexivity|]. split; [simpl; lia|].
    intros [|j] s Hj; simpl in Hj.
    + injection Hj as <-. rewrite Nat.add_0_r. exists mid. auto.
    + rewrite Nat.add_succ_r. exact (Hsegs j s Hj).
Qed.

End PBLoop.

Lemma reverse_settle_covers : settle_covers reverse_settle.
Proof.
  intros it n i Hi. unfold reverse_settle. apply in_rev. rewrite rev_involutive.
  apply in_seq. lia.
Qed.

Lemma three_segments (segs : list (list event)) (mx : Q) :
  length segs = 3 -> (forall j s, nth_error segs j = Some s -> iteration_segment (S (0 + j)) mx s) ->
  exists s1 s2 s3, concat segs = app s1 (app s2 (app s3 [])) /\
    iteration_segment 1 mx s1 /\ iteration_segment 2 mx s2 /\ iteration_segment 3 mx s3.
Proof.
  intros Hl Hs. destruct segs as [|s1 [|s2 [|s3 [|s4 segs]]]]; try discriminate.
  exists s1, s2, s3. split; [reflexivity|].
  split; [exact (Hs 0 s1 eq_refl)|]. split; [exact (Hs 1 s2 eq_refl)|]. exact (Hs 2 s3 eq_refl).
Qed.

(* ------------------------------------------------------------------ *)

(** C1 (amended): with [maxIterations = 3] and a model that requests a
    tool call on every invocation, a turn has exactly three iterations and
    ends with [COMPLETE 3]: in text-convention mode always; in native mode
    when no tool result matches an immediate-result matcher and every call
    of an iteration settles. *)
Theorem iteration_limit_three
    (json_parse : string -> option jsval) (stream_text : stream_request -> list chunk)
    (call_tool : string -> jsval -> outcome) (settle_order : nat -> nat -> list nat)
    (json_stringify : jsval -> string) (clock : nat -> nat)
    (a : Agent.agent) (tools : list string) (um sp : string) (hist : list (string * string))
    (allowed : option (list string))
    (Hpb : forall msgs, parseToolCall json_parse (text_of (stream_text (MainRequest msgs false))) <> None)
    (Hcalls : always_calls stream_text) (Hmax : Agent.maxIterations a = 3%Q)
    (Hnomatch : no_immediate_match json_parse call_tool a) (Hs : settle_covers settle_order) :
  (exists s1 s2 s3,
     PromptBasedAgent.chatStream json_parse stream_text call_tool json_stringify clock 3 sp um hist
       = app s1 (app s2 (app s3 [EvComplete 3])) /\
     iteration_segment 1 3 s1 /\ iteration_segment 2 3 s2 /\ iteration_segment 3 3 s3) /\
  (exists s1 s2 s3,
     Agent.chatStream json_parse stream_text call_tool settle_order a tools um hist allowed
       = app s1 (app s2 (app s3 [EvComplete 3])) /\
     iteration_segment 1 3 s1 /\ iteration_segment 2 3 s2 /\ iteration_segment 3 3 s3).
Proof.
  split.
  - unfold PromptBasedAgent.chatStream. change (passes 3%Q) with 3.
    destruct (pb_all_continue json_parse stream_text call_tool json_stringify clock 3 Hpb 3 0
                (MSystem sp :: app (map history_message hist) [MUser um]) eq_refl)
      as (segs & -> & Hl & Hsegs).
    change (passes 3%Q) with 3 in *.
    destruct (three_segments segs 3 Hl Hsegs) as (s1 & s2 & s3 & Hc & H1 & H2 & H3).
    exists s1, s2, s3. rewrite Hc, app_nil_r, <- !app_assoc. split; [reflexivity|]. auto.
  - unfold Agent.chatStream. rewrite Hmax. change (passes 3%Q) with 3.
    match goal with |- context [Agent.agent_loop _ _ _ _ a ?ht 3 0 ?m] =>
      destruct (loop_all_continue json_parse stream_text call_tool settle_order a ht Hcalls Hnomatch Hs
                  3 0 m ltac:(rewrite Hmax; reflexivity)) as (segs & El & Hl & Hsegs) end.
    rewrite El, Hmax. rewrite Hmax in Hsegs. change (passes 3%Q) with 3 in *.
    destruct (three_segments segs 3 Hl Hsegs) as (s1 & s2 & s3 & Hc & H1 & H2 & H3).
    exists s1, s2, s3. rewrite Hc, app_nil_r, <- !app_assoc. split; [reflexivity|]. auto.
Qed.

Lemma iteration_limit_three_witness :
  (forall msgs, parseToolCall JSON_parse (text_of (loop_model (MainRequest msgs false))) <> None) /\
  always_calls loop_model /\ Agent.maxIterations plain_agent = 3%Q /\
  no_immediate_match JSON_parse ok_tool plain_agent /\ settle_covers reverse_settle /\
  ((exists s1 s2 s3,
     PromptBasedAgent.chatStream JSON_parse loop_model ok_tool compact_stringify tick 3 "sys" "hi" []
       = app s1 (app s2 (app s3 [EvComplete 3])) /\
     iteration_segment 1 3 s1 /\ iteration_segment 2 3 s2 /\ iteration_segment 3 3 s3) /\
  (exists s1 s2 s3,
     Agent.chatStream JSON_parse loop_model ok_tool reverse_settle plain_agent ["lookup"] "hi" [] None
       = app s1 (app s2 (app s3 [EvComplete 3])) /\
     iteration_segment 1 3 s1 /\ iteration_segment 2 3 s2 /\ iteration_segment 3 3 s3)).
Proof.
  assert (Hpb : forall msgs, parseToolCall JSON_parse (text_of (loop_model (MainRequest msgs false))) <> None).
  { intros msgs. vm_compute. discriminate. }
  assert (Hc : always_calls loop_model).
  { intros msgs b. split; [reflexivity|]. exists "call_1", "lookup", (JObj []). simpl. auto. }
  assert (Hm : Agent.maxIterations plain_agent = 3%Q) by reflexivity.
  assert (Hn : no_immediate_match JSON_parse ok_tool plain_agent) by (intros nm args v _; reflexivity).
  split; [exact Hpb|]. split; [exact Hc|]. split; [exact Hm|]. split; [exact Hn|].
  split; [exact reverse_settle_covers|].
  exact (iteration_limit_three JSON_parse loop_model ok_tool reverse_settle compact_stringify tick
           plain_agent ["lookup"] "hi" "sys" [] None Hpb Hc Hm Hn reverse_settle_covers).
Defined.

(** C2 (amended): when the ids the model issues in different requests of
    a turn are distinct, every [TOOL_RESULT] of the turn is preceded by
    exactly one [TOOL_CALL_START] with its id, and the results come in the
    order of the starts, whatever the order in which parallel calls settle. *)
Theorem tool_results_follow_starts
    (json_parse : string -> option jsval) (stream_text : stream_request -> list chunk)
    (call_tool : string -> jsval -> outcome) (settle_order : nat -> nat -> list nat)
    (Hids : ids_per_request stream_text)
    (a : Agent.agent) (tools : list string) (um : string) (hist : list (string * string))
    (allowed : option (list string)) :
  results_after_starts [] (Agent.chatStream json_parse stream_text call_tool settle_order a tools um hist allowed) /\
  subseq (result_ids (Agent.chatStream json_parse stream_text call_tool settle_order a tools um hist allowed))
         (start_ids (Agent.chatStream json_parse stream_text call_tool settle_order a tools um hist allowed)).
Proof.
  unfold Agent.chatStream.
  match goal with |- context [Agent.agent_loop _ _ _ _ a ?ht ?f 0 ?m] =>
    destruct (Agent.agent_loop json_parse stream_text call_tool settle_order a ht f 0 m) as [evs r] eqn:El end.
  assert (H0 : issued_before stream_text [] (MSystem (Agent.systemPrompt a) :: app (map history_message hist) [MUser um])).
  { intros id []. }
  destruct (loop_ras json_parse stream_text call_tool settle_order Hids _ _ _ _ _ _ _ _ El H0) as [R1 R2].
  assert (Ht : result_ids (match r with Some n => [EvComplete n] | None => [] end) = [] /\
               start_ids (match r with Some n => [EvComplete n] | None => [] end) = []).
  { destruct r; split; reflexivity. }
  destruct Ht as [Ht1 Ht2]. split.
  - apply ras_app; [exact R1|]. apply ras_nil, Ht1.
  - rewrite result_ids_app, start_ids_app_eq, Ht1, Ht2, !app_nil_r. exact R2.
Qed.

Lemma tool_results_follow_starts_witness :
  ids_per_request two_call_model /\
  results_after_starts [] (Agent.chatStream JSON_parse two_call_model two_call_tool reverse_settle card_agent
                             ["broken"; "cards"] "hi" [] None) /\
  subseq (result_ids (Agent.chatStream JSON_parse two_call_model two_call_tool reverse_settle card_agent
                        ["broken"; "cards"] "hi" [] None))
         (start_ids (Agent.chatStream JSON_parse two_call_model two_call_tool reverse_settle card_agent
                       ["broken"; "cards"] "hi" [] None)).
Proof.
  assert (Hids : ids_per_request two_call_model).
  { intros m1 m2 b1 b2 id H1 H2. unfold two_call_model in H1, H2.
    destruct (Nat.eqb (length m1) 2) eqn:E1; [|simpl in H1; contradiction].
    destruct (Nat.eqb (length m2) 2) eqn:E2; [|simpl in H2; contradiction].
    apply Nat.eqb_eq in E1, E2. congruence. }
  split; [exact Hids|].
  exact (tool_results_follow_starts JSON_parse two_call_model two_call_tool reverse_settle Hids
           card_agent ["broken"; "cards"] "hi" [] None).
Defined.

(** C3: when every call of an iteration settles, the iteration emits one
    [TOOL_RESULT] per executed call, in the order of the calls, carrying the
    tool's value with [isError = false] or the failure message with
    [isError = true]; a failing call does not stop the turn (the loop goes
    on or ends normally). The same holds for the text-convention agent. *)
Theorem failing_calls_reported
    (json_parse : string -> option jsval) (stream_text : stream_request -> list chunk)
    (call_tool : string -> jsval -> outcome) (settle_order : nat -> nat -> list nat)
    (json_stringify : jsval -> string) (clock : nat -> nat)
    (Hs : settle_covers settle_order) :
  (forall a ht it msgs evs k,
     Agent.iteration_body json_parse stream_text call_tool settle_order a ht it msgs = (evs, k) ->
     tool_results evs = map (expected_result call_tool) (executing_calls evs) /\ k <> Agent.Hang) /\
  (forall it msgs evs k,
     PromptBasedAgent.iteration_body json_parse stream_text call_tool json_stringify clock it msgs = (evs, k) ->
     tool_results evs = map (expected_result call_tool) (executing_calls evs) /\
     (executing_calls evs <> [] -> k <> None)).
Proof.
  split.
  - intros a ht it msgs evs k Hb. exact (iter_results json_parse stream_text call_tool settle_order _ _ _ _ _ _ Hs Hb).
  - intros it msgs evs k Hb.
    destruct (pb_iter_facts _ _ _ _ _ _ _ _ _ Hb) as (mid & -> & _ & _ & T & _).
    split.
    + rewrite tool_results_app, executing_calls_app, T. simpl. rewrite !app_nil_r. reflexivity.
    + intros Hne ->. exact (Hne (pb_iter_stop _ _ _ _ _ _ _ _ Hb)).
Qed.

Lemma failing_calls_reported_witness :
  settle_covers reverse_settle /\
  ((forall a ht it msgs evs k,
     Agent.iteration_body JSON_parse two_call_model two_call_tool reverse_settle a ht it msgs = (evs, k) ->
     tool_results evs = map (expected_result two_call_tool) (executing_calls evs) /\ k <> Agent.Hang) /\
  (forall it msgs evs k,
     PromptBasedAgent.iteration_body JSON_parse two_call_model two_call_tool compact_stringify tick it msgs = (evs, k) ->
     tool_results evs = map (expected_result two_call_tool) (executing_calls evs) /\
     (executing_calls evs <> [] -> k <> None))).
Proof.
  split; [exact reverse_settle_covers|].
  exact (failing_calls_reported JSON_parse two_call_model two_call_tool reverse_settle compact_stringify tick
           reverse_settle_covers).
Defined.

(** An [IMMEDIATE_RESULT] lies in the last iteration of the turn: after it
    come only events of that iteration, its [ITERATION_END] and [COMPLETE];
    the iteration emits a [TOOL_RESULT] for every call it executed. *)
Lemma immediate_in_last_iteration
    (json_parse : string -> option jsval) (stream_text : stream_request -> list chunk)
    (call_tool : string -> jsval -> outcome) (settle_order : nat -> nat -> list nat)
    (a : Agent.agent) (tools : list string) (um : string) (hist : list (string * string))
    (allowed : option (list string)) (pre post : list event) (nm id : string) (v : jsval)
    (H : Agent.chatStream json_parse stream_text call_tool settle_order a tools um hist allowed
         = app pre (EvImmediateResult nm id v :: post)) :
  exists pre0 j seg mid,
    pre = app pre0 (EvIterationStart j (Agent.maxIterations a) :: seg) /\
    post = app mid [EvIterationEnd j; EvComplete j] /\
    no_iter (app seg mid) = true /\ executing_ids seg = result_ids (app seg mid).
Proof.
  unfold Agent.chatStream in H.
  match type of H with context [Agent.agent_loop _ _ _ _ a ?ht ?f 0 ?m] =>
    destruct (Agent.agent_loop json_parse stream_text call_tool settle_order a ht f 0 m) as [evs r] eqn:El end.
  destruct (app_split_cons _ _ _ _ _ H) as [(p & _ & Hp) | (q & Hq & ->)].
  - exfalso. destruct r; refine (no_imm_split _ _ _ _ _ _ _ Hp); reflexivity.
  - destruct (loop_imm json_parse stream_text call_tool settle_order _ _ _ _ _ _ _ _ _ _ _ _ El Hq)
      as (pre0 & j & seg & mid & p' & Hpre & -> & -> & N & X & _).
    exists pre0, j, seg, mid. repeat split; auto. rewrite <- app_assoc. reflexivity.
Qed.

Section ImmediateMatch.
Variable json_parse : string -> option jsval.
Variable stream_text : stream_request -> list chunk.
Variable call_tool : string -> jsval -> outcome.
Variable settle_order : nat -> nat -> list nat.
Hypothesis Hs : settle_covers settle_order.

Lemma emit_results_imm_in (ms : list matcher) (tc : tool_call) (v : jsval) :
  matchImmediateResult json_parse ms v = true ->
  forall rs e4 h, Agent.emit_results json_parse ms rs = (e4, h) -> In (tc, v, false) rs ->
  In (EvImmediateResult (tc_name tc) (tc_id tc) v) e4.
Proof.
  intros Hm rs. induction rs as [|[[tc' v'] err] rs IH]; intros e4 h H Hin; [destruct Hin|].
  simpl in H. destruct (Agent.emit_results json_parse ms rs) as [evs h'] eqn:Er.
  injection H as <- _. destruct Hin as [Hin|Hin].
  - injection Hin as -> -> ->. rewrite Hm. simpl. auto.
  - right. apply in_or_app. right. exact (IH _ _ eq_refl Hin).
Qed.

Lemma body_exec_imm (a : Agent.agent) (ht : bool) (it : nat) (msgs : list message) evs k nm id args v :
  Agent.iteration_body json_parse stream_text call_tool settle_order a ht it msgs = (evs, k) ->
  In (EvToolExecuting nm id args) evs ->
  call_tool nm args = Returned v ->
  matchImmediateResult json_parse (Agent.immediateResultMatchers a) v = true ->
  In (EvImmediateResult nm id v) evs.
Proof.
  intros Eb Hx Hv Hm.
  assert (Hc : In (nm, id, args) (executing_calls evs)).
  { unfold executing_calls. apply in_flat_map. exists (EvToolExecuting nm id args). simpl. auto. }
  destruct (body_decomp _ _ _ _ _ _ _ _ _ _ Eb) as (msgs1 & e1 & e2 & st & Ht & Hst & Hd).
  destruct (pre_facts _ _ _ _ _ _ _ _ _ Ht Hst) as (_ & _ & _ & _ & _ & P6 & _).
  destruct (exec_events_facts (Agent.toolCalls st)) as (_ & _ & _ & _ & _ & X6 & _).
  rewrite executing_calls_app in P6. apply app_eq_nil in P6 as [P6a P6b].
  destruct Hd as [(_ & -> & _)|[(Hne & Hn & _)|(_ & e4 & h & _ & He & -> & _)]].
  - exfalso. change (In (nm, id, args) (executing_calls (app [EvIterationStart it (Agent.maxIterations a)]
                      (app (app e1 e2) [EvIterationEnd it])))) in Hc.
    rewrite !executing_calls_app, P6a, P6b in Hc. simpl in Hc. exact Hc.
  - exfalso. rewrite (run_tools_settles _ _ _ _ _ Hs) in Hn. discriminate.
  - destruct (emit_results_facts _ _ _ _ _ He) as (_ & _ & _ & _ & E5 & _).
    change (In (nm, id, args) (executing_calls (app [EvIterationStart it (Agent.maxIterations a)]
              (app (app e1 e2) (app (exec_events (Agent.toolCalls st)) (app e4 [EvIterationEnd it])))))) in Hc.
    rewrite !executing_calls_app, P6a, P6b, X6, E5 in Hc. simpl in Hc. rewrite app_nil_r in Hc.
    apply in_map_iff in Hc. destruct Hc as (tc & Htc & Hin).
    unfold call_triple in Htc. injection Htc as <- <- <-.
    assert (Hr : In (tc, v, false) (map (Agent.exec_call call_tool) (Agent.toolCalls st))).
    { apply in_map_iff. exists tc. split; [|exact Hin]. unfold Agent.exec_call. rewrite Hv. reflexivity. }
    right. apply in_or_app. right. apply in_or_app. right. apply in_or_app. left.
    exact (emit_results_imm_in _ _ _ Hm _ _ _ He Hr).
Qed.

Lemma loop_exec_imm (a : Agent.agent) (ht : bool) nm id args v :
  call_tool nm args = Returned v ->
  matchImmediateResult json_parse (Agent.immediateResultMatchers a) v = true ->
  forall fuel it msgs evs r,
  Agent.agent_loop json_parse stream_text call_tool settle_order a ht fuel it msgs = (evs, r) ->
  In (EvToolExecuting nm id args) evs -> In (EvImmediateResult nm id v) evs.
Proof.
  intros Hv Hm fuel. induction fuel as [|f IH]; intros it msgs evs r H Hx; simpl in H.
  - injection H as <- _. destruct Hx.
  - destruct (num_lt it (Agent.maxIterations a)); [|injection H as <- _; destruct Hx].
    destruct (Agent.iteration_body json_parse stream_text call_tool settle_order a ht (S it) msgs)
      as [evs1 k] eqn:Eb.
    destruct k as [msgs'| |].
    + destruct (Agent.agent_loop json_parse stream_text call_tool settle_order a ht f (S it) msgs')
        as [evs' r'] eqn:El.
      injection H as <- _. apply in_app_or in Hx. apply in_or_app. destruct Hx as [Hx|Hx].
      * left. exact (body_exec_imm _ _ _ _ _ _ _ _ _ _ Eb Hx Hv Hm).
      * right. exact (IH _ _ _ _ El Hx).
    + injection H as <- _. exact (body_exec_imm _ _ _ _ _ _ _ _ _ _ Eb Hx Hv Hm).
    + injection H as <- _. exact (body_exec_imm _ _ _ _ _ _ _ _ _ _ Eb Hx Hv Hm).
Qed.

End ImmediateMatch.

(** C4 (amended): when every call of the iteration settles, a call whose
    tool returns (does not throw) a value that matches a configured
    immediate-result matcher gets an [IMMEDIATE_RESULT]; that iteration is
    the last of the turn: after the event come only events of the
    iteration (the [TOOL_RESULT]s of its other calls), its [ITERATION_END]
    and [COMPLETE], and the iteration emits a [TOOL_RESULT] for every call
    it executed. *)
Theorem immediate_result_ends_turn
    (json_parse : string -> option jsval) (stream_text : stream_request -> list chunk)
    (call_tool : string -> jsval -> outcome) (settle_order : nat -> nat -> list nat)
    (a : Agent.agent) (tools : list string) (um : string) (hist : list (string * string))
    (allowed : option (list string)) (Hs : settle_covers settle_order)
    (pre post : list event) (nm id : string) (args v : jsval)
    (H : Agent.chatStream json_parse stream_text call_tool settle_order a tools um hist allowed
         = app pre (EvToolExecuting nm id args :: post))
    (Hv : call_tool nm args = Returned v)
    (Hm : matchImmediateResult json_parse (Agent.immediateResultMatchers a) v = true) :
  exists pre1 post1,
    Agent.chatStream json_parse stream_text call_tool settle_order a tools um hist allowed
      = app pre1 (EvImmediateResult nm id v :: post1) /\
    exists pre0 j seg mid,
      pre1 = app pre0 (EvIterationStart j (Agent.maxIterations a) :: seg) /\
      post1 = app mid [EvIterationEnd j; EvComplete j] /\
      no_iter (app seg mid) = true /\ executing_ids seg = result_ids (app seg mid).
Proof.
  assert (Hin : In (EvImmediateResult nm id v)
                  (Agent.chatStream json_parse stream_text call_tool settle_order a tools um hist allowed)).
  { assert (Hx : In (EvToolExecuting nm id args)
                   (Agent.chatStream json_parse stream_text call_tool settle_order a tools um hist allowed))
      by (rewrite H; apply in_or_app; right; left; reflexivity).
    clear H. unfold Agent.chatStream in *.
    match goal with |- context [Agent.agent_loop _ _ _ _ a ?ht ?f 0 ?m] =>
      destruct (Agent.agent_loop json_parse stream_text call_tool settle_order a ht f 0 m) as [evs r] eqn:El end.
    apply in_or_app. apply in_app_or in Hx. destruct Hx as [Hx|Hx].
    - left. exact (loop_exec_imm _ _ _ _ Hs _ _ _ _ _ _ Hv Hm _ _ _ _ _ El Hx).
    - exfalso. destruct r; simpl in Hx; [destruct Hx as [Hx|[]]; discriminate|exact Hx]. }
  apply in_split in Hin. destruct Hin as (pre1 & post1 & Hc).
  exists pre1, post1. split; [exact Hc|].
  exact (immediate_in_last_iteration json_parse stream_text call_tool settle_order a tools um hist allowed
           pre1 post1 nm id v Hc).
Qed.

Lemma immediate_result_ends_turn_witness :
  settle_covers reverse_settle /\
  Agent.chatStream JSON_parse always_call_model card_tool reverse_settle card_agent ["show_card"] "hi" [] None
    = app [EvIterationStart 1 3; EvToolCallStart "show_card" "call_1" (Some (JObj []))]
          (EvToolExecuting "show_card" "call_1" (JObj []) ::
             [EvToolResult "show_card" card_result "call_1" false;
              EvImmediateResult "show_card" "call_1" card_result; EvIterationEnd 1; EvComplete 1]) /\
  card_tool "show_card" (JObj []) = Returned card_result /\
  matchImmediateResult JSON_parse (Agent.immediateResultMatchers card_agent) card_result = true /\
  exists pre1 post1,
    Agent.chatStream JSON_parse always_call_model card_tool reverse_settle card_agent ["show_card"] "hi" [] None
      = app pre1 (EvImmediateResult "show_card" "call_1" card_result :: post1) /\
    exists pre0 j seg mid,
      pre1 = app pre0 (EvIterationStart j (Agent.maxIterations card_agent) :: seg) /\
      post1 = app mid [EvIterationEnd j; EvComplete j] /\
      no_iter (app seg mid) = true /\ executing_ids seg = result_ids (app seg mid).
Proof.
  assert (H : Agent.chatStream JSON_parse always_call_model card_tool reverse_settle card_agent ["show_card"] "hi" [] None
    = app [EvIterationStart 1 3; EvToolCallStart "show_card" "call_1" (Some (JObj []))]
          (EvToolExecuting "show_card" "call_1" (JObj []) ::
             [EvToolResult "show_card" card_result "call_1" false;
              EvImmediateResult "show_card" "call_1" card_result; EvIterationEnd 1; EvComplete 1])).
  { vm_compute. reflexivity. }
  assert (Hv : card_tool "show_card" (JObj []) = Returned card_result) by reflexivity.
  assert (Hm : matchImmediateResult JSON_parse (Agent.immediateResultMatchers card_agent) card_result = true)
    by (vm_compute; reflexivity).
  split; [exact reverse_settle_covers|]. split; [exact H|]. split; [exact Hv|]. split; [exact Hm|].
  exact (immediate_result_ends_turn JSON_parse always_call_model card_tool reverse_settle card_agent
           ["show_card"] "hi" [] None reverse_settle_covers _ _ _ _ _ _ H Hv Hm).
Defined.

(** C4 (counterexample): a failing call whose error message [JSON.parse]
    turns into an object that matches the matcher [{type: 'card'}] gets no
    [IMMEDIATE_RESULT], and the turn goes on to a second and a third
    iteration. *)
Lemma immediate_result_cex :
  matchImmediateResult JSON_parse (Agent.immediateResultMatchers card_agent) (JStr (jstr "{'type':'card'}")) = true /\
  Agent.chatStream JSON_parse always_call_model broken_card_tool reverse_settle card_agent ["show_card"] "hi" [] None
    = [EvIterationStart 1 3; EvToolCallStart "show_card" "call_1" (Some (JObj []));
       EvToolExecuting "show_card" "call_1" (JObj []);
       EvToolResult "show_card" (JStr (jstr "{'type':'card'}")) "call_1" true; EvIterationEnd 1;
       EvIterationStart 2 3; EvToolCallStart "show_card" "call_1" (Some (JObj []));
       EvToolExecuting "show_card" "call_1" (JObj []);
       EvToolResult "show_card" (JStr (jstr "{'type':'card'}")) "call_1" true; EvIterationEnd 2;
       EvIterationStart 3 3; EvToolCallStart "show_card" "call_1" (Some (JObj []));
       EvToolExecuting "show_card" "call_1" (JObj []);
       EvToolResult "show_card" (JStr (jstr "{'type':'card'}")) "call_1" true; EvIterationEnd 3;
       EvComplete 3].
Proof. split; vm_compute; reflexivity. Qed.

(** C6 (amended): an error reported by the model stream is not terminal in
    native mode: when every call settles, [COMPLETE] is still the last
    event after it; the text-convention agent emits no [ERROR] event. *)
Theorem error_event_not_terminal
    (json_parse : string -> option jsval) (stream_text : stream_request -> list chunk)
    (call_tool : string -> jsval -> outcome) (settle_order : nat -> nat -> list nat)
    (json_stringify : jsval -> string) (clock : nat -> nat)
    (Hs : settle_covers settle_order) :
  (forall a tools um hist allowed pre e post,
     Agent.chatStream json_parse stream_text call_tool settle_order a tools um hist allowed
       = app pre (EvError e :: post) ->
     exists mid n, post = app mid [EvComplete n]) /\
  (forall mx sp um hist e,
     ~ In (EvError e) (PromptBasedAgent.chatStream json_parse stream_text call_tool json_stringify clock mx sp um hist)).
Proof.
  split.
  - intros a tools um hist allowed pre e post H. unfold Agent.chatStream in H.
    match type of H with context [Agent.agent_loop _ _ _ _ a ?ht ?f 0 ?m] =>
      pose proof (loop_some json_parse stream_text call_tool settle_order a ht Hs f 0 m) as Hr;
      destruct (Agent.agent_loop json_parse stream_text call_tool settle_order a ht f 0 m) as [evs r] eqn:El end.
    destruct r as [n|]; [|contradiction].
    destruct (app_split_cons _ _ _ _ _ H) as [(p & _ & Hp) | (q & _ & ->)].
    + destruct p as [|x [|y p]]; discriminate.
    + exists q, n. reflexivity.
  - intros mx sp um hist e Hin. unfold PromptBasedAgent.chatStream in Hin.
    pose proof (pb_loop_no_error json_parse stream_text call_tool json_stringify clock mx (passes mx) 0
                  (MSystem sp :: app (map history_message hist) [MUser um]) e) as Hn.
    destruct (PromptBasedAgent.pb_loop json_parse stream_text call_tool json_stringify clock mx (passes mx) 0
                (MSystem sp :: app (map history_message hist) [MUser um])) as [evs n].
    apply in_app_or in Hin. destruct Hin as [Hin|[Hin|[]]]; [exact (Hn Hin)|discriminate].
Qed.

Lemma error_event_not_terminal_witness :
  settle_covers reverse_settle /\
  ((forall a tools um hist allowed pre e post,
     Agent.chatStream JSON_parse error_model card_tool reverse_settle a tools um hist allowed
       = app pre (EvError e :: post) ->
     exists mid n, post = app mid [EvComplete n]) /\
  (forall mx sp um hist e,
     ~ In (EvError e) (PromptBasedAgent.chatStream JSON_parse error_model card_tool compact_stringify tick mx sp um hist))).
Proof.
  split; [exact reverse_settle_covers|].
  exact (error_event_not_terminal JSON_parse error_model card_tool reverse_settle compact_stringify tick
           reverse_settle_covers).
Defined.

(** C10: an [IMMEDIATE_RESULT] follows directly the [TOOL_RESULT] of the
    same call, and that result has [isError = false]. *)
Theorem immediate_only_for_success
    (json_parse : string -> option jsval) (stream_text : stream_request -> list chunk)
    (call_tool : string -> jsval -> outcome) (settle_order : nat -> nat -> list nat)
    (a : Agent.agent) (tools : list string) (um : string) (hist : list (string * string))
    (allowed : option (list string)) (pre post : list event) (nm id : string) (v : jsval)
    (H : Agent.chatStream json_parse stream_text call_tool settle_order a tools um hist allowed
         = app pre (EvImmediateResult nm id v :: post)) :
  exists pre', pre = app pre' [EvToolResult nm v id false].
Proof.
  unfold Agent.chatStream in H.
  match type of H with context [Agent.agent_loop _ _ _ _ a ?ht ?f 0 ?m] =>
    destruct (Agent.agent_loop json_parse stream_text call_tool settle_order a ht f 0 m) as [evs r] eqn:El end.
  destruct (app_split_cons _ _ _ _ _ H) as [(p & _ & Hp) | (q & Hq & _)].
  - exfalso. destruct r; refine (no_imm_split _ _ _ _ _ _ _ Hp); reflexivity.
  - destruct (loop_imm json_parse stream_text call_tool settle_order _ _ _ _ _ _ _ _ _ _ _ _ El Hq)
      as (pre0 & j & seg & mid & p' & _ & _ & _ & _ & _ & Hp').
    exists p'. exact Hp'.
Qed.

Lemma immediate_only_for_success_witness :
  Agent.chatStream JSON_parse two_call_model two_call_tool reverse_settle card_agent ["broken"; "cards"] "hi" [] None
    = app [EvIterationStart 1 3;
           EvToolCallStart "broken" "call_a" (Some (JObj []));
           EvToolCallStart "cards" "call_b" (Some (JObj []));
           EvToolExecuting "broken" "call_a" (JObj []);
           EvToolExecuting "cards" "call_b" (JObj []);
           EvToolResult "broken" (JStr (jstr "{'type':'card'}")) "call_a" true;
           EvToolResult "cards" (JObj [("type", JStr "card")]) "call_b" false]
          (EvImmediateResult "cards" "call_b" (JObj [("type", JStr "card")]) :: [EvIterationEnd 1; EvComplete 1]) /\
  exists pre',
    [EvIterationStart 1 3;
     EvToolCallStart "broken" "call_a" (Some (JObj []));
     EvToolCallStart "cards" "call_b" (Some (JObj []));
     EvToolExecuting "broken" "call_a" (JObj []);
     EvToolExecuting "cards" "call_b" (JObj []);
     EvToolResult "broken" (JStr (jstr "{'type':'card'}")) "call_a" true;
     EvToolResult "cards" (JObj [("type", JStr "card")]) "call_b" false]
    = app pre' [EvToolResult "cards" (JObj [("type", JStr "card")]) "call_b" false].
Proof.
  assert (H : Agent.chatStream JSON_parse two_call_model two_call_tool reverse_settle card_agent ["broken"; "cards"] "hi" [] None
    = app [EvIterationStart 1 3;
           EvToolCallStart "broken" "call_a" (Some (JObj []));
           EvToolCallStart "cards" "call_b" (Some (JObj []));
           EvToolExecuting "broken" "call_a" (JObj []);
           EvToolExecuting "cards" "call_b" (JObj []);
           EvToolResult "broken" (JStr (jstr "{'type':'card'}")) "call_a" true;
           EvToolResult "cards" (JObj [("type", JStr "card")]) "call_b" false]
          (EvImmediateResult "cards" "call_b" (JObj [("type", JStr "card")]) :: [EvIterationEnd 1; EvComplete 1])).
  { vm_compute. reflexivity. }
  split; [exact H|].
  exact (immediate_only_for_success JSON_parse two_call_model two_call_tool reverse_settle card_agent
           ["broken"; "cards"] "hi" [] None _ _ _ _ _ H).
Defined.

(* ================================================================== *)
(** ** Further properties of the code *)

Section AgentShape.
Variable json_parse : string -> option jsval.
Variable stream_text : stream_request -> list chunk.
Variable call_tool : string -> jsval -> outcome.
Variable settle_order : nat -> nat -> list nat.

Lemma body_segment (a : Agent.agent) (ht : bool) (it : nat) (msgs : list message) evs k :
  settle_covers settle_order ->
  Agent.iteration_body json_parse stream_text call_tool settle_order a ht it msgs = (evs, k) ->
  iteration_segment it (Agent.maxIterations a) evs /\ k <> Agent.Hang.
Proof.
  intros Hs Hb.
  destruct (body_decomp _ _ _ _ _ _ _ _ _ _ Hb) as (msgs1 & e1 & e2 & st & Ht & Hst & Hd).
  destruct (pre_facts _ _ _ _ _ _ _ _ _ Ht Hst) as (_ & P1 & _).
  destruct (exec_events_facts (Agent.toolCalls st)) as (X1 & _).
  destruct Hd as [(_ & -> & ->)|[(_ & Hr & _)|(_ & e4 & h & Hr & He & -> & Hk)]].
  - split; [|discriminate]. exists (app e1 e2). split; [reflexivity|exact P1].
  - rewrite (run_tools_settles _ _ _ _ _ Hs) in Hr. discriminate.
  - destruct (emit_results_facts _ _ _ _ _ He) as (_ & _ & _ & _ & _ & E6 & _).
    split.
    + exists (app (app e1 e2) (app (exec_events (Agent.toolCalls st)) e4)). split.
      * rewrite <- !app_assoc. reflexivity.
      * change (no_iter (app (app e1 e2) (app (exec_events (Agent.toolCalls st)) e4)) = true).
        rewrite (no_iter_app (app e1 e2)), (no_iter_app (exec_events _)), P1, X1, E6. reflexivity.
    + destruct h; [rewrite Hk; discriminate|]. destruct Hk as (? & -> & _). discriminate.
Qed.

Lemma agent_loop_shape (a : Agent.agent) (ht : bool) :
  settle_covers settle_order ->
  forall fuel it msgs, it + fuel = passes (Agent.maxIterations a) ->
  exists segs, Agent.agent_loop json_parse stream_text call_tool settle_order a ht fuel it msgs
                 = (concat segs, Some (it + length segs)) /\
    it + length segs <= passes (Agent.maxIterations a) /\ (0 < fuel -> 0 < length segs) /\
    forall j s, nth_error segs j = Some s -> iteration_segment (S (it + j)) (Agent.maxIterations a) s.
Proof.
  intros Hs fuel. induction fuel as [|f IH]; intros it msgs Hn.
  - exists []. simpl. rewrite Nat.add_0_r. split; [reflexivity|]. split; [lia|]. split; [lia|].
    intros j s Hj. destruct j; discriminate.
  - simpl. replace (num_lt it (Agent.maxIterations a)) with true
      by (rewrite num_lt_passes; symmetry; apply Nat.ltb_lt; lia).
    destruct (Agent.iteration_body json_parse stream_text call_tool settle_order a ht (S it) msgs)
      as [evs k] eqn:Eb.
    destruct (body_segment _ _ _ _ _ _ Hs Eb) as [Hseg Hk].
    destruct k as [msgs'| |]; [| |contradiction].
    + destruct (IH (S it) msgs' ltac:(lia)) as (segs & El & Hle & _ & Hsegs).
      rewrite El. exists (evs :: segs). simpl.
      split; [do 2 f_equal; lia|]. split; [lia|]. split; [lia|].
      intros [|j] s Hj; simpl in Hj.
      * injection Hj as <-. rewrite Nat.add_0_r. exact Hseg.
      * rewrite Nat.add_succ_r. exact (Hsegs j s Hj).
    + exists [evs]. simpl. rewrite app_nil_r, Nat.add_1_r. split; [reflexivity|]. split; [lia|].
      split; [lia|]. intros [|j] s Hj; simpl in Hj.
      * injection Hj as <-. rewrite Nat.add_0_r. exact Hseg.
      * destruct j; discriminate.
Qed.

(** The first event of a turn: [ITERATION_START 1] when [0 < maxIterations],
    [COMPLETE 0] alone otherwise. *)
Lemma agent_turn_start (a : Agent.agent) (tools : list string) (um : string)
    (hist : list (string * string)) (allowed : option (list string)) :
  ((0 < Agent.maxIterations a)%Q ->
     exists rest, Agent.chatStream json_parse stream_text call_tool settle_order a tools um hist allowed
                  = EvIterationStart 1 (Agent.maxIterations a) :: rest) /\
  ((Agent.maxIterations a <= 0)%Q ->
     Agent.chatStream json_parse stream_text call_tool settle_order a tools um hist allowed = [EvComplete 0]).
Proof.
  pose proof (passes_spec 0 (Agent.maxIterations a)) as Hp. cbn [Z.of_nat inject_Z] in Hp.
  unfold Agent.chatStream. split; intros Hm.
  - destruct (passes (Agent.maxIterations a)) as [|f] eqn:P; [apply Hp in Hm; lia|].
    cbn [Agent.agent_loop]. rewrite num_lt_passes, P. cbn [Nat.ltb Nat.leb].
    match goal with |- context [Agent.iteration_body ?j ?s ?c ?so a ?ht 1 ?ms] =>
      destruct (Agent.iteration_body j s c so a ht 1 ms) as [evs k] eqn:Eb end.
    destruct (body_decomp _ _ _ _ _ _ _ _ _ _ Eb) as (msgs1 & e1 & e2 & st & _ & _ & Hd).
    assert (Hh : exists r, evs = EvIterationStart 1 (Agent.maxIterations a) :: r)
      by (destruct Hd as [(_ & -> & _)|[(_ & _ & -> & _)|(_ & e4 & h & _ & _ & -> & _)]]; eauto).
    destruct Hh as [r ->].
    destruct k as [msgs'| |].
    + match goal with |- context [Agent.agent_loop ?j ?s ?c ?so a ?ht f 1 msgs'] =>
        destruct (Agent.agent_loop j s c so a ht f 1 msgs') as [evs' r'] end.
      eexists. reflexivity.
    + eexists. reflexivity.
    + eexists. reflexivity.
  - destruct (passes (Agent.maxIterations a)) as [|f] eqn:P; [reflexivity|].
    exfalso. apply (Qlt_not_le _ _ (proj1 Hp ltac:(lia)) Hm).
Qed.
End AgentShape.

Section PBShape.
Variable json_parse : string -> option jsval.
Variable stream_text : stream_request -> list chunk.
Variable call_tool : string -> jsval -> outcome.
Variable json_stringify : jsval -> string.
Variable clock : nat -> nat.

Lemma pb_loop_shape (mx : Q) :
  forall fuel it msgs, it + fuel = passes mx ->
  exists segs, PromptBasedAgent.pb_loop json_parse stream_text call_tool json_stringify clock mx fuel it msgs
                 = (concat segs, it + length segs) /\
    it + length segs <= passes mx /\ (0 < fuel -> 0 < length segs) /\
    forall j s, nth_error segs j = Some s -> iteration_segment (S (it + j)) mx s.
Proof.
  intros fuel. induction fuel as [|f IH]; intros it msgs Hn.
  - exists []. simpl. rewrite Nat.add_0_r. split; [reflexivity|]. split; [lia|]. split; [lia|].
    intros j s Hj; destruct j; discriminate.
  - simpl. replace (num_lt it mx) with true by (rewrite num_lt_passes; symmetry; apply Nat.ltb_lt; lia).
    destruct (PromptBasedAgent.iteration_body json_parse stream_text call_tool json_stringify clock (S it) msgs)
      as [evs k] eqn:Eb.
    destruct (pb_iter_facts _ _ _ _ _ _ _ _ _ Eb) as (mid & Hevs & N & _).
    set (seg := EvIterationStart (S it) mx :: evs).
    assert (Hseg : iteration_segment (S it) mx seg) by (exists mid; unfold seg; rewrite Hevs; auto).
    destruct k as [msgs'|].
    + destruct (IH (S it) msgs' ltac:(lia)) as (segs & El & Hle & _ & Hsegs).
      rewrite El. exists (seg :: segs). simpl.
      split; [do 2 f_equal; lia|]. split; [lia|]. split; [lia|].
      intros [|j] s Hj; simpl in Hj.
      * injection Hj as <-. rewrite Nat.add_0_r. exact Hseg.
      * rewrite Nat.add_succ_r. exact (Hsegs j s Hj).
    + exists [seg]. simpl. rewrite app_nil_r, Nat.add_1_r. split; [reflexivity|]. split; [lia|].
      split; [lia|]. intros [|j] s Hj; simpl in Hj.
      * injection Hj as <-. rewrite Nat.add_0_r. exact Hseg.
      * destruct j; discriminate.
Qed.

Lemma pb_turn_start (mx : Q) (sp um : string) (hist : list (string * string)) :
  ((0 < mx)%Q ->
     exists rest, PromptBasedAgent.chatStream json_parse stream_text call_tool json_stringify clock mx sp um hist
                  = EvIterationStart 1 mx :: rest) /\
  ((mx <= 0)%Q ->
     PromptBasedAgent.chatStream json_parse stream_text call_tool json_stringify clock mx sp um hist = [EvComplete 0]).
Proof.
  pose proof (passes_spec 0 mx) as Hp. cbn [Z.of_nat inject_Z] in Hp.
  unfold PromptBasedAgent.chatStream. split; intros Hm.
  - destruct (passes mx) as [|f] eqn:P; [apply Hp in Hm; lia|].
    cbn [PromptBasedAgent.pb_loop]. rewrite num_lt_passes, P. cbn [Nat.ltb Nat.leb].
    match goal with |- context [PromptBasedAgent.iteration_body ?j ?s ?c ?js ?cl 1 ?ms] =>
      destruct (PromptBasedAgent.iteration_body j s c js cl 1 ms) as [evs k] end.
    destruct k as [msgs'|].
    + match goal with |- context [PromptBasedAgent.pb_loop ?j ?s ?c ?js ?cl mx f 1 msgs'] =>
        destruct (PromptBasedAgent.pb_loop j s c js cl mx f 1 msgs') end.
      eexists. reflexivity.
    + eexists. reflexivity.
  - destruct (passes mx) as [|f] eqn:P; [reflexivity|].
    exfalso. apply (Qlt_not_le _ _ (proj1 Hp ltac:(lia)) Hm).
Qed.
End PBShape.

(** [options.maxIterations || 10] is positive unless the option is negative,
    and is the option itself when that is negative. *)
Lemma or_10_sign (o : option Q) :
  ((forall q, o = Some q -> (0 <= q)%Q) -> (0 < or_10 o)%Q) /\
  (forall q, o = Some q -> (q < 0)%Q -> or_10 o = q).
Proof.
  unfold or_10. split.
  - intros H. destruct o as [q|]; [|reflexivity].
    destruct (Qeq_bool q 0) eqn:E; [reflexivity|].
    specialize (H q eq_refl). apply Qle_lt_or_eq in H as [H|H]; [exact H|].
    exfalso. assert (Hq : Qeq_bool q 0 = true) by (apply Qeq_bool_iff; symmetry; exact H). congruence.
  - intros q -> Hq. destruct (Qeq_bool q 0) eqn:E; [|reflexivity].
    apply Qeq_bool_iff in E. exfalso. rewrite E in Hq. discriminate Hq.
Qed.

(** Extra X1: a native turn whose parallel calls all settle: [ITERATION_START] /
    [ITERATION_END] pairs numbered 1, 2, ..., n, then [COMPLETE n]; an
    iteration j + 1 starts only when j < [maxIterations] (so n is at most
    [maxIterations] rounded up: 3 for 2.5, none for a negative value), and
    there is at least one iteration when [maxIterations] is positive. *)
Theorem agent_turn_shape
    (json_parse : string -> option jsval) (stream_text : stream_request -> list chunk)
    (call_tool : string -> jsval -> outcome) (settle_order : nat -> nat -> list nat)
    (a : Agent.agent) (tools : list string) (um : string) (hist : list (string * string))
    (allowed : option (list string)) (Hs : settle_covers settle_order) :
  turn_shape (Agent.maxIterations a)
    (Agent.chatStream json_parse stream_text call_tool settle_order a tools um hist allowed).
Proof.
  unfold Agent.chatStream.
  match goal with |- context [Agent.agent_loop _ _ _ _ a ?ht _ 0 ?m] =>
    destruct (agent_loop_shape json_parse stream_text call_tool settle_order a ht Hs
                (passes (Agent.maxIterations a)) 0 m eq_refl) as (segs & El & Hle & Hpos & Hsegs) end.
  rewrite El. exists segs. split; [reflexivity|]. split.
  - intros Hm. apply Hpos. apply (passes_spec 0). exact Hm.
  - intros j s Hj. split; [|exact (Hsegs j s Hj)].
    apply passes_spec. assert (j < length segs) by (apply nth_error_Some; congruence). lia.
Qed.

Lemma agent_turn_shape_witness :
  settle_covers reverse_settle /\
  turn_shape (Agent.maxIterations plain_agent)
    (Agent.chatStream JSON_parse loop_model ok_tool reverse_settle plain_agent ["lookup"] "hi" [] None).
Proof.
  split; [exact reverse_settle_covers|].
  apply (agent_turn_shape JSON_parse loop_model ok_tool reverse_settle plain_agent ["lookup"] "hi" [] None).
  exact reverse_settle_covers.
Defined.

(** Extra X2: a text-convention turn, with any model and tools: iterations
    numbered 1, 2, ..., n, then [COMPLETE n]; an iteration j + 1 starts
    only when j < [maxIterations] (so n is at most [maxIterations] rounded
    up), there is at least one when [maxIterations] is positive, and the
    turn never waits for ever. *)
Theorem pb_turn_shape
    (json_parse : string -> option jsval) (stream_text : stream_request -> list chunk)
    (call_tool : string -> jsval -> outcome) (json_stringify : jsval -> string) (clock : nat -> nat)
    (mx : Q) (sp um : string) (hist : list (string * string)) :
  turn_shape mx (PromptBasedAgent.chatStream json_parse stream_text call_tool json_stringify clock mx sp um hist).
Proof.
  unfold PromptBasedAgent.chatStream.
  destruct (pb_loop_shape json_parse stream_text call_tool json_stringify clock mx (passes mx) 0
              (MSystem sp :: app (map history_message hist) [MUser um]) eq_refl)
    as (segs & El & Hle & Hpos & Hsegs).
  rewrite El. exists segs. split; [reflexivity|]. split.
  - intros Hm. apply Hpos. apply (passes_spec 0). exact Hm.
  - intros j s Hj. split; [|exact (Hsegs j s Hj)].
    apply passes_spec. assert (j < length segs) by (apply nth_error_Some; congruence). lia.
Qed.

(** Extra X3: the [Agent] constructor's [options.maxIterations || 10]: a
    turn of the constructed agent starts with [ITERATION_START 1] when the
    option is missing, zero or positive, and is [COMPLETE 0] alone, with no
    model call, when the option is negative. *)
Theorem new_Agent_first_iteration
    (json_parse : string -> option jsval) (stream_text : stream_request -> list chunk)
    (call_tool : string -> jsval -> outcome) (settle_order : nat -> nat -> list nat)
    (sp tsp : string) (o : Agent.agent_options)
    (tools : list string) (um : string) (hist : list (string * string)) (allowed : option (list string)) :
  let a := Agent.new_Agent sp tsp o in
  ((forall q, Agent.o_maxIterations o = Some q -> (0 <= q)%Q) ->
     exists rest,
       Agent.chatStream json_parse stream_text call_tool settle_order a tools um hist allowed
         = EvIterationStart 1 (Agent.maxIterations a) :: rest) /\
  (forall q, Agent.o_maxIterations o = Some q -> (q < 0)%Q ->
     Agent.chatStream json_parse stream_text call_tool settle_order a tools um hist allowed = [EvComplete 0]).
Proof.
  intros a. destruct (or_10_sign (Agent.o_maxIterations o)) as [S1 S2].
  destruct (agent_turn_start json_parse stream_text call_tool settle_order a tools um hist allowed) as [T1 T2].
  split.
  - intros Hq. apply T1. exact (S1 Hq).
  - intros q Hq Hneg. apply T2. change (Agent.maxIterations a) with (or_10 (Agent.o_maxIterations o)).
    rewrite (S2 q Hq Hneg). apply Qlt_le_weak. exact Hneg.
Qed.

(** Extra X4: the [PromptBasedAgent] constructor's [options.maxIterations || 10]:
    a text-convention turn starts with [ITERATION_START 1] when the option
    is missing, zero or positive, and is [COMPLETE 0] alone, with no model
    call, when the option is negative. *)
Theorem pb_first_iteration
    (json_parse : string -> option jsval) (stream_text : stream_request -> list chunk)
    (call_tool : string -> jsval -> outcome) (json_stringify : jsval -> string) (clock : nat -> nat)
    (o : option Q) (sp um : string) (hist : list (string * string)) :
  ((forall q, o = Some q -> (0 <= q)%Q) ->
     exists rest,
       PromptBasedAgent.chatStream json_parse stream_text call_tool json_stringify clock
         (PromptBasedAgent.resolve_max o) sp um hist
         = EvIterationStart 1 (PromptBasedAgent.resolve_max o) :: rest) /\
  (forall q, o = Some q -> (q < 0)%Q ->
     PromptBasedAgent.chatStream json_parse stream_text call_tool json_stringify clock
       (PromptBasedAgent.resolve_max o) sp um hist = [EvComplete 0]).
Proof.
  destruct (or_10_sign o) as [S1 S2].
  destruct (pb_turn_start json_parse stream_text call_tool json_stringify clock
              (PromptBasedAgent.resolve_max o) sp um hist) as [T1 T2].
  split.
  - intros Hq. apply T1. exact (S1 Hq).
  - intros q Hq Hneg. apply T2. unfold PromptBasedAgent.resolve_max.
    rewrite (S2 q Hq Hneg). apply Qlt_le_weak. exact Hneg.
Qed.

Lemma promise_fold_untouched {A} (values : list A) (i : nat) (order : list nat) :
  ~ In i order -> forall slots,
  nth_error (fold_left (fun slots j => list_set slots j (nth_error values j)) order slots) i
    = nth_error slots i.
Proof.
  induction order as [|j order IH]; intros Hi slots; simpl; [reflexivity|].
  rewrite IH by (intros H; apply Hi; right; exact H).
  rewrite nth_error_list_set. destruct (Nat.eqb j i) eqn:E; [|reflexivity].
  apply Nat.eqb_eq in E. subst. exfalso. apply Hi. left. reflexivity.
Qed.

Lemma promise_all_unsettled {A} (values : list A) (order : list nat) (i : nat) :
  i < length values -> ~ In i order -> promise_all order values = None.
Proof.
  intros Hl Hi. unfold promise_all.
  destruct (all_settled _) as [ys|] eqn:E; [|reflexivity].
  apply all_settled_some in E.
  pose proof (promise_fold_untouched values i order Hi (map (fun _ => None) values)) as Hn.
  rewrite E, nth_error_map, nth_error_map in Hn.
  destruct (nth_error values i) eqn:Ev; [|apply nth_error_None in Ev; lia].
  destruct (nth_error ys i); discriminate.
Qed.

Lemma covers_all_spec (order : list nat) (n : nat) :
  covers_all order n = true <-> forall i, i < n -> In i order.
Proof.
  unfold covers_all. rewrite forallb_forall. split.
  - intros H i Hi. specialize (H i (proj2 (in_seq n 0 i) (conj (Nat.le_0_l i) Hi))).
    apply existsb_exists in H. destruct H as (j & Hj & E). apply Nat.eqb_eq in E. subst. exact Hj.
  - intros H i Hi. apply in_seq in Hi. apply existsb_exists. exists i.
    split; [apply H; lia|apply Nat.eqb_refl].
Qed.

Lemma forallb_false_exists {A} (f : A -> bool) (l : list A) :
  forallb f l = false -> exists x, In x l /\ f x = false.
Proof.
  induction l as [|x l IH]; simpl; [discriminate|].
  destruct (f x) eqn:E; simpl; [intros H; destruct (IH H) as (y & Hy & Fy); eauto|eauto].
Qed.

Lemma subseq_NoDup {A} (l1 l2 : list A) : subseq l1 l2 -> NoDup l2 -> NoDup l1.
Proof.
  intros H. induction H as [|x l1 l2 H IH|x l1 l2 H IH]; intros Hn; auto.
  - inversion Hn; subst. auto.
  - inversion Hn; subst. constructor; auto.
    intros Hx. apply (subseq_incl _ _ H) in Hx. contradiction.
Qed.

Lemma on_chunk_ids (id : string) (st : Agent.it_state) (c : chunk) :
  let '(st1, _) := Agent.on_chunk st c in
  incl (sent st) (sent st1) /\
  (forall x, In x (call_ids st1) -> In x (call_ids st) \/ (In x (tool_call_chunk_ids [c]) /\ ~ In x (sent st))) /\
  (forall nm, c = CToolCallStreamingStart id nm -> In id (sent st1)).
Proof.
  destruct st as [ft tcs cur hst hsr snt inside tb]. unfold sent, call_ids.
  destruct c as [d|d|cid nm args|cid nm|cid d| |e|]; cbn [Agent.on_chunk].
  - simpl. split; [apply incl_refl|]. split; [auto|]. intros ? H; discriminate.
  - pose proof (on_text_delta_facts (Agent.mk_it ft tcs cur hst hsr snt inside tb) d) as (H1 & H2 & _).
    destruct (Agent.on_text_delta _ d) as [st1 e]. simpl in H1, H2 |- *. rewrite H1, H2.
    split; [apply incl_refl|]. split; [auto|]. intros ? H; discriminate.
  - destruct (existsb (String.eqb cid) snt) eqn:E; simpl.
    + split; [apply incl_refl|]. split; [auto|]. intros ? H; discriminate.
    + split; [apply incl_tl, incl_refl|]. split; [|intros ? H; discriminate].
      intros x Hx. rewrite map_app in Hx. apply in_app_or in Hx. destruct Hx as [Hx|[Hx|[]]]; [auto|].
      simpl in Hx. subst x. right. split; [left; reflexivity|]. apply existsb_eqb_false. exact E.
  - destruct (existsb (String.eqb cid) snt) eqn:E; simpl.
    + split; [apply incl_refl|]. split; [auto|]. intros nm' H. injection H as -> _.
      apply existsb_exists in E. destruct E as (y & Hy & Ey). apply String.eqb_eq in Ey. subst. exact Hy.
    + split; [apply incl_tl, incl_refl|]. split; [auto|]. intros nm' H. injection H as -> _. left. reflexivity.
  - destruct cur as [[[ccid cname] argsText]|]; simpl;
      (split; [apply incl_refl|]); (split; [auto|]); intros ? H; discriminate.
  - pose proof (on_finish_facts (Agent.mk_it ft tcs cur hst hsr snt inside tb)) as (H1 & H2 & _).
    destruct (Agent.on_finish _) as [st1 e]. simpl in H1, H2 |- *. rewrite H1, H2.
    split; [apply incl_refl|]. split; [auto|]. intros ? H; discriminate.
  - simpl. split; [apply incl_refl|]. split; [auto|]. intros ? H; discriminate.
  - simpl. split; [apply incl_refl|]. split; [auto|]. intros ? H; discriminate.
Qed.

Lemma run_stream_app (st : Agent.it_state) (a b : list chunk) :
  Agent.run_stream st (app a b) =
    let '(st1, e1) := Agent.run_stream st a in
    let '(st2, e2) := Agent.run_stream st1 b in (st2, app e1 e2).
Proof.
  revert st; induction a as [|c a IH]; intros st; simpl.
  - destruct (Agent.run_stream st b); reflexivity.
  - destruct (Agent.on_chunk st c) as [st1 e1]. rewrite IH.
    destruct (Agent.run_stream st1 a) as [st2 e2]. destruct (Agent.run_stream st2 b) as [st3 e3].
    rewrite app_assoc. reflexivity.
Qed.

(** A call id that is not collected and not among the complete [tool-call]
    chunks stays uncollected; one that is already in [sentToolCallStarts]
    stays uncollected whatever follows. *)
Lemma run_stream_ids (id : string) (cs : list chunk) : forall st,
  ~ In id (call_ids st) ->
  (~ In id (tool_call_chunk_ids cs) \/ In id (sent st)) ->
  ~ In id (call_ids (fst (Agent.run_stream st cs))).
Proof.
  induction cs as [|c cs IH]; intros st Hc Hor; simpl; [exact Hc|].
  pose proof (on_chunk_ids id st c) as Hk.
  destruct (Agent.on_chunk st c) as [st1 e1] eqn:Ec.
  destruct Hk as (K1 & K2 & _).
  destruct (Agent.run_stream st1 cs) as [st2 e2] eqn:Er. simpl.
  change st2 with (fst (st2, e2)). rewrite <- Er. apply IH.
  - intros Hx. destruct (K2 id Hx) as [Hx'|[Hx' Hs]]; [exact (Hc Hx')|].
    destruct Hor as [Hor|Hor]; [|exact (Hs Hor)].
    apply Hor. simpl in Hx' |- *. rewrite app_nil_r in Hx'. apply in_or_app. left. exact Hx'.
  - destruct Hor as [Hor|Hor]; [left|right; exact (K1 _ Hor)].
    intros Hx. apply Hor. simpl. apply in_or_app. right. exact Hx.
Qed.

(** Extra X5: the tool results of a native iteration: the parallel path
    ([parallelToolCalls] and two or more calls) gives the outcomes of the
    calls in call order whatever the order in which they settle, and
    nothing (the iteration waits for ever) when some call never settles;
    the serial path always gives the outcomes in call order. *)
Theorem run_tools_outcomes (call_tool : string -> jsval -> outcome) (settle_order : nat -> nat -> list nat)
    (a : Agent.agent) (it : nat) (tcs : list tool_call) :
  Agent.run_tools call_tool settle_order a it tcs =
    if Agent.parallelToolCalls a && (1 <? length tcs)
       && negb (covers_all (settle_order it (length tcs)) (length tcs))
    then None
    else Some (map (Agent.exec_call call_tool) tcs).
Proof.
  unfold Agent.run_tools.
  destruct (Agent.parallelToolCalls a && (1 <? length tcs)); simpl; [|reflexivity].
  destruct (covers_all (settle_order it (length tcs)) (length tcs)) eqn:E; simpl.
  - apply promise_all_settles. intros i Hi. rewrite length_map in Hi.
    apply (proj1 (covers_all_spec _ _) E). exact Hi.
  - assert (Hx : exists i, i < length tcs /\ ~ In i (settle_order it (length tcs))).
    { unfold covers_all in E. destruct (forallb_false_exists _ _ E) as (i & Hi & Hf).
      exists i. apply in_seq in Hi. split; [lia|]. intros Hin.
      assert (Ht : existsb (Nat.eqb i) (settle_order it (length tcs)) = true)
        by (apply existsb_exists; exists i; split; [exact Hin|apply Nat.eqb_refl]).
      congruence. }
    destruct Hx as (i & Hi & Hn). apply (promise_all_unsettled _ _ i); [rewrite length_map; exact Hi|exact Hn].
Qed.

Lemma streamed_call_not_collected (pre post : list chunk) (id nm : string) :
  ~ In id (tool_call_chunk_ids pre) ->
  ~ In id (map tc_id (Agent.toolCalls (fst (Agent.run_stream Agent.it_init
                                               (app pre (CToolCallStreamingStart id nm :: post)))))).
Proof.
  intros Hpre. rewrite run_stream_app.
  pose proof (run_stream_ids id pre Agent.it_init (fun H => H) (or_introl Hpre)) as H1.
  destruct (Agent.run_stream Agent.it_init pre) as [st1 e1]. simpl in H1.
  simpl. pose proof (on_chunk_ids id st1 (CToolCallStreamingStart id nm)) as Hk.
  destruct (Agent.on_chunk st1 (CToolCallStreamingStart id nm)) as [st2 e2].
  destruct Hk as (_ & K2 & K3).
  assert (H2 : ~ In id (call_ids st2)).
  { intros Hx. destruct (K2 id Hx) as [Hx'|[[] _]]. exact (H1 Hx'). }
  pose proof (run_stream_ids id post st2 H2 (or_intror (K3 nm eq_refl))) as H3.
  destruct (Agent.run_stream st2 post) as [st3 e3]. exact H3.
Qed.

(** Extra X6: in one model response of a native iteration, each tool-call id
    gets at most one [TOOL_CALL_START] event and is collected (so executed)
    at most once, even when the model repeats a [tool-call] chunk; every
    [TOOL_CALL_START] id comes from a chunk of the response. *)
Theorem stream_calls_once (cs : list chunk) :
  let '(st, e) := Agent.run_stream Agent.it_init cs in
  NoDup (start_ids e) /\ NoDup (map tc_id (Agent.toolCalls st)) /\ incl (start_ids e) (chunk_ids cs).
Proof.
  destruct (Agent.run_stream Agent.it_init cs) as [st e] eqn:E.
  destruct (run_stream_init _ _ _ E) as (_ & N & Sq & I & _).
  split; [exact N|]. split; [exact (subseq_NoDup _ _ Sq N)|exact I].
Qed.

(** Extra X7: a call whose [tool-call-streaming-start] chunk arrives before any
    complete [tool-call] chunk with its id is never executed by a native
    iteration: the start marks the id as sent, and the later [tool-call]
    chunk is then skipped without being collected, so the iteration emits
    no [TOOL_EXECUTING] for that id. *)
Theorem streamed_call_never_executed
    (json_parse : string -> option jsval) (stream_text : stream_request -> list chunk)
    (call_tool : string -> jsval -> outcome) (settle_order : nat -> nat -> list nat)
    (a : Agent.agent) (ht : bool) (it : nat) (msgs : list message) (id : string)
    (Hstream : forall m b, exists pre nm post,
        stream_text (MainRequest m b) = app pre (CToolCallStreamingStart id nm :: post) /\
        ~ In id (tool_call_chunk_ids pre)) :
  ~ In id (executing_ids
             (fst (Agent.iteration_body json_parse stream_text call_tool settle_order a ht it msgs))).
Proof.
  destruct (Agent.iteration_body json_parse stream_text call_tool settle_order a ht it msgs) as [evs k] eqn:Eb.
  simpl. destruct (body_decomp _ _ _ _ _ _ _ _ _ _ Eb) as (msgs1 & e1 & e2 & st & Ht & Hst & Hd).
  destruct (pre_facts _ _ _ _ _ _ _ _ _ Ht Hst) as (_ & _ & _ & _ & P4 & _).
  destruct (exec_events_facts (Agent.toolCalls st)) as (_ & _ & _ & _ & X5 & _).
  destruct (Hstream msgs1 ht) as (pre & nm & post & Es & Hpre).
  pose proof (streamed_call_not_collected pre post id nm Hpre) as Hn.
  rewrite <- Es, Hst in Hn. simpl in Hn.
  assert (Hs : forall i m l, executing_ids (EvIterationStart i m :: l) = executing_ids l) by reflexivity.
  destruct Hd as [(_ & -> & _)|[(_ & _ & -> & _)|(_ & e4 & h & _ & He & -> & _)]];
    rewrite Hs, (executing_ids_app (app e1 e2)), P4.
  - simpl. auto.
  - rewrite X5. exact Hn.
  - destruct (emit_results_facts _ _ _ _ _ He) as (_ & _ & _ & E4 & _).
    rewrite !executing_ids_app, X5, E4. simpl. rewrite app_nil_r. exact Hn.
Qed.

Lemma streamed_call_never_executed_witness :
  (forall m b, exists pre nm post,
      streaming_model (MainRequest m b) = app pre (CToolCallStreamingStart "c1" nm :: post) /\
      ~ In "c1" (tool_call_chunk_ids pre)) /\
  ~ In "c1" (executing_ids
               (fst (Agent.iteration_body JSON_parse streaming_model ok_tool reverse_settle plain_agent true 1
                       [MSystem "sys"; MUser "hi"]))).
Proof.
  assert (H : forall m b, exists pre nm post,
      streaming_model (MainRequest m b) = app pre (CToolCallStreamingStart "c1" nm :: post) /\
      ~ In "c1" (tool_call_chunk_ids pre)).
  { intros m b. exists [], "lookup", [CToolCallDelta "c1" "{}"; CToolCall "c1" "lookup" (JObj []); CFinish].
    split; [reflexivity|simpl; auto]. }
  split; [exact H|].
  exact (streamed_call_never_executed JSON_parse streaming_model ok_tool reverse_settle plain_agent true 1
           [MSystem "sys"; MUser "hi"] "c1" H).
Defined.

(** Extra X8: immediate-result matchers compose by union: matching against the
    concatenation of two matcher lists is matching against either. *)
Theorem matchImmediateResult_app (json_parse : string -> option jsval) (ms1 ms2 : list matcher) (r : jsval) :
  matchImmediateResult json_parse (app ms1 ms2) r
    = matchImmediateResult json_parse ms1 r || matchImmediateResult json_parse ms2 r.
Proof.
  destruct ms1 as [|m1 ms1]; [reflexivity|].
  destruct ms2 as [|m2 ms2]; [rewrite app_nil_r, Bool.orb_false_r; reflexivity|].
  unfold matchImmediateResult. simpl app. cbv zeta.
  destruct (match r with
            | JStr s => match json_parse s with
                        | Some parsed => if is_object parsed then Some parsed else None
                        | None => None end
            | _ => if is_object r then Some r else None end) as [o|]; [|reflexivity].
  change (existsb ?f (m1 :: app ms1 (m2 :: ms2))) with (existsb f (app (m1 :: ms1) (m2 :: ms2))).
  apply existsb_app.
Qed.

Lemma strict_eq_object (x v : jsval) : is_object v = true -> strict_eq x v = false.
Proof. destruct v; try discriminate; destruct x; reflexivity. Qed.

(** Extra X9: [!==] compares objects by reference, so a matcher with an entry
    whose expected value is an object or an array never matches: when
    every matcher has such an entry, no tool result is ever immediate. *)
Theorem matchImmediateResult_object_values (json_parse : string -> option jsval) (ms : list matcher)
    (Hobj : forall m, In m ms -> exists k v, In (k, v) m /\ is_object v = true) (r : jsval) :
  matchImmediateResult json_parse ms r = false.
Proof.
  unfold matchImmediateResult. destruct ms as [|m0 ms0]; [reflexivity|].
  destruct (match r with
            | JStr s => match json_parse s with
                        | Some parsed => if is_object parsed then Some parsed else None
                        | None => None end
            | _ => if is_object r then Some r else None end) as [o|]; [|reflexivity].
  apply Bool.not_true_iff_false. intros H. apply existsb_exists in H. destruct H as (m & Hm & Hf).
  destruct (Hobj m Hm) as (k & v & Hkv & Hv). rewrite forallb_forall in Hf.
  specialize (Hf (k, v) Hkv). simpl in Hf. rewrite strict_eq_object in Hf by exact Hv. discriminate.
Qed.

Lemma matchImmediateResult_object_values_witness :
  (forall m, In m [[("meta", JObj [("type", JStr "card")])]] ->
     exists k v, In (k, v) m /\ is_object v = true) /\
  matchImmediateResult JSON_parse [[("meta", JObj [("type", JStr "card")])]]
    (JObj [("meta", JObj [("type", JStr "card")])]) = false.
Proof.
  assert (H : forall m, In m [[("meta", JObj [("type", JStr "card")])]] ->
     exists k v, In (k, v) m /\ is_object v = true).
  { intros m [<-|[]]. exists "meta", (JObj [("type", JStr "card")]). split; [left; reflexivity|reflexivity]. }
  split; [exact H|].
  exact (matchImmediateResult_object_values JSON_parse _ H _).
Defined.

(** Extra X10: a matcher with no entries ([{}]) makes every tool result that is an
    object or an array, or a string that [JSON.parse] turns into one,
    immediate; other results (numbers, booleans, [null], other strings)
    never are. *)
Theorem matchImmediateResult_empty_matcher (json_parse : string -> option jsval) (ms : list matcher)
    (Hempty : In [] ms) (r : jsval) :
  matchImmediateResult json_parse ms r =
    match r with
    | JStr s => match json_parse s with Some o => is_object o | None => false end
    | _ => is_object r
    end.
Proof.
  unfold matchImmediateResult. destruct ms as [|m0 ms0]; [destruct Hempty|].
  assert (He : existsb (fun m => forallb (fun kv => strict_eq (get_prop r (fst kv)) (snd kv)) m) (m0 :: ms0) = true)
    by (apply existsb_exists; exists []; split; [exact Hempty|reflexivity]).
  destruct r as [| |b|z|s|l|l]; try reflexivity.
  - destruct (json_parse s) as [o|]; [|reflexivity]. destruct (is_object o) eqn:Eo; [|reflexivity].
    apply existsb_exists. exists []. split; [exact Hempty|reflexivity].
  - exact He.
  - exact He.
Qed.

Lemma matchImmediateResult_empty_matcher_witness :
  In [] [card_matcher; []] /\
  matchImmediateResult JSON_parse [card_matcher; []] (JStr "{}") = true.
Proof.
  split; [right; left; reflexivity|].
  rewrite (matchImmediateResult_empty_matcher JSON_parse [card_matcher; []] ltac:(right; left; reflexivity)).
  vm_compute. reflexivity.
Defined.

(** Extra X11: the thinking-phase summary of a tool result: a string that is not
    valid JSON is summarized without a count; a non-empty array (or a
    string parsing to one) of k elements as containing k records; and an
    object whose [data] field is an empty array without a count, even when
    a later field ([list], [items], [records], [results]) is a non-empty
    array. *)
Theorem summarizeToolResult_counts (json_parse : string -> option jsval) (nm : string) :
  (forall s, json_parse s = None ->
     summarizeToolResult json_parse nm (JStr s) = "[工具 " ++ nm ++ " 返回了数据]") /\
  (forall x l, summarizeToolResult json_parse nm (JArr (x :: l))
     = "[工具 " ++ nm ++ " 返回了数据，包含 " ++ nat_to_string (S (length l)) ++ " 条记录]") /\
  (forall s x l, json_parse s = Some (JArr (x :: l)) ->
     summarizeToolResult json_parse nm (JStr s)
     = "[工具 " ++ nm ++ " 返回了数据，包含 " ++ nat_to_string (S (length l)) ++ " 条记录]") /\
  (forall fields, get_prop (JObj fields) "data" = JArr [] ->
     summarizeToolResult json_parse nm (JObj fields) = "[工具 " ++ nm ++ " 返回了数据]").
Proof.
  split; [intros s H; unfold summarizeToolResult; rewrite H; reflexivity|].
  split; [intros x l; reflexivity|].
  split; [intros s x l H; unfold summarizeToolResult; rewrite H; reflexivity|].
  intros fields H. unfold summarizeToolResult. cbn [find]. rewrite H. cbv beta iota. rewrite H. reflexivity.
Qed.

Lemma filter_subseq {A} (f : A -> bool) (l : list A) : subseq (filter f l) l.
Proof.
  induction l as [|x l IH]; [constructor|]. cbn [filter].
  destruct (f x); [apply subseq_take | apply subseq_skip]; exact IH.
Qed.

Lemma count_occ_filter_string (f : string -> bool) (l : list string) (t : string) :
  count_occ string_dec (filter f l) t = if f t then count_occ string_dec l t else 0.
Proof.
  induction l as [|x l IH]; [destruct (f t); reflexivity|]. cbn [filter count_occ].
  destruct (string_dec x t) as [->|Hne].
  - destruct (f t) eqn:E; cbn [count_occ]; [destruct (string_dec t t) as [_|C]; [f_equal; exact IH|congruence]|exact IH].
  - destruct (f x); cbn [count_occ]; [destruct (string_dec x t); [congruence|]|]; exact IH.
Qed.

(** Extra X12: the [allowedTools] filter of [chatStream]: without the option, or
    with an empty list, every tool is kept; with a non-empty list, the
    result is the server's tools with some left out, in the server's
    order, and keeps every occurrence of a listed tool and none of an
    unlisted one. *)
Theorem filter_tools_spec (tools : list string) :
  filter_tools None tools = tools /\ filter_tools (Some []) tools = tools /\
  forall a l, subseq (filter_tools (Some (a :: l)) tools) tools /\
    forall t, count_occ string_dec (filter_tools (Some (a :: l)) tools) t
              = if in_dec string_dec t (a :: l) then count_occ string_dec tools t else 0.
Proof.
  split; [reflexivity|]. split; [reflexivity|]. intros a l. split.
  - apply filter_subseq.
  - intros t. unfold filter_tools. rewrite count_occ_filter_string.
    destruct (existsb (String.eqb t) (a :: l)) eqn:E; destruct (in_dec string_dec t (a :: l)) as [Hin|Hn];
      try reflexivity.
    + exfalso. apply existsb_exists in E. destruct E as (y & Hy & Ey). apply String.eqb_eq in Ey. subst. contradiction.
    + exfalso. assert (E' : existsb (String.eqb t) (a :: l) = true)
        by (apply existsb_exists; exists t; split; [exact Hin|apply String.eqb_refl]). congruence.
Qed.

Lemma call_of_json_ok (json : jsval) (n : string) (a : jsval) :
  call_of_json json = inr (Some (n, a)) -> n <> "" /\ js_truthy a = true.
Proof.
  unfold call_of_json.
  destruct (js_get json "name") as [e|nm]; [discriminate|].
  destruct (js_truthy nm) eqn:Ht; [|discriminate].
  destruct nm; try discriminate.
  destruct (js_get json "arguments") as [e|a0]; [discriminate|].
  intros H. injection H as <- <-. split.
  - intros E. subst. discriminate Ht.
  - destruct (js_truthy a0) eqn:Ea; [exact Ea|reflexivity].
Qed.

Lemma tryParseToolCallJson_ok (json_parse : string -> option jsval) (s n : string) (a : jsval) :
  tryParseToolCallJson json_parse s = Some (n, a) -> n <> "" /\ js_truthy a = true.
Proof.
  unfold tryParseToolCallJson, parse_attempt.
  destruct (json_parse (trim s)) as [j1|].
  - destruct (call_of_json j1) as [e|r] eqn:E1.
    + destruct (json_parse (replace_single_quotes s)) as [j2|]; [|discriminate].
      destruct (call_of_json j2) as [e'|r'] eqn:E2; [discriminate|].
      intros ->. exact (call_of_json_ok _ _ _ E2).
    + intros ->. exact (call_of_json_ok _ _ _ E1).
  - destruct (json_parse (replace_single_quotes s)) as [j2|]; [|discriminate].
    destruct (call_of_json j2) as [e'|r'] eqn:E2; [discriminate|].
    intros ->. exact (call_of_json_ok _ _ _ E2).
Qed.

Lemma parseToolCall_from_try (json_parse : string -> option jsval) (text : string) r :
  parseToolCall json_parse text = Some r -> exists s, tryParseToolCallJson json_parse s = Some r.
Proof.
  unfold parseToolCall.
  assert (H3 : match regex_exec bare_call_re text with
               | Some m => tryParseToolCallJson json_parse (match_str text m)
               | None => None end = Some r -> exists s, tryParseToolCallJson json_parse s = Some r)
    by (destruct (regex_exec bare_call_re text); [eauto|discriminate]).
  set (step3 := match regex_exec bare_call_re text with
               | Some m => tryParseToolCallJson json_parse (match_str text m)
               | None => None end) in *.
  assert (H2 : match regex_exec code_block_call_re text with
               | Some m => match tryParseToolCallJson json_parse (group_or_empty text m 1) with
                           | Some r => Some r | None => step3 end
               | None => step3 end = Some r -> exists s, tryParseToolCallJson json_parse s = Some r).
  { destruct (regex_exec code_block_call_re text) as [m|]; [|exact H3].
    destruct (tryParseToolCallJson json_parse (group_or_empty text m 1)) eqn:E; [|exact H3].
    intros H. injection H as <-. eauto. }
  set (step2 := match regex_exec code_block_call_re text with
               | Some m => match tryParseToolCallJson json_parse (group_or_empty text m 1) with
                           | Some r => Some r | None => step3 end
               | None => step3 end) in *.
  destruct (regex_exec tool_call_tag_re text) as [m|]; [|exact H2].
  destruct (tryParseToolCallJson json_parse (group_or_empty text m 1)) eqn:E; [|exact H2].
  intros H. injection H as <-. eauto.
Qed.

(** Extra X13: a tool call found in the text of a reply always has a non-empty
    name, and its arguments are never falsy (missing or falsy arguments
    become [{}]), whichever of the three formats it was found in. *)
Theorem parseToolCall_call_ok (json_parse : string -> option jsval) (text : string) :
  match parseToolCall json_parse text with
  | Some (n, a) => n <> "" /\ js_truthy a = true
  | None => True
  end.
Proof.
  destruct (parseToolCall json_parse text) as [[n a]|] eqn:E; [|exact I].
  destruct (parseToolCall_from_try _ _ _ E) as [s Hs].
  exact (tryParseToolCallJson_ok _ _ _ _ Hs).
Qed.

(** Extra X14: a checklist parsed from [<todo title=...>] has at least one item,
    and no item is empty: lines that are not bullets or numbered steps,
    and bullets with nothing after the marker, are skipped. *)
Theorem parseTodoList_items (text : string) :
  match parseTodoList text with
  | Some (_, items) => items <> [] /\ Forall (fun i => i <> "") items
  | None => True
  end.
Proof.
  unfold parseTodoList. destruct (regex_exec todo_list_re text) as [m|]; [|exact I].
  cbv zeta.
  match goal with |- context [fold_left ?f ?ls0 []] =>
    assert (Hf : forall ls acc, Forall (fun i => i <> "") acc -> Forall (fun i => i <> "") (fold_left f ls acc));
    [|pose proof (Hf ls0 [] (Forall_nil _)) as Hall; destruct (fold_left f ls0 []) as [|x xs]; [exact I|]] end.
  - intros ls. induction ls as [|line ls IH]; intros acc Hacc; simpl; [exact Hacc|].
    apply IH. destruct (_ || _); [|exact Hacc].
    destruct (String.eqb _ "") eqn:E; [exact Hacc|].
    apply Forall_app. split; [exact Hacc|]. constructor; [|constructor].
    intros H. rewrite H in E. discriminate.
  - split; [discriminate|exact Hall].
Qed.

Lemma rmatch_lit_i (R : Type) (p : string) : p <> "" -> forall pos rest cs (k : nat -> string -> caps -> option R),
  rmatch R (lit_i p) pos rest cs k =
    if prefix_ci p rest then k (pos + String.length p) (sdrop (String.length p) rest) cs else None.
Proof.
  induction p as [|c p IH]; intros Hp pos rest cs k; [contradiction|].
  destruct p as [|c' p'].
  - cbn. destruct rest as [|d rest]; [reflexivity|]. cbn.
    rewrite Bool.andb_true_r, Nat.add_1_r. reflexivity.
  - change (lit_i (String c (String c' p'))) with (RSeq (chr_i c) (lit_i (String c' p'))).
    cbn [rmatch]. destruct rest as [|d rest]; [reflexivity|]. cbn [chr_i rmatch prefix_ci].
    destruct (Ascii.eqb (upper d) (upper c)); [|reflexivity]. cbn [andb].
    rewrite IH by discriminate.
    replace (S pos + String.length (String c' p')) with (pos + String.length (String c (String c' p')))
      by (simpl; lia).
    reflexivity.
Qed.

Lemma exec_from_anchored_late (p : string) : forall rest i,
  exec_from (anchored p) (S i) rest = None.
Proof.
  induction rest as [|c rest IH]; intros i; simpl; [reflexivity|]. apply IH.
Qed.

Lemma regex_test_anchored (p s : string) : p <> "" -> regex_test (anchored p) s = prefix_ci p s.
Proof.
  intros Hp. unfold regex_test, regex_exec. destruct s as [|c s'].
  - simpl. rewrite rmatch_lit_i by exact Hp. destruct p; [contradiction|reflexivity].
  - cbn [exec_from]. cbn [anchored rmatch Nat.eqb].
    rewrite rmatch_lit_i by exact Hp.
    destruct (prefix_ci p (String c s')); [reflexivity|].
    rewrite exec_from_anchored_late. reflexivity.
Qed.

Lemma exec_from_lit_i (p : string) : p <> "" -> forall s i,
  match exec_from (lit_i p) i s with Some _ => true | None => false end = contains_ci p s.
Proof.
  intros Hp s. induction s as [|c s IH]; intros i; simpl exec_from; rewrite rmatch_lit_i by exact Hp.
  - simpl. destruct (prefix_ci p ""); reflexivity.
  - simpl contains_ci. destruct (prefix_ci p (String c s)); [reflexivity|]. apply IH.
Qed.

Lemma regex_test_lit_i (p s : string) : p <> "" -> regex_test (lit_i p) s = contains_ci p s.
Proof. intros Hp. apply exec_from_lit_i. exact Hp. Qed.

Lemma prefix_ci_compatible (p q s : string) :
  prefix_ci p s = true -> prefix_ci q s = true -> compatible_ci p q = true.
Proof.
  revert q s; induction p as [|c p IH]; intros q s Hp Hq; [reflexivity|].
  destruct q as [|d q]; [reflexivity|]. destruct s as [|e s]; [discriminate|].
  simpl in *. apply andb_prop in Hp, Hq. destruct Hp as [Hp1 Hp2], Hq as [Hq1 Hq2].
  apply Ascii.eqb_eq in Hp1, Hq1. rewrite <- Hp1, <- Hq1, Ascii.eqb_refl. simpl. eauto.
Qed.

(** Extra X15: the automatic mode choice in terms of the model identifier: the
    native [Agent] is chosen exactly when the identifier starts with
    [claude-3], [claude-2], [o1] or [o3] and does not contain [deepseek]
    anywhere, letters compared without regard to case. *)
Theorem detectNativeToolSupport_spec (modelId : string) :
  detectNativeToolSupport modelId =
    (prefix_ci "claude-3" modelId || prefix_ci "claude-2" modelId
     || prefix_ci "o1" modelId || prefix_ci "o3" modelId)
    && negb (contains_ci "deepseek" modelId).
Proof.
  unfold detectNativeToolSupport, PROMPT_BASED_PATTERNS, NATIVE_REASONING_PATTERNS.
  cbn [existsb]. rewrite regex_test_lit_i by discriminate.
  rewrite !regex_test_anchored by discriminate.
  rewrite !Bool.orb_false_r.
  destruct (contains_ci "deepseek" modelId); [simpl; symmetry; apply Bool.andb_false_r|].
  rewrite Bool.andb_true_r. cbn [orb negb].
  assert (Hx : forall p q, compatible_ci p q = false -> prefix_ci p modelId = true -> prefix_ci q modelId = false).
  { intros p q Hc Hp. destruct (prefix_ci q modelId) eqn:Hq; [|reflexivity].
    rewrite (prefix_ci_compatible p q modelId Hp Hq) in Hc. discriminate. }
  destruct (prefix_ci "claude-3" modelId) eqn:E1;
    [rewrite !(Hx "claude-3") by (exact E1 || reflexivity); reflexivity|].
  destruct (prefix_ci "claude-2" modelId) eqn:E2;
    [rewrite !(Hx "claude-2") by (exact E2 || reflexivity); reflexivity|].
  destruct (prefix_ci "o1" modelId) eqn:E3;
    [rewrite !(Hx "o1") by (exact E3 || reflexivity); reflexivity|].
  destruct (prefix_ci "o3" modelId) eqn:E4;
    [rewrite !(Hx "o3") by (exact E4 || reflexivity); reflexivity|].
  destruct (prefix_ci "gpt" modelId || _); reflexivity.
Qed.

Lemma fold_sapp_shift {A} (f : A -> string) (l : list A) : forall d,
  fold_left (fun description x => description ++ f x) l d = d ++ strcat (map f l).
Proof.
  induction l as [|x l IH]; intros d; simpl; [rewrite sapp_nil_r; reflexivity|].
  rewrite IH, sapp_assoc. reflexivity.
Qed.

Lemma strcat_in {A} (f : A -> string) (l : list A) (x : A) :
  In x l -> exists pre post, strcat (map f l) = pre ++ f x ++ post.
Proof.
  intros Hin. apply in_split in Hin. destruct Hin as (l1 & l2 & ->).
  rewrite map_app, strcat_app. simpl. exists (strcat (map f l1)), (strcat (map f l2)). reflexivity.
Qed.

Lemma fold_shift {A} (g : string -> A -> string) (Hg : forall d x, g d x = d ++ g "" x) :
  forall l d, fold_left g l d = d ++ strcat (map (g "") l).
Proof.
  induction l as [|x l IH]; intros d; simpl; [rewrite sapp_nil_r; reflexivity|].
  rewrite IH, Hg, sapp_assoc. reflexivity.
Qed.

(** Extra X16: both tool-list descriptions (the text-convention system prompt's
    and the thinking phase's): for no tools, the fixed sentence saying
    that no tool is available; otherwise every tool is listed, under a
    [### name] header line followed by its description line. *)
Theorem generateToolsDescription_lists_tools :
  pb_generateToolsDescription [] = "当前没有可用的工具。" /\
  agent_generateToolsDescription [] = "当前没有可用的工具。" /\
  forall tools t, In t tools ->
    (exists pre post, pb_generateToolsDescription tools
       = pre ++ ("### " ++ tool_name t ++ nl_s ++ tool_description t ++ nl_s) ++ post) /\
    (exists pre post, agent_generateToolsDescription tools
       = pre ++ ("### " ++ tool_name t ++ nl_s ++ "描述: " ++ tool_description t ++ nl_s) ++ post).
Proof.
  split; [reflexivity|]. split; [reflexivity|]. intros tools t Hin.
  destruct tools as [|t0 ts]; [destruct Hin|].
  split.
  - unfold pb_generateToolsDescription.
    rewrite fold_shift.
    2:{ intros d x. destruct (tool_properties x) as [props|].
        - do 2 (erewrite fold_shift; [|intros d' [k p]; reflexivity]).
          rewrite !sapp_assoc. reflexivity.
        - rewrite !sapp_assoc. reflexivity. }
    match goal with |- context [strcat (map ?f (t0 :: ts))] =>
      destruct (strcat_in f _ _ Hin) as (pre & post & ->) end.
    exists pre. cbv beta. change (EmptyString ++ ?x) with x.
    destruct (tool_properties t) as [props|].
    + erewrite fold_shift; [|intros d' [k p]; reflexivity].
      eexists. rewrite !sapp_assoc. reflexivity.
    + eexists. rewrite !sapp_assoc. reflexivity.
  - unfold agent_generateToolsDescription.
    rewrite fold_shift.
    2:{ intros d x. destruct (tool_properties x) as [props|].
        - do 2 (erewrite fold_shift; [|intros d' [k p]; reflexivity]).
          rewrite !sapp_assoc. reflexivity.
        - rewrite !sapp_assoc. reflexivity. }
    match goal with |- context [strcat (map ?f (t0 :: ts))] =>
      destruct (strcat_in f _ _ Hin) as (pre & post & ->) end.
    exists pre. cbv beta. change (EmptyString ++ ?x) with x.
    destruct (tool_properties t) as [props|].
    + erewrite fold_shift; [|intros d' [k p]; reflexivity].
      eexists. rewrite !sapp_assoc. reflexivity.
    + eexists. rewrite !sapp_assoc. reflexivity.
Qed.

Lemma text_deltas_app (a b : list event) : text_deltas (app a b) = text_deltas a ++ text_deltas b.
Proof. unfold text_deltas. rewrite flat_map_app, strcat_app. reflexivity. Qed.

Lemma on_chunk_fullText (st : Agent.it_state) (c : chunk) :
  Agent.fullText (fst (Agent.on_chunk st c)) = Agent.fullText st ++ text_deltas (snd (Agent.on_chunk st c)).
Proof.
  destruct st as [ft tcs cur hst hsr snt inside tb].
  destruct c as [d|d|cid nm args|cid nm|cid d| |e|]; cbn [Agent.on_chunk].
  - destruct hsr; simpl; rewrite sapp_nil_r; reflexivity.
  - unfold Agent.on_text_delta.
    repeat (destr_inner || (simpl; rewrite ?text_deltas_app, ?sapp_nil_r; reflexivity));
    simpl; unfold text_deltas; simpl; rewrite ?sapp_nil_r; try reflexivity.
  - destruct (existsb (String.eqb cid) snt); simpl; rewrite sapp_nil_r; reflexivity.
  - destruct (existsb (String.eqb cid) snt); simpl; rewrite sapp_nil_r; reflexivity.
  - destruct cur as [[[ccid cname] argsText]|]; simpl; rewrite sapp_nil_r; reflexivity.
  - unfold Agent.on_finish.
    repeat (destr_inner || (simpl; rewrite ?text_deltas_app, ?sapp_nil_r; reflexivity));
    simpl; unfold text_deltas; simpl; rewrite ?sapp_nil_r; try reflexivity.
  - simpl. rewrite sapp_nil_r. reflexivity.
  - simpl. rewrite sapp_nil_r. reflexivity.
Qed.

Lemma run_stream_fullText (cs : list chunk) : forall st,
  Agent.fullText (fst (Agent.run_stream st cs)) = Agent.fullText st ++ text_deltas (snd (Agent.run_stream st cs)).
Proof.
  induction cs as [|c cs IH]; intros st; simpl; [rewrite sapp_nil_r; reflexivity|].
  pose proof (on_chunk_fullText st c) as H.
  destruct (Agent.on_chunk st c) as [st1 e1]. simpl in H.
  specialize (IH st1). destruct (Agent.run_stream st1 cs) as [st2 e2]. simpl in *.
  rewrite IH, H, text_deltas_app, sapp_assoc. reflexivity.
Qed.

(** Extra X17: in a native iteration, the text recorded as the assistant's reply
    ([fullText], put in the history) is exactly the concatenation of the
    [TEXT_DELTA] events emitted for the model's response: what is inside
    [<think>] tags, reasoning chunks and tool calls are neither shown as
    text nor recorded. *)
Theorem agent_fullText_is_text_deltas (cs : list chunk) :
  let '(st, e) := Agent.run_stream Agent.it_init cs in Agent.fullText st = text_deltas e.
Proof.
  pose proof (run_stream_fullText cs Agent.it_init) as H.
  destruct (Agent.run_stream Agent.it_init cs) as [st e]. exact H.
Qed.

(** Extra X18: a text-convention iteration executes at most one tool: the call
    that [parseToolCall] finds in the raw concatenated text of the reply
    (thinking text and tags included), under the id [tool-<Date.now()>];
    when it finds none, nothing is executed. *)
Theorem pb_iteration_executes_parsed_call
    (json_parse : string -> option jsval) (stream_text : stream_request -> list chunk)
    (call_tool : string -> jsval -> outcome) (json_stringify : jsval -> string) (clock : nat -> nat)
    (it : nat) (msgs : list message) :
  executing_calls (fst (PromptBasedAgent.iteration_body json_parse stream_text call_tool json_stringify clock it msgs))
    = match parseToolCall json_parse (text_of (stream_text (MainRequest msgs false))) with
      | Some (name, args) => [(name, "tool-" ++ nat_to_string (clock it), args)]
      | None => []
      end.
Proof.
  unfold PromptBasedAgent.iteration_body.
  pose proof (pb_stream_facts (clock it) (stream_text (MainRequest msgs false)) pb_init) as [F1 F2].
  destruct (pb_stream (clock it) pb_init (stream_text (MainRequest msgs false))) as [st e1].
  simpl in F1, F2. rewrite F1. destruct (pb_event_kinds _ F2) as (_ & _ & _ & K4).
  destruct (parseToolCall json_parse (text_of (stream_text (MainRequest msgs false)))) as [[name args]|].
  - destruct (call_tool name args); simpl; rewrite executing_calls_app, K4; reflexivity.
  - simpl. rewrite executing_calls_app, K4. reflexivity.
Qed.
